(** * Sigma design editor: document model, layout, history and boolean geometry

    A shallow embedding of the core of the editor:
    - [Utils.deepClone] and the geometry helpers of [Utils] (utils.ts), and
      the undo/redo [HistoryManager] (history.ts);
    - the [DesignObject] class hierarchy with [serialize], [deserialize],
      [clone], the bounds of a [Line], [AutoLayout.apply], [Gradient.addStop],
      [Constraints], [Path.addPoint], [Group.addChild] and the overrides of a
      [ComponentInstance] (objects.ts);
    - the rotation drag of [SelectTool.onMouseMove], [SelectTool.handleResize]
      and [RectangleTool.onMouseMove] (tools.ts);
    - [BooleanOperations] (boolean.js): polygons, Graham scan,
      [lineIntersection], [pointInPolygon] and [performOperation];
    - the selection, the stacking order, [alignSelection],
      [distributeSelection] and [zoomAtPoint] of [FigmaApp] (app.ts), over the
      viewport of the canvas renderer.

    Numbers.  A JavaScript number is embedded as a canonical rational [Qc]:
    the finite values, with exact arithmetic.  NaN and the infinities are
    outside the embedding (the specification assumes finite inputs), and so is
    rounding.  A number is falsy exactly when it is [0].

    Objects.  A JavaScript array is a [list] whose head is index 0; [push]
    appends at the end, [pop] takes the last element, [shift] the first.
    Children that a container owns are embedded by value; references that do
    not own their target (a master component, the instances of a component)
    are embedded as heap identities [ref]. *)

From Stdlib Require Import QArith Qcanon Qround ZArith List String Ascii Bool
  Lia Lqa Permutation Sorted.
Import ListNotations.

Set Warnings "-register-all".

Open Scope string_scope.
Open Scope list_scope.
Open Scope Qc_scope.

(* ================================================================== *)
(** * Part I: the embedding *)
(* ================================================================== *)

(** ** JavaScript values and operators *)

Module Js.

(** Plain data: primitives, arrays and objects. An object is the list of its
    own enumerable properties in enumeration order. *)
Inductive JsVal : Type :=
  | JUndefined
  | JNull
  | JBool (b : bool)
  | JNum (n : Qc)
  | JStr (s : string)
  | JArr (items : list JsVal)
  | JObj (props : list (string * JsVal)).

(** Comparisons of numbers, as booleans. *)
Definition eqb (a b : Qc) : bool := Qc_eq_bool a b.
Definition leb (a b : Qc) : bool := Qle_bool a b.
Definition ltb (a b : Qc) : bool := negb (Qle_bool b a).

(** [Math.min], [Math.max] and [Math.abs] on two finite numbers. *)
Definition min (a b : Qc) : Qc := if ltb b a then b else a.
Definition max (a b : Qc) : Qc := if ltb a b then b else a.
Definition abs (a : Qc) : Qc := if ltb a 0 then - a else a.

(** [a || d] on an optional number: [undefined] and [0] are falsy. *)
Definition num_or (a : option Qc) (d : Qc) : Qc :=
  match a with
  | Some n => if eqb n 0 then d else n
  | None => d
  end.

(** [a || d] where [a] is a number that is always there. *)
Definition or_num (a d : Qc) : Qc := if eqb a 0 then d else a.

(** [a || d] on an optional string: [undefined] and the empty string are
    falsy. *)
Definition str_or (a : option string) (d : string) : string :=
  match a with
  | Some EmptyString => d
  | Some s => s
  | None => d
  end.

(** [a || false] on an optional boolean. *)
Definition bool_or (a : option bool) (d : bool) : bool :=
  match a with
  | Some true => true
  | _ => d
  end.

(** [a !== undefined ? a : d]. *)
Definition defined_or {A : Type} (a : option A) (d : A) : A :=
  match a with
  | Some v => v
  | None => d
  end.

(** [a ?? d]: here [None] stands for [undefined] or [null]. *)
Definition nullish_or {A : Type} (a : option A) (d : A) : A :=
  match a with
  | Some v => v
  | None => d
  end.

End Js.

(** ** Utils *)

Module Utils.
Import Js.

(** [Utils.deepClone]: a primitive is returned as it is, an array is mapped,
    an object is copied property by property ([for (key in obj)] over the own
    properties, inserted into the copy in the same order). The [Date] branch
    has no counterpart: plain data holds no [Date]. *)
Fixpoint deepClone (obj : JsVal) : JsVal :=
  match obj with
  | JArr items => JArr (map deepClone items)
  | JObj props => JObj (map (fun kv => (fst kv, deepClone (snd kv))) props)
  | _ => obj
  end.

End Utils.

(** ** The history manager (history.ts) *)

Module History.
Import Js.

(** [interface HistoryState { objects: unknown[]; selectedIds: string[] }].
    The objects of a snapshot are serialized design objects, plain data. *)
Record HistoryState : Type := mkState {
  objects : list JsVal;
  selectedIds : list string
}.

(** [Utils.deepClone] at a [HistoryState]: the state is an object with the
    two properties [objects] and [selectedIds], both arrays; the strings of
    [selectedIds] are primitives and are returned as they are. *)
Definition deepCloneState (s : HistoryState) : HistoryState :=
  {| objects := map Utils.deepClone (objects s);
     selectedIds := map (fun id => id) (selectedIds s) |}.

(** [maxSize] is a capacity, a number of entries. *)
Record HistoryManager : Type := mkManager {
  maxSize : nat;
  undoStack : list HistoryState;
  redoStack : list HistoryState;
  isApplying : bool
}.

(** [constructor(maxSize = 100)] *)
Definition new (maxSize : option nat) : HistoryManager :=
  {| maxSize := defined_or maxSize 100%nat;
     undoStack := [];
     redoStack := [];
     isApplying := false |}.

(** [Array.prototype.pop]: the last element, and the array without it. *)
Fixpoint pop {A : Type} (l : list A) : option A * list A :=
  match l with
  | [] => (None, [])
  | [a] => (Some a, [])
  | a :: t => let (r, t') := pop t in (r, a :: t')
  end.

(** [Array.prototype.shift], for its effect on the array. *)
Definition shift {A : Type} (l : list A) : list A := tl l.

(** [push(state)] *)
Definition push (h : HistoryManager) (state : HistoryState) : HistoryManager :=
  if isApplying h then h
  else
    let redo := [] in
    let undo := undoStack h ++ [deepCloneState state] in
    let undo := if (maxSize h <? List.length undo)%nat then shift undo else undo in
    {| maxSize := maxSize h;
       undoStack := undo;
       redoStack := redo;
       isApplying := isApplying h |}.

(** [undo(currentState)]: the returned state ([None] is [null]) and the
    manager afterwards. A [HistoryState] is an object, hence truthy, so
    [this.undoStack.pop() || null] is the popped state. *)
Definition undo (h : HistoryManager) (currentState : HistoryState)
  : option HistoryState * HistoryManager :=
  match undoStack h with
  | [] => (None, h)
  | _ =>
    let redo := redoStack h ++ [deepCloneState currentState] in
    let (r, undo) := pop (undoStack h) in
    (r, {| maxSize := maxSize h;
           undoStack := undo;
           redoStack := redo;
           isApplying := isApplying h |})
  end.

(** [redo()] *)
Definition redo (h : HistoryManager) : option HistoryState * HistoryManager :=
  match redoStack h with
  | [] => (None, h)
  | _ =>
    let (r, redo) := pop (redoStack h) in
    (r, {| maxSize := maxSize h;
           undoStack := undoStack h;
           redoStack := redo;
           isApplying := isApplying h |})
  end.

Definition canUndo (h : HistoryManager) : bool := (0 <? List.length (undoStack h))%nat.
Definition canRedo (h : HistoryManager) : bool := (0 <? List.length (redoStack h))%nat.

Definition clear (h : HistoryManager) : HistoryManager :=
  {| maxSize := maxSize h; undoStack := []; redoStack := [];
     isApplying := isApplying h |}.

Definition beginApply (h : HistoryManager) : HistoryManager :=
  {| maxSize := maxSize h; undoStack := undoStack h; redoStack := redoStack h;
     isApplying := true |}.

Definition endApply (h : HistoryManager) : HistoryManager :=
  {| maxSize := maxSize h; undoStack := undoStack h; redoStack := redoStack h;
     isApplying := false |}.

Definition undoCount (h : HistoryManager) : nat := List.length (undoStack h).
Definition redoCount (h : HistoryManager) : nat := List.length (redoStack h).

(** Pushing a sequence of states, one call of [push] after the other. *)
Definition pushAll (h : HistoryManager) (states : list HistoryState)
  : HistoryManager :=
  fold_left push states h.

End History.

(** ** Design objects (objects.ts) *)

Module Objects.
Import Js.

(** [T | null] where the property may also be missing: the three cases the
    constructors tell apart. *)
Inductive nullable (A : Type) : Type :=
  | Undefined
  | Null
  | Value (a : A).
Arguments Undefined {A}.
Arguments Null {A}.
Arguments Value {A} a.

(** Truthiness of an optional object: [undefined] and [null] are falsy, an
    object is truthy. *)
Definition truthy_obj {A : Type} (a : nullable A) : option A :=
  match a with
  | Value v => Some v
  | _ => None
  end.

(** Truthiness of an optional string: the empty string is falsy as well. *)
Definition truthy_str (a : nullable string) : option string :=
  match a with
  | Value EmptyString => None
  | Value s => Some s
  | _ => None
  end.

(** A class property of type [T | null] written back as data. *)
Definition of_option {A : Type} (a : option A) : nullable A :=
  match a with
  | Some v => Value v
  | None => Null
  end.

(** [interface Point { x: number; y: number }] *)
Record Point : Type := mkPoint { px : Qc; py : Qc }.

(** [interface Rect] *)
Record Rect : Type := mkRect { rx : Qc; ry : Qc; rwidth : Qc; rheight : Qc }.

(** *** Gradient *)

Module Gradient.

Inductive kind : Type := linear | radial.

Record GradientStop : Type := mkStop { offset : Qc; color : string }.

(** [Partial<GradientData>], the constructor's options. *)
Record Data : Type := mkData {
  o_type : option kind;
  o_angle : option Qc;
  o_stops : option (list GradientStop);
  o_centerX : option Qc;
  o_centerY : option Qc;
  o_radiusX : option Qc;
  o_radiusY : option Qc
}.

Record t : Type := mk {
  type : kind;
  angle : Qc;
  stops : list GradientStop;
  centerX : Qc;
  centerY : Qc;
  radiusX : Qc;
  radiusY : Qc
}.

Definition new (options : Data) : t :=
  {| type := defined_or (o_type options) linear;
     angle := num_or (o_angle options) 0;
     stops := defined_or (o_stops options)
                [ mkStop 0 "#5B5BFF"; mkStop 1 "#FF5B5B" ];
     centerX := num_or (o_centerX options) (Q2Qc (1 # 2));
     centerY := num_or (o_centerY options) (Q2Qc (1 # 2));
     radiusX := num_or (o_radiusX options) (Q2Qc (1 # 2));
     radiusY := num_or (o_radiusY options) (Q2Qc (1 # 2)) |}.

Definition serialize (g : t) : Data :=
  {| o_type := Some (type g);
     o_angle := Some (angle g);
     o_stops := Some (stops g);
     o_centerX := Some (centerX g);
     o_centerY := Some (centerY g);
     o_radiusX := Some (radiusX g);
     o_radiusY := Some (radiusY g) |}.

Definition deserialize (data : nullable Data) : option t :=
  match truthy_obj data with
  | None => None
  | Some d => Some (new d)
  end.

End Gradient.

(** *** Shadow *)

Module Shadow.

Inductive kind : Type := drop | inner.

Record Data : Type := mkData {
  o_type : option kind;
  o_color : option string;
  o_offsetX : option Qc;
  o_offsetY : option Qc;
  o_blur : option Qc;
  o_spread : option Qc;
  o_visible : option bool
}.

Record t : Type := mk {
  type : kind;
  color : string;
  offsetX : Qc;
  offsetY : Qc;
  blur : Qc;
  spread : Qc;
  visible : bool
}.

Definition new (options : Data) : t :=
  {| type := defined_or (o_type options) drop;
     color := str_or (o_color options) "rgba(0,0,0,0.25)";
     offsetX := num_or (o_offsetX options) 0;
     offsetY := num_or (o_offsetY options) (Q2Qc 4);
     blur := num_or (o_blur options) (Q2Qc 8);
     spread := num_or (o_spread options) 0;
     visible := defined_or (o_visible options) true |}.

Definition serialize (s : t) : Data :=
  {| o_type := Some (type s);
     o_color := Some (color s);
     o_offsetX := Some (offsetX s);
     o_offsetY := Some (offsetY s);
     o_blur := Some (blur s);
     o_spread := Some (spread s);
     o_visible := Some (visible s) |}.

Definition deserialize (data : nullable Data) : option t :=
  match truthy_obj data with
  | None => None
  | Some d => Some (new d)
  end.

End Shadow.

(** *** Constraints (the data of the class; [apply] is not part of the
    embedding) *)

Module Constraints.

Inductive horizontal_kind : Type := left | right | hcenter | hscale | left_right.
Inductive vertical_kind : Type := top | bottom | vcenter | vscale | top_bottom.

Record Data : Type := mkData {
  o_horizontal : option horizontal_kind;
  o_vertical : option vertical_kind;
  o_originalX : option Qc;
  o_originalY : option Qc;
  o_originalWidth : option Qc;
  o_originalHeight : option Qc;
  o_originalParentWidth : option Qc;
  o_originalParentHeight : option Qc
}.

Record t : Type := mk {
  horizontal : horizontal_kind;
  vertical : vertical_kind;
  originalX : Qc;
  originalY : Qc;
  originalWidth : Qc;
  originalHeight : Qc;
  originalParentWidth : Qc;
  originalParentHeight : Qc
}.

Definition new (options : Data) : t :=
  {| horizontal := defined_or (o_horizontal options) left;
     vertical := defined_or (o_vertical options) top;
     originalX := num_or (o_originalX options) 0;
     originalY := num_or (o_originalY options) 0;
     originalWidth := num_or (o_originalWidth options) 0;
     originalHeight := num_or (o_originalHeight options) 0;
     originalParentWidth := num_or (o_originalParentWidth options) 0;
     originalParentHeight := num_or (o_originalParentHeight options) 0 |}.

Definition serialize (c : t) : Data :=
  {| o_horizontal := Some (horizontal c);
     o_vertical := Some (vertical c);
     o_originalX := Some (originalX c);
     o_originalY := Some (originalY c);
     o_originalWidth := Some (originalWidth c);
     o_originalHeight := Some (originalHeight c);
     o_originalParentWidth := Some (originalParentWidth c);
     o_originalParentHeight := Some (originalParentHeight c) |}.

Definition deserialize (data : nullable Data) : option t :=
  match truthy_obj data with
  | None => None
  | Some d => Some (new d)
  end.

End Constraints.

(** *** AutoLayout: data and class; [apply] follows the design objects *)

Module AutoLayout.

Inductive direction_kind : Type := horizontal | vertical.
Inductive primary_align : Type := pstart | pcenter | pend | space_between.
Inductive counter_align : Type := cstart | ccenter | cend | stretch.
Inductive sizing : Type := fixed | hug.

Record Data : Type := mkData {
  o_direction : option direction_kind;
  o_primaryAxisAlign : option primary_align;
  o_counterAxisAlign : option counter_align;
  o_spacing : option Qc;
  o_paddingTop : option Qc;
  o_paddingRight : option Qc;
  o_paddingBottom : option Qc;
  o_paddingLeft : option Qc;
  o_primaryAxisSizing : option sizing;
  o_counterAxisSizing : option sizing
}.

Record t : Type := mk {
  direction : direction_kind;
  primaryAxisAlign : primary_align;
  counterAxisAlign : counter_align;
  spacing : Qc;
  paddingTop : Qc;
  paddingRight : Qc;
  paddingBottom : Qc;
  paddingLeft : Qc;
  primaryAxisSizing : sizing;
  counterAxisSizing : sizing
}.

Definition new (options : Data) : t :=
  {| direction := defined_or (o_direction options) horizontal;
     primaryAxisAlign := defined_or (o_primaryAxisAlign options) pstart;
     counterAxisAlign := defined_or (o_counterAxisAlign options) cstart;
     spacing := num_or (o_spacing options) (Q2Qc 10);
     paddingTop := num_or (o_paddingTop options) 0;
     paddingRight := num_or (o_paddingRight options) 0;
     paddingBottom := num_or (o_paddingBottom options) 0;
     paddingLeft := num_or (o_paddingLeft options) 0;
     primaryAxisSizing := defined_or (o_primaryAxisSizing options) hug;
     counterAxisSizing := defined_or (o_counterAxisSizing options) hug |}.

Definition serialize (a : t) : Data :=
  {| o_direction := Some (direction a);
     o_primaryAxisAlign := Some (primaryAxisAlign a);
     o_counterAxisAlign := Some (counterAxisAlign a);
     o_spacing := Some (spacing a);
     o_paddingTop := Some (paddingTop a);
     o_paddingRight := Some (paddingRight a);
     o_paddingBottom := Some (paddingBottom a);
     o_paddingLeft := Some (paddingLeft a);
     o_primaryAxisSizing := Some (primaryAxisSizing a);
     o_counterAxisSizing := Some (counterAxisSizing a) |}.

Definition deserialize (data : nullable Data) : option t :=
  match truthy_obj data with
  | None => None
  | Some d => Some (new d)
  end.

End AutoLayout.

(** *** The serialized form of a design object *)

(** Identity of an object on the heap, for the references that do not own
    their target. *)
Definition ref : Type := nat.

(** [interface PathPoint] *)
Record PathPoint : Type := mkPathPoint {
  ppx : Qc;
  ppy : Qc;
  handleIn : option Point;
  handleOut : option Point
}.

Inductive fit_kind : Type := cover | contain | fill_fit | none_fit.

(** [interface DesignObjectData]: every property but [type] is optional. *)
Record BaseData : Type := mkBaseData {
  d_id : option string;
  d_type : string;
  d_name : option string;
  d_x : option Qc;
  d_y : option Qc;
  d_width : option Qc;
  d_height : option Qc;
  d_rotation : option Qc;
  d_fill : nullable string;
  d_fillOpacity : option Qc;
  d_stroke : nullable string;
  d_strokeWidth : option Qc;
  d_strokeOpacity : option Qc;
  d_visible : option bool;
  d_locked : option bool;
  d_opacity : option Qc;
  d_blendMode : option string;
  d_gradient : nullable Gradient.Data;
  d_shadows : option (list Shadow.Data);
  d_blur : option Qc;
  d_constraints : nullable Constraints.Data
}.

(** The properties that [RectangleData], [LineData], [TextObjectData],
    [FrameData], [PathData], [ComponentData], [ComponentInstanceData] and
    [ImageObjectData] add, [children] apart. A serialized object is one
    JavaScript object: a property that a variant does not write is missing. *)
Record ExtData : Type := mkExtData {
  d_cornerRadius : option Qc;
  d_x1 : option Qc;
  d_y1 : option Qc;
  d_x2 : option Qc;
  d_y2 : option Qc;
  d_text : option string;
  d_fontFamily : option string;
  d_fontSize : option Qc;
  d_fontWeight : option string;
  d_lineHeight : option Qc;
  d_textAlign : option string;
  d_clipContent : option bool;
  d_autoLayout : nullable AutoLayout.Data;
  d_points : option (list PathPoint);
  d_closed : option bool;
  d_componentId : option string;
  d_description : option string;
  d_overrides : option (list (string * bool));
  d_masterComponent : option ref;
  d_src : option string;
  d_imageData : nullable string;
  d_fit : option fit_kind
}.

Definition no_ext : ExtData :=
  {| d_cornerRadius := None; d_x1 := None; d_y1 := None; d_x2 := None;
     d_y2 := None; d_text := None; d_fontFamily := None; d_fontSize := None;
     d_fontWeight := None; d_lineHeight := None; d_textAlign := None;
     d_clipContent := None; d_autoLayout := Undefined; d_points := None;
     d_closed := None; d_componentId := None; d_description := None;
     d_overrides := None; d_masterComponent := None; d_src := None;
     d_imageData := Undefined; d_fit := None |}.

Inductive Data : Type := mkData {
  base : BaseData;
  ext : ExtData;
  d_children : option (list Data)
}.

(** *** The classes *)

(** The properties every design object stores, position and size apart. The
    back-reference [parent] is not stored: an owned child is embedded inside
    its container. *)
Record Common : Type := mkCommon {
  id : string;
  name : string;
  rotation : Qc;
  fill : option string;
  fillOpacity : Qc;
  stroke : option string;
  strokeWidth : Qc;
  strokeOpacity : Qc;
  visible : bool;
  locked : bool;
  opacity : Qc;
  blendMode : string;
  gradient : option Gradient.t;
  shadows : list Shadow.t;
  blur : Qc;
  constraints : option Constraints.t
}.

(** The stored [x], [y], [width], [height]: fields that the base class
    declares, so that every object has them as properties of its own, a
    [Line] included. *)
Record Geom : Type := mkGeom { x : Qc; y : Qc; width : Qc; height : Qc }.

Record TextProps : Type := mkTextProps {
  text : string;
  fontFamily : string;
  fontSize : Qc;
  fontWeight : string;
  lineHeight : Qc;
  textAlign : string
}.

Record ImageProps : Type := mkImageProps {
  src : string;
  imageData : option string;
  fit : fit_kind;
  (** [_image]: the element that [loadImage] created, as the source it was
      given; [None] is [null]. *)
  _image : option string
}.

(** The private [_x], [_y], [_width], [_height] of a [Path]. *)
Record PathBounds : Type := mkPathBounds {
  _x : Qc; _y : Qc; _width : Qc; _height : Qc
}.

Inductive DesignObject : Type :=
  (** an instance of the base class, as [deserialize] builds it for an
      unknown [type] *)
  | Generic (type : string) (c : Common) (g : Geom)
  | Rectangle (c : Common) (g : Geom) (cornerRadius : Qc)
  | Ellipse (c : Common) (g : Geom)
  | Line (c : Common) (g : Geom) (x1 y1 x2 y2 : Qc)
  | TextObject (c : Common) (g : Geom) (t : TextProps)
  | Frame (c : Common) (g : Geom) (children : list DesignObject)
          (clipContent : bool) (cornerRadius : Qc)
          (autoLayout : option AutoLayout.t)
  | Path (c : Common) (g : Geom) (points : list PathPoint) (closed : bool)
         (b : PathBounds)
  | Group (c : Common) (g : Geom) (children : list DesignObject)
  | Component (c : Common) (g : Geom) (children : list DesignObject)
              (clipContent : bool) (cornerRadius : Qc)
              (componentId : string) (description : string)
              (instances : list ref)
  | ComponentInstance (c : Common) (g : Geom) (componentId : string)
                      (masterComponent : option ref)
                      (overrides : list (string * bool)) (cornerRadius : Qc)
  | ImageObject (c : Common) (g : Geom) (i : ImageProps) (cornerRadius : Qc).

(** *** Accessors *)

(** [this.type] *)
Definition type_of (o : DesignObject) : string :=
  match o with
  | Generic type _ _ => type
  | Rectangle _ _ _ => "rectangle"
  | Ellipse _ _ => "ellipse"
  | Line _ _ _ _ _ _ => "line"
  | TextObject _ _ _ => "text"
  | Frame _ _ _ _ _ _ => "frame"
  | Path _ _ _ _ _ => "path"
  | Group _ _ _ => "group"
  | Component _ _ _ _ _ _ _ _ => "component"
  | ComponentInstance _ _ _ _ _ _ => "componentInstance"
  | ImageObject _ _ _ _ => "image"
  end.

Definition common_of (o : DesignObject) : Common :=
  match o with
  | Generic _ c _ | Rectangle c _ _ | Ellipse c _ | Line c _ _ _ _ _
  | TextObject c _ _ | Frame c _ _ _ _ _ | Path c _ _ _ _ | Group c _ _
  | Component c _ _ _ _ _ _ _ | ComponentInstance c _ _ _ _ _
  | ImageObject c _ _ _ => c
  end.

Definition with_common (f : Common -> Common) (o : DesignObject) : DesignObject :=
  match o with
  | Generic t c g => Generic t (f c) g
  | Rectangle c g r => Rectangle (f c) g r
  | Ellipse c g => Ellipse (f c) g
  | Line c g x1 y1 x2 y2 => Line (f c) g x1 y1 x2 y2
  | TextObject c g t => TextObject (f c) g t
  | Frame c g ch cl r a => Frame (f c) g ch cl r a
  | Path c g p cl b => Path (f c) g p cl b
  | Group c g ch => Group (f c) g ch
  | Component c g ch cl r ci d i => Component (f c) g ch cl r ci d i
  | ComponentInstance c g ci m ov r => ComponentInstance (f c) g ci m ov r
  | ImageObject c g i r => ImageObject (f c) g i r
  end.

(** Assignments to single properties of [Common]. *)
Definition set_id (v : string) (c : Common) : Common :=
  mkCommon v (name c) (rotation c) (fill c) (fillOpacity c) (stroke c)
    (strokeWidth c) (strokeOpacity c) (visible c) (locked c) (opacity c)
    (blendMode c) (gradient c) (shadows c) (blur c) (constraints c).

Definition set_name (v : string) (c : Common) : Common :=
  mkCommon (id c) v (rotation c) (fill c) (fillOpacity c) (stroke c)
    (strokeWidth c) (strokeOpacity c) (visible c) (locked c) (opacity c)
    (blendMode c) (gradient c) (shadows c) (blur c) (constraints c).

Definition set_rotation (v : Qc) (c : Common) : Common :=
  mkCommon (id c) (name c) v (fill c) (fillOpacity c) (stroke c)
    (strokeWidth c) (strokeOpacity c) (visible c) (locked c) (opacity c)
    (blendMode c) (gradient c) (shadows c) (blur c) (constraints c).

Definition set_fill (v : option string) (c : Common) : Common :=
  mkCommon (id c) (name c) (rotation c) v (fillOpacity c) (stroke c)
    (strokeWidth c) (strokeOpacity c) (visible c) (locked c) (opacity c)
    (blendMode c) (gradient c) (shadows c) (blur c) (constraints c).

Definition set_stroke (v : option string) (c : Common) : Common :=
  mkCommon (id c) (name c) (rotation c) (fill c) (fillOpacity c) v
    (strokeWidth c) (strokeOpacity c) (visible c) (locked c) (opacity c)
    (blendMode c) (gradient c) (shadows c) (blur c) (constraints c).

Definition set_strokeWidth (v : Qc) (c : Common) : Common :=
  mkCommon (id c) (name c) (rotation c) (fill c) (fillOpacity c) (stroke c)
    v (strokeOpacity c) (visible c) (locked c) (opacity c)
    (blendMode c) (gradient c) (shadows c) (blur c) (constraints c).

(** Assignments to the stored position and size. *)
Definition geom_set_x (v : Qc) (g : Geom) : Geom := mkGeom v (y g) (width g) (height g).
Definition geom_set_y (v : Qc) (g : Geom) : Geom := mkGeom (x g) v (width g) (height g).
Definition geom_set_width (v : Qc) (g : Geom) : Geom := mkGeom (x g) (y g) v (height g).
Definition geom_set_height (v : Qc) (g : Geom) : Geom := mkGeom (x g) (y g) (width g) v.

Definition with_geom (f : Geom -> Geom) (o : DesignObject) : DesignObject :=
  match o with
  | Generic t c g => Generic t c (f g)
  | Rectangle c g r => Rectangle c (f g) r
  | Ellipse c g => Ellipse c (f g)
  | Line c g x1 y1 x2 y2 => Line c (f g) x1 y1 x2 y2
  | TextObject c g t => TextObject c (f g) t
  | Frame c g ch cl r a => Frame c (f g) ch cl r a
  | Path c g p cl b => Path c (f g) p cl b
  | Group c g ch => Group c (f g) ch
  | Component c g ch cl r ci d i => Component c (f g) ch cl r ci d i
  | ComponentInstance c g ci m ov r => ComponentInstance c (f g) ci m ov r
  | ImageObject c g i r => ImageObject c (f g) i r
  end.

(** *** Position and size *)

(** [obj.x], [obj.y], [obj.width], [obj.height]: the stored properties. The
    class [Line] declares accessors of these four names over its endpoints,
    but the fields that the base class declares are properties of the
    object itself and come first: reading [line.x] gives the stored number
    and writing it stores the number, as for every other class, and the
    endpoints play no part. *)
Definition get_x (o : DesignObject) : Qc :=
  match o with
  | Generic _ _ g | Rectangle _ g _ | Ellipse _ g | Line _ g _ _ _ _
  | TextObject _ g _ | Frame _ g _ _ _ _ | Path _ g _ _ _ | Group _ g _
  | Component _ g _ _ _ _ _ _ | ComponentInstance _ g _ _ _ _
  | ImageObject _ g _ _ => x g
  end.

Definition get_y (o : DesignObject) : Qc :=
  match o with
  | Generic _ _ g | Rectangle _ g _ | Ellipse _ g | Line _ g _ _ _ _
  | TextObject _ g _ | Frame _ g _ _ _ _ | Path _ g _ _ _ | Group _ g _
  | Component _ g _ _ _ _ _ _ | ComponentInstance _ g _ _ _ _
  | ImageObject _ g _ _ => y g
  end.

Definition get_width (o : DesignObject) : Qc :=
  match o with
  | Generic _ _ g | Rectangle _ g _ | Ellipse _ g | Line _ g _ _ _ _
  | TextObject _ g _ | Frame _ g _ _ _ _ | Path _ g _ _ _ | Group _ g _
  | Component _ g _ _ _ _ _ _ | ComponentInstance _ g _ _ _ _
  | ImageObject _ g _ _ => width g
  end.

Definition get_height (o : DesignObject) : Qc :=
  match o with
  | Generic _ _ g | Rectangle _ g _ | Ellipse _ g | Line _ g _ _ _ _
  | TextObject _ g _ | Frame _ g _ _ _ _ | Path _ g _ _ _ | Group _ g _
  | Component _ g _ _ _ _ _ _ | ComponentInstance _ g _ _ _ _
  | ImageObject _ g _ _ => height g
  end.

(** [obj.x = val] and the like. *)
Definition set_x (val : Qc) (o : DesignObject) : DesignObject :=
  with_geom (geom_set_x val) o.

Definition set_y (val : Qc) (o : DesignObject) : DesignObject :=
  with_geom (geom_set_y val) o.

Definition set_width (val : Qc) (o : DesignObject) : DesignObject :=
  with_geom (geom_set_width val) o.

Definition set_height (val : Qc) (o : DesignObject) : DesignObject :=
  with_geom (geom_set_height val) o.

(** [get bounds()] of [Line]: the box of the two endpoints, with an extent
    of [0] reported as [1]. *)
Definition Line_bounds (x1 y1 x2 y2 : Qc) : Rect :=
  let minX := min x1 x2 in
  let minY := min y1 y2 in
  let maxX := max x1 x2 in
  let maxY := max y1 y2 in
  {| rx := minX;
     ry := minY;
     rwidth := or_num (maxX - minX) 1;
     rheight := or_num (maxY - minY) 1 |}.

(** [get bounds()]: the base class reads [x], [y], [width], [height]; [Line]
    and [Path] override it. *)
Definition bounds (o : DesignObject) : Rect :=
  match o with
  | Line _ _ x1 y1 x2 y2 => Line_bounds x1 y1 x2 y2
  | Path _ _ _ _ b =>
    {| rx := or_num (_x b) 0;
       ry := or_num (_y b) 0;
       rwidth := or_num (_width b) 1;
       rheight := or_num (_height b) 1 |}
  | _ =>
    {| rx := get_x o; ry := get_y o;
       rwidth := get_width o; rheight := get_height o |}
  end.

(** *** AutoLayout.apply *)

(** An array length as a number. *)
Definition num_of_nat (n : nat) : Qc := Q2Qc (inject_Z (Z.of_nat n)).

(** The first [forEach] of [apply]: the sum of the extents along the primary
    axis and the largest extent across it. *)
Definition measure (isHorizontal : bool) (children : list DesignObject)
  : Qc * Qc :=
  fold_left
    (fun (acc : Qc * Qc) child =>
       let (totalSize, maxCrossSize) := acc in
       if isHorizontal
       then (totalSize + get_width child, max maxCrossSize (get_height child))
       else (totalSize + get_height child, max maxCrossSize (get_width child)))
    children (0, 0).

(** One turn of the second [forEach]: the child as placed, and [currentPos]
    afterwards. *)
Definition place (al : AutoLayout.t) (isHorizontal : bool) (frame : Geom)
    (maxCrossSize : Qc) (currentPos : Qc) (child : DesignObject)
  : DesignObject * Qc :=
  if isHorizontal then
    let child := set_x currentPos child in
    let currentPos := currentPos + (get_width child + AutoLayout.spacing al) in
    let child :=
      match AutoLayout.counterAxisAlign al with
      | AutoLayout.cstart =>
        set_y (y frame + AutoLayout.paddingTop al) child
      | AutoLayout.ccenter =>
        set_y (y frame + AutoLayout.paddingTop al
               + (maxCrossSize - get_height child) / Q2Qc 2) child
      | AutoLayout.cend =>
        set_y (y frame + AutoLayout.paddingTop al + maxCrossSize
               - get_height child) child
      | AutoLayout.stretch =>
        set_height maxCrossSize
          (set_y (y frame + AutoLayout.paddingTop al) child)
      end in
    (child, currentPos)
  else
    let child := set_y currentPos child in
    let currentPos := currentPos + (get_height child + AutoLayout.spacing al) in
    let child :=
      match AutoLayout.counterAxisAlign al with
      | AutoLayout.cstart =>
        set_x (x frame + AutoLayout.paddingLeft al) child
      | AutoLayout.ccenter =>
        set_x (x frame + AutoLayout.paddingLeft al
               + (maxCrossSize - get_width child) / Q2Qc 2) child
      | AutoLayout.cend =>
        set_x (x frame + AutoLayout.paddingLeft al + maxCrossSize
               - get_width child) child
      | AutoLayout.stretch =>
        set_width maxCrossSize
          (set_x (x frame + AutoLayout.paddingLeft al) child)
      end in
    (child, currentPos).

(** The second [forEach]: every child placed in turn. The children of a frame
    are distinct objects, so placing one leaves the others as they are. *)
Fixpoint place_all (al : AutoLayout.t) (isHorizontal : bool) (frame : Geom)
    (maxCrossSize : Qc) (currentPos : Qc) (children : list DesignObject)
  : list DesignObject :=
  match children with
  | [] => []
  | child :: rest =>
    let (child', currentPos') :=
      place al isHorizontal frame maxCrossSize currentPos child in
    child' :: place_all al isHorizontal frame maxCrossSize currentPos' rest
  end.

(** [AutoLayout.apply(frame)]: the frame's position and size and its children
    afterwards. *)
Definition apply_layout (al : AutoLayout.t) (g : Geom)
    (children : list DesignObject) : Geom * list DesignObject :=
  match children with
  | [] => (g, children)
  | _ =>
    let isHorizontal :=
      match AutoLayout.direction al with
      | AutoLayout.horizontal => true
      | AutoLayout.vertical => false
      end in
    let currentPos :=
      if isHorizontal then x g + AutoLayout.paddingLeft al
      else y g + AutoLayout.paddingTop al in
    let (totalSize, maxCrossSize) := measure isHorizontal children in
    let totalSize :=
      totalSize
      + AutoLayout.spacing al * (num_of_nat (List.length children) - 1) in
    let children' :=
      place_all al isHorizontal g maxCrossSize currentPos children in
    let g :=
      match AutoLayout.primaryAxisSizing al with
      | AutoLayout.hug =>
        if isHorizontal
        then geom_set_width
               (totalSize + AutoLayout.paddingLeft al
                + AutoLayout.paddingRight al) g
        else geom_set_height
               (totalSize + AutoLayout.paddingTop al
                + AutoLayout.paddingBottom al) g
      | AutoLayout.fixed => g
      end in
    let g :=
      match AutoLayout.counterAxisSizing al with
      | AutoLayout.hug =>
        if isHorizontal
        then geom_set_height
               (maxCrossSize + AutoLayout.paddingTop al
                + AutoLayout.paddingBottom al) g
        else geom_set_width
               (maxCrossSize + AutoLayout.paddingLeft al
                + AutoLayout.paddingRight al) g
      | AutoLayout.fixed => g
      end in
    (g, children')
  end.

(** [AutoLayout.apply] on a frame object; its parameter is a [Frame]. *)
Definition AutoLayout_apply (al : AutoLayout.t) (frame : DesignObject)
  : DesignObject :=
  match frame with
  | Frame c g children clip r a =>
    let (g', children') := apply_layout al g children in
    Frame c g' children' clip r a
  | _ => frame
  end.

(** *** Containers *)

(** [Frame.applyAutoLayout] *)
Definition Frame_applyAutoLayout (frame : DesignObject) : DesignObject :=
  match frame with
  | Frame _ _ _ _ _ (Some al) => AutoLayout_apply al frame
  | _ => frame
  end.

(** [Frame.addChild] *)
Definition Frame_addChild (frame : DesignObject) (object : DesignObject)
  : DesignObject :=
  match frame with
  | Frame c g children clip r a =>
    let frame := Frame c g (children ++ [object]) clip r a in
    match a with
    | Some _ => Frame_applyAutoLayout frame
    | None => frame
    end
  | _ => frame
  end.

(** [Math.min(m, v)] and [Math.max(m, v)] where [m] starts at [Infinity],
    respectively [-Infinity]: [None] is that start value. *)
Definition min_from (m : option Qc) (v : Qc) : option Qc :=
  match m with
  | None => Some v
  | Some m => Some (min m v)
  end.

Definition max_from (m : option Qc) (v : Qc) : option Qc :=
  match m with
  | None => Some v
  | Some m => Some (max m v)
  end.

(** The box around a non-empty sequence of rectangles, as
    [minX, minY, maxX, maxY]. *)
Definition box_of (rects : list Rect)
  : option Qc * option Qc * option Qc * option Qc :=
  fold_left
    (fun (acc : option Qc * option Qc * option Qc * option Qc) b =>
       let '(minX, minY, maxX, maxY) := acc in
       (min_from minX (rx b), min_from minY (ry b),
        max_from maxX (rx b + rwidth b), max_from maxY (ry b + rheight b)))
    rects (None, None, None, None).

(** [Group.updateBounds] *)
Definition Group_updateBounds (group : DesignObject) : DesignObject :=
  match group with
  | Group c g children =>
    match box_of (List.map bounds children) with
    | (Some minX, Some minY, Some maxX, Some maxY) =>
      Group c (mkGeom minX minY (maxX - minX) (maxY - minY)) children
    | _ => group
    end
  | _ => group
  end.

(** [Group.addChild] *)
Definition Group_addChild (group : DesignObject) (object : DesignObject)
  : DesignObject :=
  match group with
  | Group c g children => Group_updateBounds (Group c g (children ++ [object]))
  | _ => group
  end.

(** [Component.addChild] *)
Definition Component_addChild (component : DesignObject) (object : DesignObject)
  : DesignObject :=
  match component with
  | Component c g children clip r ci d i =>
    Component c g (children ++ [object]) clip r ci d i
  | _ => component
  end.

(** [Path.updateBounds], on the private bounds. *)
Definition Path_updateBounds (points : list PathPoint) (b : PathBounds)
  : PathBounds :=
  let box :=
    fold_left
      (fun (acc : option Qc * option Qc * option Qc * option Qc) p =>
         let '(minX, minY, maxX, maxY) := acc in
         (min_from minX (ppx p), min_from minY (ppy p),
          max_from maxX (ppx p), max_from maxY (ppy p)))
      points (None, None, None, None) in
  match box with
  | (Some minX, Some minY, Some maxX, Some maxY) =>
    {| _x := minX;
       _y := minY;
       _width := or_num (maxX - minX) 1;
       _height := or_num (maxY - minY) 1 |}
  | _ => b
  end.

(** *** The world outside the objects *)

(** What the constructors read and change besides their own object: the
    identifiers that [Utils.generateId] hands out (random characters and a
    time stamp in the source, here the [used]-th answer of an oracle), and the
    master components that live on the heap. *)
Record World : Type := mkWorld {
  ids : nat -> string;
  used : nat;
  heap : ref -> option DesignObject
}.

(** A computation that may draw identifiers. *)
Definition M (A : Type) : Type := World -> A * World.

Definition ret {A : Type} (a : A) : M A := fun w => (a, w).

Definition bind {A B : Type} (m : M A) (k : A -> M B) : M B :=
  fun w => let (a, w') := m w in k a w'.

(** [Utils.generateId]: ['obj_'] followed by fresh characters. *)
Definition generateId : M string :=
  fun w =>
    (String.append "obj_" (ids w (used w)),
     {| ids := ids w; used := S (used w); heap := heap w |}).

(** *** Constructors *)

(** [s.charAt(0).toUpperCase() + s.slice(1)], on ASCII letters. *)
Definition toUpperCase (a : ascii) : ascii :=
  let n := nat_of_ascii a in
  if ((97 <=? n) && (n <=? 122))%nat then ascii_of_nat (n - 32) else a.

Definition capitalize (s : string) : string :=
  match s with
  | EmptyString => EmptyString
  | String a rest => String (toUpperCase a) rest
  end.

(** Truthiness of an optional string. *)
Definition truthy_ostr (a : option string) : option string :=
  match a with
  | Some EmptyString => None
  | Some s => Some s
  | None => None
  end.

(** The loop over [options.shadows]: every shadow that [Shadow.deserialize]
    returns is pushed. *)
Definition read_shadows (l : list Shadow.Data) : list Shadow.t :=
  fold_left
    (fun acc s =>
       match Shadow.deserialize (Value s) with
       | Some shadow => acc ++ [shadow]
       | None => acc
       end)
    l [].

(** The constructor of the base class, [constructor(type, options)]: the
    common properties and the stored position and size. *)
Definition DesignObject_new (type : string) (options : BaseData)
  : M (Common * Geom) :=
  bind (match truthy_ostr (d_id options) with
        | Some i => ret i
        | None => generateId
        end)
    (fun the_id =>
       ret
         ({| id := the_id;
             name := str_or (d_name options) (capitalize type);
             rotation := num_or (d_rotation options) 0;
             fill := match d_fill options with
                     | Undefined => Some "#5B5BFF"
                     | Null => None
                     | Value f => Some f
                     end;
             fillOpacity := defined_or (d_fillOpacity options) 1;
             stroke := truthy_str (d_stroke options);
             strokeWidth := num_or (d_strokeWidth options) 0;
             strokeOpacity := defined_or (d_strokeOpacity options) 1;
             visible := defined_or (d_visible options) true;
             locked := bool_or (d_locked options) false;
             opacity := defined_or (d_opacity options) 1;
             blendMode := str_or (d_blendMode options) "normal";
             gradient := match truthy_obj (d_gradient options) with
                         | Some gd => Gradient.deserialize (Value gd)
                         | None => None
                         end;
             shadows := match d_shadows options with
                        | Some l => read_shadows l
                        | None => []
                        end;
             blur := num_or (d_blur options) 0;
             constraints := match truthy_obj (d_constraints options) with
                            | Some cd => Constraints.deserialize (Value cd)
                            | None => None
                            end |},
          {| x := num_or (d_x options) 0;
             y := num_or (d_y options) 0;
             width := num_or (d_width options) (Q2Qc 100);
             height := num_or (d_height options) (Q2Qc 100) |})).

(** [ComponentInstance.syncFromMaster]: [overrides.p] is truthy when the
    property [p] is there and [true]. *)
Fixpoint overridden (overrides : list (string * bool)) (p : string) : bool :=
  match overrides with
  | [] => false
  | (k, v) :: rest => if String.eqb k p then v else overridden rest p
  end.

Definition master_cornerRadius (m : DesignObject) : Qc :=
  match m with
  | Component _ _ _ _ r _ _ _ => r
  | _ => 0
  end.

(** The instance reads its master through the reference it holds. A
    reference that a live instance holds always resolves; for an identity
    that the heap does not know, the instance is left as it is. *)
Definition syncFromMaster (heap : ref -> option DesignObject)
    (instance : DesignObject) : DesignObject :=
  match instance with
  | ComponentInstance c g ci (Some r) ov cr =>
    match heap r with
    | Some master =>
      let g := if overridden ov "width" then g
               else geom_set_width (get_width master) g in
      let g := if overridden ov "height" then g
               else geom_set_height (get_height master) g in
      let cr := if overridden ov "cornerRadius" then cr
                else master_cornerRadius master in
      let c := if overridden ov "fill" then c
               else set_fill (fill (common_of master)) c in
      let c := if overridden ov "stroke" then c
               else set_stroke (stroke (common_of master)) c in
      let c := if overridden ov "strokeWidth" then c
               else set_strokeWidth (strokeWidth (common_of master)) c in
      ComponentInstance c g ci (Some r) ov cr
    | None => instance
    end
  | _ => instance
  end.

(** The classes, for [new]. *)
Inductive Class : Type :=
  | CDesignObject | CRectangle | CEllipse | CLine | CTextObject | CFrame
  | CPath | CGroup | CImageObject | CComponent | CComponentInstance.

(** The [switch (data.type)] of [DesignObject.deserialize]. *)
Definition class_of_type (type : string) : Class :=
  if String.eqb type "rectangle" then CRectangle
  else if String.eqb type "ellipse" then CEllipse
  else if String.eqb type "line" then CLine
  else if String.eqb type "text" then CTextObject
  else if String.eqb type "frame" then CFrame
  else if String.eqb type "path" then CPath
  else if String.eqb type "group" then CGroup
  else if String.eqb type "image" then CImageObject
  else if String.eqb type "component" then CComponent
  else if String.eqb type "componentInstance" then CComponentInstance
  else CDesignObject.

(** [this.constructor] *)
Definition class_of (o : DesignObject) : Class :=
  match o with
  | Generic _ _ _ => CDesignObject
  | Rectangle _ _ _ => CRectangle
  | Ellipse _ _ => CEllipse
  | Line _ _ _ _ _ _ => CLine
  | TextObject _ _ _ => CTextObject
  | Frame _ _ _ _ _ _ => CFrame
  | Path _ _ _ _ _ => CPath
  | Group _ _ _ => CGroup
  | Component _ _ _ _ _ _ _ _ => CComponent
  | ComponentInstance _ _ _ _ _ _ => CComponentInstance
  | ImageObject _ _ _ _ => CImageObject
  end.

(** [new Rectangle(options)] *)
Definition Rectangle_new (b : BaseData) (e : ExtData) : M DesignObject :=
  bind (DesignObject_new "rectangle" b)
    (fun cg => ret (Rectangle (fst cg) (snd cg) (num_or (d_cornerRadius e) 0))).

(** [new Ellipse(options)] *)
Definition Ellipse_new (b : BaseData) (e : ExtData) : M DesignObject :=
  bind (DesignObject_new "ellipse" b)
    (fun cg => ret (Ellipse (fst cg) (snd cg))).

(** [new Line(options)]. The base constructor stores [x], [y], [width] and
    [height]; the endpoints are read from the options on their own. *)
Definition Line_new (b : BaseData) (e : ExtData) : M DesignObject :=
  bind (DesignObject_new "line" b)
    (fun cg =>
       let c := fst cg in
       let g := snd cg in
       let x1 := nullish_or (d_x1 e) (nullish_or (d_x b) 0) in
       let y1 := nullish_or (d_y1 e) (nullish_or (d_y b) 0) in
       let x2 := nullish_or (d_x2 e)
                   (nullish_or (d_x b) 0 + nullish_or (d_width b) (Q2Qc 100)) in
       let y2 := nullish_or (d_y2 e)
                   (nullish_or (d_y b) 0 + nullish_or (d_height b) (Q2Qc 100)) in
       let c := set_fill None c in
       let c := set_stroke
                  (Some (match truthy_str (d_stroke b) with
                         | Some s => s
                         | None => "#000000"
                         end)) c in
       let c := set_strokeWidth (num_or (d_strokeWidth b) (Q2Qc 2)) c in
       ret (Line c g x1 y1 x2 y2)).

(** [new TextObject(options)] *)
Definition TextObject_new (b : BaseData) (e : ExtData) : M DesignObject :=
  bind (DesignObject_new "text" b)
    (fun cg =>
       let t :=
         {| text := str_or (d_text e) "Text";
            fontFamily := str_or (d_fontFamily e) "Inter";
            fontSize := num_or (d_fontSize e) (Q2Qc 16);
            fontWeight := str_or (d_fontWeight e) "400";
            lineHeight := num_or (d_lineHeight e) (Q2Qc (3 # 2));
            textAlign := str_or (d_textAlign e) "left" |} in
       let g := geom_set_width (num_or (d_width b) (Q2Qc 100)) (snd cg) in
       let g := geom_set_height (num_or (d_height b) (Q2Qc 24)) g in
       ret (TextObject (fst cg) g t)).

(** [new Frame(options)] up to the loop over [options.children]. *)
Definition Frame_init (b : BaseData) (e : ExtData) : M DesignObject :=
  bind (DesignObject_new "frame" b)
    (fun cg =>
       let c :=
         set_fill (Some (match truthy_str (d_fill b) with
                         | Some f => f
                         | None => "#FFFFFF"
                         end)) (fst cg) in
       ret (Frame c (snd cg) []
              (defined_or (d_clipContent e) true)
              (num_or (d_cornerRadius e) 0)
              (match truthy_obj (d_autoLayout e) with
               | Some ad => AutoLayout.deserialize (Value ad)
               | None => None
               end))).

(** [new Path(options)] *)
Definition Path_new (b : BaseData) (e : ExtData) : M DesignObject :=
  bind (DesignObject_new "path" b)
    (fun cg =>
       let points := defined_or (d_points e) [] in
       ret (Path (fst cg) (snd cg) points (bool_or (d_closed e) false)
              (Path_updateBounds points (mkPathBounds 0 0 1 1)))).

(** [new Group(options)] up to the loop over [options.children]. *)
Definition Group_init (b : BaseData) (e : ExtData) : M DesignObject :=
  bind (DesignObject_new "group" b)
    (fun cg => ret (Group (set_fill None (fst cg)) (snd cg) [])).

(** [new Component(options)] up to the loop over [options.children]. *)
Definition Component_init (b : BaseData) (e : ExtData) : M DesignObject :=
  bind (DesignObject_new "component" b)
    (fun cg =>
       let c :=
         set_fill (Some (match truthy_str (d_fill b) with
                         | Some f => f
                         | None => "#FFFFFF"
                         end)) (fst cg) in
       bind (match truthy_ostr (d_componentId e) with
             | Some i => ret i
             | None => generateId
             end)
         (fun componentId =>
            ret (Component c (snd cg) []
                   (defined_or (d_clipContent e) true)
                   (num_or (d_cornerRadius e) 0)
                   componentId
                   (str_or (d_description e) "")
                   []))).

(** [new ComponentInstance(options)] *)
Definition ComponentInstance_new (b : BaseData) (e : ExtData) : M DesignObject :=
  bind (DesignObject_new "componentInstance" b)
    (fun cg =>
       let instance :=
         ComponentInstance (fst cg) (snd cg)
           (str_or (d_componentId e) "")
           (d_masterComponent e)
           (defined_or (d_overrides e) [])
           (num_or (d_cornerRadius e) 0) in
       match d_masterComponent e with
       | Some _ => fun w => (syncFromMaster (heap w) instance, w)
       | None => ret instance
       end).

(** [new ImageObject(options)], with [loadImage]: the element is created
    when [imageData || src] is truthy. *)
Definition ImageObject_new (b : BaseData) (e : ExtData) : M DesignObject :=
  bind (DesignObject_new "image" b)
    (fun cg =>
       let src := str_or (d_src e) "" in
       let imageData := truthy_str (d_imageData e) in
       let image :=
         match imageData with
         | Some i => Some i
         | None => truthy_ostr (Some src)
         end in
       ret (ImageObject (fst cg) (snd cg)
              {| src := src;
                 imageData := imageData;
                 fit := defined_or (d_fit e) cover;
                 _image := image |}
              (num_or (d_cornerRadius e) 0))).

(** [options.children.forEach(childData => { const child =
    DesignObject.deserialize(childData); this.addChild(child); })] *)
Fixpoint add_children (deserialize : Data -> M DesignObject)
    (addChild : DesignObject -> DesignObject -> DesignObject)
    (children : list Data) (this : DesignObject) : M DesignObject :=
  match children with
  | [] => ret this
  | childData :: rest =>
    bind (deserialize childData)
      (fun child =>
         add_children deserialize addChild rest (addChild this child))
  end.

(** [new C(options)] for a class [C]; for the base class the type is the
    one of the data, as in the [default] branch of [deserialize]. *)
Fixpoint new (cls : Class) (options : Data) {struct options} : M DesignObject :=
  match options with
  | mkData b e children =>
    let deserialize := fun data => new (class_of_type (d_type (base data))) data in
    match cls with
    | CDesignObject =>
      bind (DesignObject_new (d_type b) b)
        (fun cg => ret (Generic (d_type b) (fst cg) (snd cg)))
    | CRectangle => Rectangle_new b e
    | CEllipse => Ellipse_new b e
    | CLine => Line_new b e
    | CTextObject => TextObject_new b e
    | CFrame =>
      bind (Frame_init b e)
        (fun this =>
           match children with
           | Some l => add_children deserialize Frame_addChild l this
           | None => ret this
           end)
    | CPath => Path_new b e
    | CGroup =>
      bind (Group_init b e)
        (fun this =>
           match children with
           | Some l => add_children deserialize Group_addChild l this
           | None => ret this
           end)
    | CImageObject => ImageObject_new b e
    | CComponent =>
      bind (Component_init b e)
        (fun this =>
           match children with
           | Some l => add_children deserialize Component_addChild l this
           | None => ret this
           end)
    | CComponentInstance => ComponentInstance_new b e
    end
  end.

(** [DesignObject.deserialize(data)] *)
Definition deserialize (data : Data) : M DesignObject :=
  new (class_of_type (d_type (base data))) data.

(** *** serialize and clone *)

(** [DesignObject.serialize] of the base class. *)
Definition base_serialize (o : DesignObject) : BaseData :=
  let c := common_of o in
  {| d_id := Some (id c);
     d_type := type_of o;
     d_name := Some (name c);
     d_x := Some (get_x o);
     d_y := Some (get_y o);
     d_width := Some (get_width o);
     d_height := Some (get_height o);
     d_rotation := Some (rotation c);
     d_fill := of_option (fill c);
     d_fillOpacity := Some (fillOpacity c);
     d_stroke := of_option (stroke c);
     d_strokeWidth := Some (strokeWidth c);
     d_strokeOpacity := Some (strokeOpacity c);
     d_visible := Some (visible c);
     d_locked := Some (locked c);
     d_opacity := Some (opacity c);
     d_blendMode := Some (blendMode c);
     d_gradient := of_option (option_map Gradient.serialize (gradient c));
     d_shadows := Some (List.map Shadow.serialize (shadows c));
     d_blur := Some (blur c);
     d_constraints :=
       of_option (option_map Constraints.serialize (constraints c)) |}.

(** The properties that each class adds to [...super.serialize()]. *)
Definition ext_serialize (o : DesignObject) : ExtData :=
  match o with
  | Generic _ _ _ | Ellipse _ _ | Group _ _ _ => no_ext
  | Rectangle _ _ r =>
    {| d_cornerRadius := Some r; d_x1 := None; d_y1 := None; d_x2 := None;
       d_y2 := None; d_text := None; d_fontFamily := None; d_fontSize := None;
       d_fontWeight := None; d_lineHeight := None; d_textAlign := None;
       d_clipContent := None; d_autoLayout := Undefined; d_points := None;
       d_closed := None; d_componentId := None; d_description := None;
       d_overrides := None; d_masterComponent := None; d_src := None;
       d_imageData := Undefined; d_fit := None |}
  | Line _ _ x1 y1 x2 y2 =>
    {| d_cornerRadius := None; d_x1 := Some x1; d_y1 := Some y1;
       d_x2 := Some x2; d_y2 := Some y2; d_text := None; d_fontFamily := None;
       d_fontSize := None; d_fontWeight := None; d_lineHeight := None;
       d_textAlign := None; d_clipContent := None; d_autoLayout := Undefined;
       d_points := None; d_closed := None; d_componentId := None;
       d_description := None; d_overrides := None; d_masterComponent := None;
       d_src := None; d_imageData := Undefined; d_fit := None |}
  | TextObject _ _ t =>
    {| d_cornerRadius := None; d_x1 := None; d_y1 := None; d_x2 := None;
       d_y2 := None; d_text := Some (text t);
       d_fontFamily := Some (fontFamily t); d_fontSize := Some (fontSize t);
       d_fontWeight := Some (fontWeight t);
       d_lineHeight := Some (lineHeight t); d_textAlign := Some (textAlign t);
       d_clipContent := None; d_autoLayout := Undefined; d_points := None;
       d_closed := None; d_componentId := None; d_description := None;
       d_overrides := None; d_masterComponent := None; d_src := None;
       d_imageData := Undefined; d_fit := None |}
  | Frame _ _ _ clip r a =>
    {| d_cornerRadius := Some r; d_x1 := None; d_y1 := None; d_x2 := None;
       d_y2 := None; d_text := None; d_fontFamily := None; d_fontSize := None;
       d_fontWeight := None; d_lineHeight := None; d_textAlign := None;
       d_clipContent := Some clip;
       d_autoLayout := of_option (option_map AutoLayout.serialize a);
       d_points := None; d_closed := None; d_componentId := None;
       d_description := None; d_overrides := None; d_masterComponent := None;
       d_src := None; d_imageData := Undefined; d_fit := None |}
  | Path _ _ points closed _ =>
    {| d_cornerRadius := None; d_x1 := None; d_y1 := None; d_x2 := None;
       d_y2 := None; d_text := None; d_fontFamily := None; d_fontSize := None;
       d_fontWeight := None; d_lineHeight := None; d_textAlign := None;
       d_clipContent := None; d_autoLayout := Undefined;
       d_points := Some points; d_closed := Some closed;
       d_componentId := None; d_description := None; d_overrides := None;
       d_masterComponent := None; d_src := None; d_imageData := Undefined;
       d_fit := None |}
  | Component _ _ _ clip r componentId description _ =>
    {| d_cornerRadius := Some r; d_x1 := None; d_y1 := None; d_x2 := None;
       d_y2 := None; d_text := None; d_fontFamily := None; d_fontSize := None;
       d_fontWeight := None; d_lineHeight := None; d_textAlign := None;
       d_clipContent := Some clip; d_autoLayout := Undefined;
       d_points := None; d_closed := None;
       d_componentId := Some componentId;
       d_description := Some description; d_overrides := None;
       d_masterComponent := None; d_src := None; d_imageData := Undefined;
       d_fit := None |}
  | ComponentInstance _ _ componentId _ overrides r =>
    {| d_cornerRadius := Some r; d_x1 := None; d_y1 := None; d_x2 := None;
       d_y2 := None; d_text := None; d_fontFamily := None; d_fontSize := None;
       d_fontWeight := None; d_lineHeight := None; d_textAlign := None;
       d_clipContent := None; d_autoLayout := Undefined; d_points := None;
       d_closed := None; d_componentId := Some componentId;
       d_description := None; d_overrides := Some overrides;
       d_masterComponent := None; d_src := None; d_imageData := Undefined;
       d_fit := None |}
  | ImageObject _ _ i r =>
    {| d_cornerRadius := Some r; d_x1 := None; d_y1 := None; d_x2 := None;
       d_y2 := None; d_text := None; d_fontFamily := None; d_fontSize := None;
       d_fontWeight := None; d_lineHeight := None; d_textAlign := None;
       d_clipContent := None; d_autoLayout := Undefined; d_points := None;
       d_closed := None; d_componentId := None; d_description := None;
       d_overrides := None; d_masterComponent := None; d_src := Some (src i);
       d_imageData := of_option (imageData i); d_fit := Some (fit i) |}
  end.

(** [obj.serialize()], dispatched on the class of [obj]. *)
Fixpoint serialize (o : DesignObject) : Data :=
  {| base := base_serialize o;
     ext := ext_serialize o;
     d_children :=
       match o with
       | Frame _ _ children _ _ _ | Group _ _ children
       | Component _ _ children _ _ _ _ _ =>
         Some (List.map serialize children)
       | _ => None
       end |}.

(** [obj.clone()]. [None] is a [TypeError]: for an instance of the base class
    [new this.constructor(this.serialize())] passes the data as [type] and no
    options, so an identifier is drawn and [type.charAt] then fails. *)
Definition clone (o : DesignObject) : M (option DesignObject) :=
  match o with
  | Generic _ _ _ => bind generateId (fun _ => ret None)
  | _ =>
    bind (new (class_of o) (serialize o))
      (fun cloned =>
         bind generateId
           (fun fresh =>
              ret (Some (with_common
                           (fun c => set_name
                                       (String.append (name (common_of o)) " Copy")
                                       (set_id fresh c))
                           cloned))))
  end.

(** [instance.masterComponent]; [None] is [null]. *)
Definition masterComponent_of (o : DesignObject) : option ref :=
  match o with
  | ComponentInstance _ _ _ m _ _ => m
  | _ => None
  end.

(** [options.id || Utils.generateId()], with the world afterwards. *)
Definition id_drawn (options : BaseData) : M string :=
  match truthy_ostr (d_id options) with
  | Some i => ret i
  | None => generateId
  end.

(** The children that an object owns. *)
Definition children_of (o : DesignObject) : list DesignObject :=
  match o with
  | Frame _ _ children _ _ _ | Group _ _ children
  | Component _ _ children _ _ _ _ _ => children
  | _ => []
  end.

(** *** Objects that a round trip reproduces *)

(** The object without its links on the heap, all the way down: an instance
    without its master, a component without its instances. *)
Fixpoint detached (o : DesignObject) : DesignObject :=
  match o with
  | Frame c g children clip r a => Frame c g (List.map detached children) clip r a
  | Group c g children => Group c g (List.map detached children)
  | Component c g children clip r ci d _ =>
    Component c g (List.map detached children) clip r ci d []
  | ComponentInstance c g ci _ ov r => ComponentInstance c g ci None ov r
  | _ => o
  end.

Definition nonzero (n : Qc) : Prop := eqb n 0 = false.
Definition nonempty (s : string) : Prop := s <> "".

(** A gradient whose numbers with a default other than [0] are not [0]. *)
Definition Gradient_plain (g : Gradient.t) : Prop :=
  nonzero (Gradient.centerX g) /\ nonzero (Gradient.centerY g)
  /\ nonzero (Gradient.radiusX g) /\ nonzero (Gradient.radiusY g).

Definition Shadow_plain (s : Shadow.t) : Prop :=
  nonempty (Shadow.color s) /\ nonzero (Shadow.offsetY s)
  /\ nonzero (Shadow.blur s).

(** The common properties hold no value that the base constructor replaces
    by a default; [stroke] is looked at per class. *)
Definition Common_plain (c : Common) : Prop :=
  nonempty (id c) /\ nonempty (name c) /\ nonempty (blendMode c)
  /\ match gradient c with
     | Some g => Gradient_plain g
     | None => True
     end
  /\ Forall Shadow_plain (shadows c).

(** [stroke] is [null] or a string that is not empty. *)
Definition stroke_plain (c : Common) : Prop := stroke c <> Some "".

(** [fill] is a string that is not empty: what [Frame] and [Component]
    keep. *)
Definition fill_set (c : Common) : Prop :=
  match fill c with
  | Some f => nonempty f
  | None => False
  end.

(** The stored position and size as the base constructor reads them back:
    a width or height of [0] becomes [100]. *)
Definition reread (g : Geom) : Geom :=
  mkGeom (x g) (y g) (or_num (width g) (Q2Qc 100)) (or_num (height g) (Q2Qc 100)).

Definition AutoLayout_plain (a : option AutoLayout.t) : Prop :=
  match a with
  | Some al => nonzero (AutoLayout.spacing al)
  | None => True
  end.

(** An object in the form that the constructors leave it in, so that none of
    its properties is replaced when it is built again from its serialized
    form. For a container the last condition says that adding its children
    one by one to the empty container, as the constructor does, gives the
    container as it is. *)
Fixpoint plain (o : DesignObject) : Prop :=
  Common_plain (common_of o)
  /\ match o with
     | Generic type c g =>
       class_of_type type = CDesignObject /\ stroke_plain c /\ reread g = g
     | Rectangle c g _ | Ellipse c g | ComponentInstance c g _ _ _ _ =>
       stroke_plain c /\ reread g = g
     | Line c g _ _ _ _ =>
       reread g = g /\ fill c = None /\ nonzero (strokeWidth c)
       /\ match stroke c with
          | Some s => nonempty s
          | None => False
          end
     | TextObject c g t =>
       stroke_plain c /\ nonzero (width g) /\ nonzero (height g)
       /\ nonempty (text t) /\ nonempty (fontFamily t) /\ nonzero (fontSize t)
       /\ nonempty (fontWeight t) /\ nonzero (lineHeight t)
       /\ nonempty (textAlign t)
     | Frame c g children clip r a =>
       stroke_plain c /\ fill_set c /\ AutoLayout_plain a
       /\ (fix all (l : list DesignObject) : Prop :=
             match l with
             | [] => True
             | child :: rest => plain child /\ all rest
             end) children
       /\ fold_left Frame_addChild (List.map detached children)
            (Frame c (reread g) [] clip r a)
          = Frame c g (List.map detached children) clip r a
     | Path c g points _ b =>
       stroke_plain c /\ reread g = g
       /\ b = Path_updateBounds points (mkPathBounds 0 0 1 1)
     | Group c g children =>
       stroke_plain c /\ fill c = None
       /\ (fix all (l : list DesignObject) : Prop :=
             match l with
             | [] => True
             | child :: rest => plain child /\ all rest
             end) children
       /\ fold_left Group_addChild (List.map detached children)
            (Group c (reread g) [])
          = Group c g (List.map detached children)
     | Component c g children _ _ componentId _ _ =>
       stroke_plain c /\ fill_set c /\ nonempty componentId
       /\ reread g = g
       /\ (fix all (l : list DesignObject) : Prop :=
             match l with
             | [] => True
             | child :: rest => plain child /\ all rest
             end) children
     | ImageObject c g i _ =>
       stroke_plain c /\ reread g = g
       /\ imageData i <> Some ""
       /\ _image i = match imageData i with
                     | Some d => Some d
                     | None => truthy_ostr (Some (src i))
                     end
     end.

End Objects.

(** ** The rotation drag of the select tool (tools.ts) *)

Module Tools.
Import Js Objects.

Section Host.

(** [Math.atan2] and [Math.PI], as the host provides them. *)
Variable Math_atan2 : Qc -> Qc -> Qc.
Variable Math_PI : Qc.

(** [Utils.getAngle] *)
Definition getAngle (x1 y1 x2 y2 : Qc) : Qc := Math_atan2 (y2 - y1) (x2 - x1).

(** [Utils.radToDeg] *)
Definition radToDeg (radians : Qc) : Qc := radians * Q2Qc 180 / Math_PI.

(** [Math.round]: the nearest integer, a half rounding up. *)
Definition Math_round (v : Qc) : Qc :=
  Q2Qc (inject_Z (Qfloor (v + Q2Qc (1 # 2)))).

(** The part of the state of [SelectTool] that a rotation uses. *)
Record SelectTool : Type := mkSelectTool {
  isRotating : bool;
  rotateObject : option DesignObject;
  rotateCenter : option Point
}.

(** The first branch of [SelectTool.onMouseMove]: while a rotation is going
    on, the object under rotation with its new [rotation]; [None] when the
    branch is not taken. [pos] is the mouse position on the canvas. *)
Definition onMouseMove_rotate (tool : SelectTool) (pos : Point)
    (shiftKey : bool) : option DesignObject :=
  match isRotating tool, rotateObject tool, rotateCenter tool with
  | true, Some object, Some center =>
    let angle := getAngle (px center) (py center) (px pos) (py pos) in
    let rotation := radToDeg angle + Q2Qc 90 in
    let rotation :=
      if shiftKey then Math_round (rotation / Q2Qc 15) * Q2Qc 15
      else rotation in
    Some (with_common (set_rotation rotation) object)
  | _, _, _ => None
  end.

End Host.

End Tools.

(** ** Boolean operations (boolean.js) *)

Module BooleanOperations.
Import Js Objects.

(** [Array.prototype.sort(compareFn)]: [a] comes before [b] when
    [compareFn(a, b) < 0]; the sort is stable. *)
Fixpoint insert_sorted {A : Type} (compareFn : A -> A -> Qc) (a : A)
    (sorted : list A) : list A :=
  match sorted with
  | [] => [a]
  | b :: rest =>
    if ltb (compareFn a b) 0 then a :: b :: rest
    else b :: insert_sorted compareFn a rest
  end.

Definition sort {A : Type} (compareFn : A -> A -> Qc) (l : list A) : list A :=
  fold_left (fun sorted a => insert_sorted compareFn a sorted) l [].

(** [points[i] = v] *)
Fixpoint set_nth {A : Type} (i : nat) (v : A) (l : list A) : list A :=
  match l, i with
  | [], _ => []
  | _ :: rest, O => v :: rest
  | a :: rest, S i' => a :: set_nth i' v rest
  end.

Definition origin : Point := mkPoint 0 0.

(** [points[i]], for an index inside the array. *)
Definition at_index (points : list Point) (i : nat) : Point :=
  nth i points origin.

(** [cross] of the turn test: positive for a left turn from
    [second -> top] to [second -> point]. *)
Definition cross (second top point : Point) : Qc :=
  (px top - px second) * (py point - py second)
  - (py top - py second) * (px point - px second).

(** The [while] loop of the scan. The hull under construction is kept with
    its last point first. *)
Fixpoint pop_while (point : Point) (hull : list Point) : list Point :=
  match hull with
  | top :: ((second :: _) as below) =>
    if leb (cross second top point) 0 then pop_while point below
    else hull
  | _ => hull
  end.

Section Host.

Variable Math_atan2 : Qc -> Qc -> Qc.
Variable Math_cos : Qc -> Qc.
Variable Math_sin : Qc -> Qc.
Variable Math_PI : Qc.

(** The index of the lowest point, the leftmost of them on a tie. *)
Definition find_lowest (points : list Point) : nat :=
  fold_left
    (fun lowest i =>
       if ltb (py (at_index points i)) (py (at_index points lowest))
          || (eqb (py (at_index points i)) (py (at_index points lowest))
              && ltb (px (at_index points i)) (px (at_index points lowest)))
       then i else lowest)
    (seq 1 (List.length points - 1)) 0%nat.

(** The comparator of the sort by polar angle about the pivot. *)
Definition by_angle (pivot a b : Point) : Qc :=
  let angleA := Math_atan2 (py a - py pivot) (px a - px pivot) in
  let angleB := Math_atan2 (py b - py pivot) (px b - px pivot) in
  if negb (eqb angleA angleB) then angleA - angleB
  else
    let distA := (px a - px pivot) * (px a - px pivot)
                 + (py a - py pivot) * (py a - py pivot) in
    let distB := (px b - px pivot) * (px b - px pivot)
                 + (py b - py pivot) * (py b - py pivot) in
    distA - distB.

(** [convexHull(points)], for its result. *)
Definition convexHull (points : list Point) : list Point :=
  if (List.length points <? 3)%nat then points
  else
    let lowest := find_lowest points in
    let points :=
      set_nth lowest (at_index points 0)
        (set_nth 0 (at_index points lowest) points) in
    let pivot := at_index points 0 in
    let sorted := sort (by_angle pivot) (tl points) in
    let hull :=
      fold_left (fun hull point => point :: pop_while point hull)
        sorted [pivot] in
    rev hull.

(** [ellipseToPolygon] *)
Definition ellipseToPolygon (x y width height : Qc) (segments : nat)
  : list Point :=
  let cx := x + width / Q2Qc 2 in
  let cy := y + height / Q2Qc 2 in
  let rx := width / Q2Qc 2 in
  let ry := height / Q2Qc 2 in
  List.map
    (fun i =>
       let angle := num_of_nat i / num_of_nat segments * Math_PI * Q2Qc 2 in
       mkPoint (cx + Math_cos angle * rx) (cy + Math_sin angle * ry))
    (seq 0 segments).

(** One corner of [roundedRectToPolygon]: the points at the angles
    [start + (i / segmentsPerCorner) * (Math.PI / 2)], [i] from [0] to
    [segmentsPerCorner], around the centre [(cx, cy)]. *)
Definition corner (start cx cy r : Qc) (segmentsPerCorner : nat) : list Point :=
  List.map
    (fun i =>
       let angle :=
         start + num_of_nat i / num_of_nat segmentsPerCorner
                 * (Math_PI / Q2Qc 2) in
       mkPoint (cx + Math_cos angle * r) (cy + Math_sin angle * r))
    (seq 0 (S segmentsPerCorner)).

(** [roundedRectToPolygon] *)
Definition roundedRectToPolygon (x y width height radius : Qc)
    (segmentsPerCorner : nat) : list Point :=
  let r := min (min radius (width / Q2Qc 2)) (height / Q2Qc 2) in
  corner (- Math_PI / Q2Qc 2) (x + width - r) (y + r) r segmentsPerCorner
  ++ corner 0 (x + width - r) (y + height - r) r segmentsPerCorner
  ++ corner (Math_PI / Q2Qc 2) (x + r) (y + height - r) r segmentsPerCorner
  ++ corner Math_PI (x + r) (y + r) r segmentsPerCorner.

(** [bezierPoint] *)
Definition bezierPoint (p0 p1 p2 p3 : Point) (t : Qc) : Point :=
  let mt := 1 - t in
  let mt2 := mt * mt in
  let mt3 := mt2 * mt in
  let t2 := t * t in
  let t3 := t2 * t in
  mkPoint
    (mt3 * px p0 + Q2Qc 3 * mt2 * t * px p1 + Q2Qc 3 * mt * t2 * px p2
     + t3 * px p3)
    (mt3 * py p0 + Q2Qc 3 * mt2 * t * py p1 + Q2Qc 3 * mt * t2 * py p2
     + t3 * py p3).

Definition is_some {A : Type} (a : option A) : bool :=
  match a with
  | Some _ => true
  | None => false
  end.

(** [pathToPolygon(path, segmentsPerCurve)], on the points of the path and
    its [closed] flag. *)
Definition pathToPolygon (pathPoints : list PathPoint) (closed : bool)
    (segmentsPerCurve : nat) : list Point :=
  let n := List.length pathPoints in
  flat_map
    (fun i =>
       match nth_error pathPoints i, nth_error pathPoints ((i + 1) mod n) with
       | Some current, Some next =>
         let p0 := mkPoint (ppx current) (ppy current) in
         let p3 := mkPoint (ppx next) (ppy next) in
         [p0]
         ++ (if is_some (handleOut current) || is_some (handleIn next) then
               let p1 := defined_or (handleOut current) p0 in
               let p2 := defined_or (handleIn next) p3 in
               List.map
                 (fun t =>
                    bezierPoint p0 p1 p2 p3
                      (num_of_nat t / num_of_nat segmentsPerCurve))
                 (seq 1 (segmentsPerCurve - 1))
             else [])
         ++ (if negb closed && Nat.eqb i (n - 1) then [p3] else [])
       | _, _ => []
       end)
    (seq 0 n).

(** [obj.cornerRadius], [undefined] for a class without it. *)
Definition cornerRadius_of (obj : DesignObject) : option Qc :=
  match obj with
  | Rectangle _ _ r | Frame _ _ _ _ r _ | Component _ _ _ _ r _ _ _
  | ComponentInstance _ _ _ _ _ r | ImageObject _ _ _ r => Some r
  | _ => None
  end.

(** [objectToPolygon]. An object of type ['path'] is a [Path]. *)
Definition objectToPolygon (obj : DesignObject) : list Point :=
  if String.eqb (type_of obj) "rectangle" then
    let x := get_x obj in
    let y := get_y obj in
    let width := get_width obj in
    let height := get_height obj in
    match cornerRadius_of obj with
    | Some cornerRadius =>
      if negb (eqb cornerRadius 0) && ltb 0 cornerRadius then
        roundedRectToPolygon x y width height cornerRadius 8
      else
        [ mkPoint x y; mkPoint (x + width) y;
          mkPoint (x + width) (y + height); mkPoint x (y + height) ]
    | None =>
      [ mkPoint x y; mkPoint (x + width) y;
        mkPoint (x + width) (y + height); mkPoint x (y + height) ]
    end
  else if String.eqb (type_of obj) "ellipse" then
    ellipseToPolygon (get_x obj) (get_y obj) (get_width obj) (get_height obj) 32
  else if String.eqb (type_of obj) "path" then
    match obj with
    | Path _ _ points closed _ => pathToPolygon points closed 8
    | _ => []
    end
  else [].

(** [pointInPolygon]: ray casting; [j] runs one vertex behind [i]. *)
Definition pointInPolygon (point : Point) (polygon : list Point) : bool :=
  let n := List.length polygon in
  fst
    (fold_left
       (fun (acc : bool * nat) i =>
          let (inside, j) := acc in
          let xi := px (at_index polygon i) in
          let yi := py (at_index polygon i) in
          let xj := px (at_index polygon j) in
          let yj := py (at_index polygon j) in
          let inside :=
            if xorb (ltb (py point) yi) (ltb (py point) yj)
               && ltb (px point)
                    ((xj - xi) * (py point - yi) / (yj - yi) + xi)
            then negb inside else inside in
          (inside, i))
       (seq 0 n) (false, (n - 1)%nat)).

(** [lineIntersection] *)
Definition lineIntersection (p1 p2 p3 p4 : Point) : option Point :=
  let x1 := px p1 in let y1 := py p1 in
  let x2 := px p2 in let y2 := py p2 in
  let x3 := px p3 in let y3 := py p3 in
  let x4 := px p4 in let y4 := py p4 in
  let denom := (x1 - x2) * (y3 - y4) - (y1 - y2) * (x3 - x4) in
  if ltb (abs denom) (Q2Qc (1 # 10000)) then None
  else
    let t := ((x1 - x3) * (y3 - y4) - (y1 - y3) * (x3 - x4)) / denom in
    let u := - ((x1 - x2) * (y1 - y3) - (y1 - y2) * (x1 - x3)) / denom in
    if leb 0 t && leb t 1 && leb 0 u && leb u 1
    then Some (mkPoint (x1 + t * (x2 - x1)) (y1 + t * (y2 - y1)))
    else None.

(** The options of the [new Path({...})] calls below. *)
Definition path_options (fill stroke : option string) (strokeWidth : Qc)
    (name : string) : BaseData * ExtData :=
  ({| d_id := None; d_type := "path"; d_name := Some name; d_x := None;
      d_y := None; d_width := None; d_height := None; d_rotation := None;
      d_fill := of_option fill; d_fillOpacity := None;
      d_stroke := of_option stroke; d_strokeWidth := Some strokeWidth;
      d_strokeOpacity := None; d_visible := None; d_locked := None;
      d_opacity := None; d_blendMode := None; d_gradient := Undefined;
      d_shadows := None; d_blur := None; d_constraints := Undefined |},
   {| d_cornerRadius := None; d_x1 := None; d_y1 := None; d_x2 := None;
      d_y2 := None; d_text := None; d_fontFamily := None; d_fontSize := None;
      d_fontWeight := None; d_lineHeight := None; d_textAlign := None;
      d_clipContent := None; d_autoLayout := Undefined; d_points := None;
      d_closed := Some true; d_componentId := None; d_description := None;
      d_overrides := None; d_masterComponent := None; d_src := None;
      d_imageData := Undefined; d_fit := None |}).

(** [polygon.forEach(p => path.points.push({...}))] and
    [path.updateBounds()]. *)
Definition push_points (polygon : list Point) (path : DesignObject)
  : DesignObject :=
  match path with
  | Path c g points closed b =>
    let points :=
      points ++ List.map (fun p => mkPathPoint (px p) (py p) None None) polygon in
    Path c g points closed (Path_updateBounds points b)
  | _ => path
  end.

(** [polygonToPath] *)
Definition polygonToPath (polygon : list Point) (fill stroke : option string)
  : M DesignObject :=
  let options :=
    path_options fill stroke
      (if is_some (Objects.truthy_ostr stroke) then 1 else 0)
      "Boolean Result" in
  bind (Path_new (fst options) (snd options))
    (fun path => ret (push_points polygon path)).

(** [a || b] on two [fill] properties. *)
Definition fill_or (a b : option string) : option string :=
  match Objects.truthy_ostr a with
  | Some f => Some f
  | None => b
  end.

(** [union] *)
Definition union (obj1 obj2 : DesignObject) : M DesignObject :=
  let poly1 := objectToPolygon obj1 in
  let poly2 := objectToPolygon obj2 in
  let allPoints := poly1 ++ poly2 in
  let hull := convexHull allPoints in
  polygonToPath hull
    (fill_or (fill (common_of obj1)) (fill (common_of obj2)))
    (stroke (common_of obj1)).

(** [subtract] *)
Definition subtract (obj1 obj2 : DesignObject) : M DesignObject :=
  let poly1 := objectToPolygon obj1 in
  let options :=
    path_options (fill (common_of obj1)) (stroke (common_of obj1))
      (strokeWidth (common_of obj1)) "Subtracted Shape" in
  bind (Path_new (fst options) (snd options))
    (fun path => ret (push_points poly1 path)).

(** The two nested loops of [intersect] over the edges of the polygons. *)
Definition edge_intersections (poly1 poly2 : list Point) : list Point :=
  flat_map
    (fun i =>
       let p1 := at_index poly1 i in
       let p2 := at_index poly1 ((i + 1) mod List.length poly1) in
       flat_map
         (fun j =>
            let p3 := at_index poly2 j in
            let p4 := at_index poly2 ((j + 1) mod List.length poly2) in
            match lineIntersection p1 p2 p3 p4 with
            | Some intersection => [intersection]
            | None => []
            end)
         (seq 0 (List.length poly2)))
    (seq 0 (List.length poly1)).

(** [intersect]; [None] is [null]. *)
Definition intersect (obj1 obj2 : DesignObject) : M (option DesignObject) :=
  let poly1 := objectToPolygon obj1 in
  let poly2 := objectToPolygon obj2 in
  let intersectionPoints :=
    filter (fun p => pointInPolygon p poly2) poly1
    ++ filter (fun p => pointInPolygon p poly1) poly2
    ++ edge_intersections poly1 poly2 in
  if (List.length intersectionPoints <? 3)%nat then ret None
  else
    let hull := convexHull intersectionPoints in
    bind (polygonToPath hull
            (fill_or (fill (common_of obj1)) (fill (common_of obj2)))
            (stroke (common_of obj1)))
      (fun path => ret (Some path)).

(** [exclude] *)
Definition exclude (obj1 obj2 : DesignObject) : M DesignObject :=
  union obj1 obj2.

(** *** performOperation *)

Section App.

(** What [performOperation] uses of the application: the selection, and the
    four methods it calls once it has a result. *)
Variable App : Type.
Variable selectedObjects : App -> list DesignObject.
Variable saveState : App -> App.
Variable removeObject : App -> DesignObject -> App.
Variable addObject : App -> DesignObject -> App.
Variable selectObjects : App -> list DesignObject -> App.

(** What a call leaves behind: the value returned ([None] is [null]), the
    application afterwards and the warnings written to the console. *)
Record Outcome : Type := mkOutcome {
  result : option DesignObject;
  app_after : App;
  warnings : list string
}.

Definition validTypes : list string := ["rectangle"; "ellipse"; "path"].

(** [validTypes.includes(type)] *)
Definition includes (l : list string) (s : string) : bool :=
  existsb (String.eqb s) l.

(** [performOperation(app, operation)] *)
Definition performOperation (app : App) (operation : string) : M Outcome :=
  match selectedObjects app with
  | [obj1; obj2] =>
    if negb (includes validTypes (type_of obj1))
       || negb (includes validTypes (type_of obj2))
    then
      ret (mkOutcome None app
             ["Boolean operations only work with rectangles, ellipses, and paths"])
    else
      bind (if String.eqb operation "union" then
              bind (union obj1 obj2) (fun r => ret (Some r))
            else if String.eqb operation "subtract" then
              bind (subtract obj1 obj2) (fun r => ret (Some r))
            else if String.eqb operation "intersect" then
              intersect obj1 obj2
            else if String.eqb operation "exclude" then
              bind (exclude obj1 obj2) (fun r => ret (Some r))
            else ret None)
        (fun result =>
           match result with
           | Some r =>
             let app := saveState app in
             let app := removeObject app obj1 in
             let app := removeObject app obj2 in
             let app := addObject app r in
             let app := selectObjects app [r] in
             ret (mkOutcome result app [])
           | None => ret (mkOutcome None app [])
           end)
  | _ =>
    ret (mkOutcome None app
           ["Boolean operations require exactly 2 selected objects"])
  end.

End App.

End Host.

End BooleanOperations.

(** ** Test data and decision procedures *)

Module Fixtures.
Import Js Objects BooleanOperations.

Definition half : Qc := Q2Qc (1 # 2).

(** The unit square and its centre. *)
Definition p00 : Point := mkPoint 0 0.
Definition p10 : Point := mkPoint 1 0.
Definition p11 : Point := mkPoint 1 1.
Definition p01 : Point := mkPoint 0 1.
Definition centre : Point := mkPoint half half.

Definition square_and_centre : list Point := [p00; p10; p11; p01; centre].
Definition square : list Point := [p00; p10; p11; p01].
Definition off_pivot : list Point := [p10; p11; p01; centre].

(** The unit square with its lower left corner at [(x0, y0)], and its
    centre. *)
Definition translate (dx dy : Qc) (p : Point) : Point :=
  mkPoint (px p + dx) (py p + dy).

Definition square_at (x0 y0 : Qc) : list Point :=
  [ mkPoint x0 y0; mkPoint (x0 + 1) y0; mkPoint (x0 + 1) (y0 + 1);
    mkPoint x0 (y0 + 1) ].

Definition centre_at (x0 y0 : Qc) : Point := mkPoint (x0 + half) (y0 + half).

(** A function that orders directions as the polar angle does: the position
    of the direction [(x, y)] on the boundary of the diamond [|x| + |y| = 1],
    from [-2] (just above the negative x axis, clockwise side) through [0]
    (the positive x axis) to [2]. It runs the scan where an instance of
    [Math.atan2] is needed. *)
Definition diamond_angle (y x : Qc) : Qc :=
  if leb 0 y then
    if leb 0 x then (if eqb (x + y) 0 then 0 else y / (x + y))
    else 1 + (- x) / (- x + y)
  else
    if ltb x 0 then - Q2Qc 2 + (- y) / (- x - y)
    else - (1) + x / (x - y).

(** All the orders in which a list can be given. *)
Fixpoint insert_everywhere {A : Type} (a : A) (l : list A) : list (list A) :=
  match l with
  | [] => [[a]]
  | b :: rest => (a :: l) :: List.map (cons b) (insert_everywhere a rest)
  end.

Fixpoint perms {A : Type} (l : list A) : list (list A) :=
  match l with
  | [] => [[]]
  | a :: rest => flat_map (insert_everywhere a) (perms rest)
  end.

Definition point_eqb (p q : Point) : bool :=
  eqb (px p) (px q) && eqb (py p) (py q).

Fixpoint points_eqb (l l' : list Point) : bool :=
  match l, l' with
  | [], [] => true
  | p :: l, q :: l' => point_eqb p q && points_eqb l l'
  | _, _ => false
  end.

(** The array of [convexHull] after the swap of the lowest point to the
    front. *)
Definition swapped (points : list Point) : list Point :=
  let lowest := find_lowest points in
  set_nth lowest (at_index points 0)
    (set_nth 0 (at_index points lowest) points).

(** For an order of the five points: the pivot is the corner [(0, 0)] and the
    points to sort are the other four. *)
Definition pivot_is_p00 (points : list Point) : bool :=
  point_eqb (at_index (swapped points) 0) p00
  && forallb (fun a => existsb (point_eqb a) off_pivot) (tl (swapped points)).

(** An application for [performOperation]: the document, the selection and
    the number of snapshots recorded. *)
Record TestApp : Type := mkTestApp {
  document : list DesignObject;
  selection : list DesignObject;
  snapshots : nat
}.

Definition test_common (i : string) : Common :=
  {| id := i; name := i; rotation := 0; fill := Some "#5B5BFF";
     fillOpacity := 1; stroke := None; strokeWidth := 0; strokeOpacity := 1;
     visible := true; locked := false; opacity := 1; blendMode := "normal";
     gradient := None; shadows := []; blur := 0; constraints := None |}.

Definition test_rectangle : DesignObject :=
  Rectangle (test_common "obj_r") (mkGeom 0 0 (Q2Qc 10) (Q2Qc 10)) 0.

Definition test_group : DesignObject :=
  Group (set_fill None (test_common "obj_g")) (mkGeom 0 0 (Q2Qc 10) (Q2Qc 10))
    [test_rectangle].

Definition test_app : TestApp :=
  {| document := [test_rectangle; test_group];
     selection := [test_rectangle; test_group];
     snapshots := 0 |}.

Definition test_world : World :=
  {| ids := fun n => String (ascii_of_nat (97 + n)) EmptyString;
     used := 0;
     heap := fun _ => None |}.

(** A vertical line from [(0, 0)] to [(0, 5)], built from its endpoints: the
    stored position and size are the defaults of the base constructor. *)
Definition vertical_line : DesignObject :=
  Line (set_fill None (test_common "obj_l"))
    (mkGeom 0 0 (Q2Qc 100) (Q2Qc 100)) 0 0 0 (Q2Qc 5).

(** A horizontal auto layout that hugs its content, spacing [10], no
    padding. *)
Definition hug_row : AutoLayout.t :=
  {| AutoLayout.direction := AutoLayout.horizontal;
     AutoLayout.primaryAxisAlign := AutoLayout.pstart;
     AutoLayout.counterAxisAlign := AutoLayout.ccenter;
     AutoLayout.spacing := Q2Qc 10;
     AutoLayout.paddingTop := 0;
     AutoLayout.paddingRight := 0;
     AutoLayout.paddingBottom := 0;
     AutoLayout.paddingLeft := 0;
     AutoLayout.primaryAxisSizing := AutoLayout.hug;
     AutoLayout.counterAxisSizing := AutoLayout.fixed |}.

(** Three children of widths [20], [30] and [40]: a rectangle, a line whose
    stored width is [30], and an ellipse. *)
Definition child_20 : DesignObject :=
  Rectangle (test_common "obj_a") (mkGeom (Q2Qc 3) (Q2Qc 4) (Q2Qc 20) (Q2Qc 8)) 0.
Definition child_30 : DesignObject :=
  Line (set_fill None (test_common "obj_b"))
    (mkGeom (Q2Qc 5) (Q2Qc 2) (Q2Qc 30) (Q2Qc 7))
    (Q2Qc 35) (Q2Qc 2) (Q2Qc 5) (Q2Qc 9).
Definition child_40 : DesignObject :=
  Ellipse (test_common "obj_c") (mkGeom 0 0 (Q2Qc 40) (Q2Qc 12)).

Definition row_frame : DesignObject :=
  Frame (test_common "obj_f") (mkGeom (Q2Qc 100) (Q2Qc 50) (Q2Qc 7) (Q2Qc 7))
    [child_20; child_30; child_40] true 0 (Some hug_row).

(** The data [{ type: 'rectangle', rotation: 400 }]. *)
Definition turned_data : Data :=
  {| base :=
       {| d_id := None; d_type := "rectangle"; d_name := None; d_x := None;
          d_y := None; d_width := None; d_height := None;
          d_rotation := Some (Q2Qc 400); d_fill := Undefined;
          d_fillOpacity := None; d_stroke := Undefined;
          d_strokeWidth := None; d_strokeOpacity := None; d_visible := None;
          d_locked := None; d_opacity := None; d_blendMode := None;
          d_gradient := Undefined; d_shadows := None; d_blur := None;
          d_constraints := Undefined |};
     ext := no_ext;
     d_children := None |}.

(** A master component at the heap identity [0] and an instance linked to
    it; the instance has the identity [1]. *)
Definition master : DesignObject :=
  Component (test_common "obj_m") (mkGeom 0 0 (Q2Qc 10) (Q2Qc 10))
    [test_rectangle] true 0 "obj_cmp" "" [1%nat].

Definition linked_instance : DesignObject :=
  ComponentInstance (test_common "obj_i")
    (mkGeom (Q2Qc 20) (Q2Qc 20) (Q2Qc 10) (Q2Qc 10))
    "obj_cmp" (Some 0%nat) [] 0.

Definition linked_world : World :=
  {| ids := ids test_world;
     used := 0;
     heap := fun r => match r with O => Some master | S _ => None end |}.

(** A small document: a page frame that holds a styled rectangle, a line, a
    text, a path, an image, a group, the master component, the instance
    linked to it, and a frame laid out by [hug_row]. *)
Definition styled_common (i : string) : Common :=
  {| id := i; name := "Card"; rotation := Q2Qc 30; fill := Some "";
     fillOpacity := 0; stroke := Some "#112233"; strokeWidth := 0;
     strokeOpacity := half; visible := false; locked := true; opacity := 0;
     blendMode := "multiply";
     gradient :=
       Some {| Gradient.type := Gradient.radial;
               Gradient.angle := 0;
               Gradient.stops := [];
               Gradient.centerX := half; Gradient.centerY := Q2Qc (1 # 4);
               Gradient.radiusX := 1; Gradient.radiusY := half |};
     shadows :=
       [ {| Shadow.type := Shadow.inner; Shadow.color := "#000";
            Shadow.offsetX := 0; Shadow.offsetY := Q2Qc 2;
            Shadow.blur := Q2Qc 3; Shadow.spread := 0;
            Shadow.visible := false |} ];
     blur := 0;
     constraints :=
       Some {| Constraints.horizontal := Constraints.hscale;
               Constraints.vertical := Constraints.bottom;
               Constraints.originalX := 0; Constraints.originalY := Q2Qc 5;
               Constraints.originalWidth := 0;
               Constraints.originalHeight := 0;
               Constraints.originalParentWidth := Q2Qc 200;
               Constraints.originalParentHeight := 0 |} |}.

Definition line_common (i : string) : Common :=
  set_strokeWidth (Q2Qc 2)
    (set_stroke (Some "#000000") (set_fill None (test_common i))).

Definition sample_rectangle : DesignObject :=
  Rectangle (styled_common "obj_1") (mkGeom 0 (- Q2Qc 4) (Q2Qc 20) half) (Q2Qc 6).

Definition sample_line : DesignObject :=
  Line (line_common "obj_2") (mkGeom 0 0 (Q2Qc 100) (Q2Qc 100))
    (Q2Qc 35) (Q2Qc 2) (Q2Qc 5) (Q2Qc 2).

Definition sample_text : DesignObject :=
  TextObject (test_common "obj_3") (mkGeom 0 0 (Q2Qc 80) (Q2Qc 24))
    {| text := "Hello"; fontFamily := "Inter"; fontSize := Q2Qc 12;
       fontWeight := "700"; lineHeight := 1; textAlign := "center" |}.

Definition sample_path : DesignObject :=
  Path (test_common "obj_4") (mkGeom 0 0 (Q2Qc 100) (Q2Qc 100))
    [ mkPathPoint 0 0 None (Some (mkPoint 1 1));
      mkPathPoint (Q2Qc 10) (Q2Qc 5) (Some (mkPoint (Q2Qc 9) 1)) None ]
    true (mkPathBounds 0 0 (Q2Qc 10) (Q2Qc 5)).

Definition sample_image : DesignObject :=
  ImageObject (test_common "obj_5") (mkGeom 0 0 (Q2Qc 64) (Q2Qc 64))
    {| src := "a.png"; imageData := None; fit := contain;
       _image := Some "a.png" |} 0.

Definition sample_group : DesignObject :=
  Group (set_fill None (test_common "obj_6")) (mkGeom 0 0 (Q2Qc 40) (Q2Qc 12))
    [ child_20; child_40 ].

Definition laid_out_row : DesignObject :=
  Frame_applyAutoLayout
    (Frame (test_common "obj_7")
       (mkGeom (Q2Qc 100) (Q2Qc 50) (Q2Qc 7) (Q2Qc 7))
       [ child_20; sample_line; child_40 ] true 0 (Some hug_row)).

Definition sample_page : DesignObject :=
  Frame (test_common "obj_page") (mkGeom 0 0 (Q2Qc 800) (Q2Qc 600))
    [ sample_rectangle; sample_line; sample_text; sample_path; sample_image;
      sample_group; master; linked_instance; laid_out_row ]
    false (Q2Qc 4) None.

(** A frame with no fill. *)
Definition hollow_frame : DesignObject :=
  Frame (set_fill None (test_common "obj_h"))
    (mkGeom 0 0 (Q2Qc 10) (Q2Qc 10)) [] true 0 None.

(** A rectangle of width [0] and height [50], as the rectangle tool leaves
    it after a drag straight down. *)
Definition flat_rectangle : DesignObject :=
  Rectangle (test_common "obj_z")
    (mkGeom (Q2Qc 10) (Q2Qc 10) 0 (Q2Qc 50)) 0.

End Fixtures.

(** ** Sequences of calls on the history manager *)

Module HistoryCalls.
Import Js History.

(** The methods of [HistoryManager] that change it, as a client calls
    them. *)
Inductive Call : Type :=
  | CallPush (state : HistoryState)
  | CallUndo (currentState : HistoryState)
  | CallRedo
  | CallClear
  | CallBeginApply
  | CallEndApply.

(** The manager after one call; what [undo] and [redo] return is dropped. *)
Definition call (h : HistoryManager) (c : Call) : HistoryManager :=
  match c with
  | CallPush state => push h state
  | CallUndo currentState => snd (undo h currentState)
  | CallRedo => snd (redo h)
  | CallClear => clear h
  | CallBeginApply => beginApply h
  | CallEndApply => endApply h
  end.

Definition calls (h : HistoryManager) (cs : list Call) : HistoryManager :=
  fold_left call cs h.

(** One [undo] per element of [currents], each handed the state that is
    current at its moment: the values returned, in the order of the calls,
    and the manager afterwards. *)
Fixpoint undoEach (h : HistoryManager) (currents : list HistoryState)
  : list (option HistoryState) * HistoryManager :=
  match currents with
  | [] => ([], h)
  | currentState :: rest =>
    let (r, h') := undo h currentState in
    let (rs, h'') := undoEach h' rest in
    (r :: rs, h'')
  end.

(** [n] calls of [redo] in a row. *)
Fixpoint redoTimes (h : HistoryManager) (n : nat)
  : list (option HistoryState) * HistoryManager :=
  match n with
  | O => ([], h)
  | S n' =>
    let (r, h') := redo h in
    let (rs, h'') := redoTimes h' n' in
    (r :: rs, h'')
  end.

End HistoryCalls.

(** ** Geometry helpers (utils.ts) *)

Module Geometry.
Import Js Objects.

(** [interface Viewport] *)
Record Viewport : Type := mkViewport { offsetX : Qc; offsetY : Qc; zoom : Qc }.

(** [Utils.clamp] *)
Definition clamp (value min max : Qc) : Qc := Js.min (Js.max value min) max.

(** [Utils.lerp] *)
Definition lerp (a b t : Qc) : Qc := a + (b - a) * t.

(** [Utils.pointInRect] *)
Definition pointInRect (px py : Qc) (rect : Rect) : bool :=
  leb (rx rect) px && leb px (rx rect + rwidth rect)
  && leb (ry rect) py && leb py (ry rect + rheight rect).

(** [Utils.rectsIntersect] *)
Definition rectsIntersect (r1 r2 : Rect) : bool :=
  negb (ltb (rx r1 + rwidth r1) (rx r2)
        || ltb (rx r2 + rwidth r2) (rx r1)
        || ltb (ry r1 + rheight r1) (ry r2)
        || ltb (ry r2 + rheight r2) (ry r1)).

(** [Utils.getIntersection]; [None] is [null]. *)
Definition getIntersection (r1 r2 : Rect) : option Rect :=
  let x := Js.max (rx r1) (rx r2) in
  let y := Js.max (ry r1) (ry r2) in
  let width := Js.min (rx r1 + rwidth r1) (rx r2 + rwidth r2) - x in
  let height := Js.min (ry r1 + rheight r1) (ry r2 + rheight r2) - y in
  if leb width 0 || leb height 0 then None
  else Some (mkRect x y width height).

(** [Utils.screenToCanvas] *)
Definition screenToCanvas (x y : Qc) (viewport : Viewport) : Point :=
  mkPoint ((x - offsetX viewport) / zoom viewport)
          ((y - offsetY viewport) / zoom viewport).

(** [Utils.canvasToScreen] *)
Definition canvasToScreen (x y : Qc) (viewport : Viewport) : Point :=
  mkPoint (x * zoom viewport + offsetX viewport)
          (y * zoom viewport + offsetY viewport).


(** [Utils.bezierPoint] *)
Definition bezierPoint (p0 p1 p2 p3 : Point) (t : Qc) : Point :=
  let t2 := t * t in
  let t3 := t2 * t in
  let mt := 1 - t in
  let mt2 := mt * mt in
  let mt3 := mt2 * mt in
  mkPoint
    (mt3 * px p0 + Q2Qc 3 * mt2 * t * px p1 + Q2Qc 3 * mt * t2 * px p2
     + t3 * px p3)
    (mt3 * py p0 + Q2Qc 3 * mt2 * t * py p1 + Q2Qc 3 * mt * t2 * py p2
     + t3 * py p3).

End Geometry.

(** ** More methods of the design objects (objects.ts) *)

Module ObjectMethods.
Import Js Objects.

(** [Gradient.addStop(offset, color)]: the stop is pushed and the stops are
    sorted by offset. *)
Definition Gradient_addStop (g : Gradient.t) (offset : Qc) (color : string)
  : Gradient.t :=
  {| Gradient.type := Gradient.type g;
     Gradient.angle := Gradient.angle g;
     Gradient.stops :=
       BooleanOperations.sort
         (fun a b => Gradient.offset a - Gradient.offset b)
         (Gradient.stops g ++ [Gradient.mkStop offset color]);
     Gradient.centerX := Gradient.centerX g;
     Gradient.centerY := Gradient.centerY g;
     Gradient.radiusX := Gradient.radiusX g;
     Gradient.radiusY := Gradient.radiusY g |}.

(** [Constraints.initialize(child, parent)]: the constraints afterwards. *)
Definition Constraints_initialize (this : Constraints.t)
    (child parent : DesignObject) : Constraints.t :=
  {| Constraints.horizontal := Constraints.horizontal this;
     Constraints.vertical := Constraints.vertical this;
     Constraints.originalX := get_x child - get_x parent;
     Constraints.originalY := get_y child - get_y parent;
     Constraints.originalWidth := get_width child;
     Constraints.originalHeight := get_height child;
     Constraints.originalParentWidth := get_width parent;
     Constraints.originalParentHeight := get_height parent |}.

(** [Constraints.apply(child, parent)]: the child afterwards. *)
Definition Constraints_apply (this : Constraints.t)
    (child parent : DesignObject) : DesignObject :=
  let parentDeltaW := get_width parent - Constraints.originalParentWidth this in
  let parentDeltaH := get_height parent - Constraints.originalParentHeight this in
  let child :=
    match Constraints.horizontal this with
    | Constraints.left =>
      set_x (get_x parent + Constraints.originalX this) child
    | Constraints.right =>
      set_x (get_x parent + Constraints.originalX this + parentDeltaW) child
    | Constraints.hcenter =>
      set_x (get_x parent + Constraints.originalX this
             + parentDeltaW / Q2Qc 2) child
    | Constraints.hscale =>
      let scaleX := get_width parent / Constraints.originalParentWidth this in
      set_width (Constraints.originalWidth this * scaleX)
        (set_x (get_x parent + Constraints.originalX this * scaleX) child)
    | Constraints.left_right =>
      set_width (Constraints.originalWidth this + parentDeltaW)
        (set_x (get_x parent + Constraints.originalX this) child)
    end in
  match Constraints.vertical this with
  | Constraints.top =>
    set_y (get_y parent + Constraints.originalY this) child
  | Constraints.bottom =>
    set_y (get_y parent + Constraints.originalY this + parentDeltaH) child
  | Constraints.vcenter =>
    set_y (get_y parent + Constraints.originalY this
           + parentDeltaH / Q2Qc 2) child
  | Constraints.vscale =>
    let scaleY := get_height parent / Constraints.originalParentHeight this in
    set_height (Constraints.originalHeight this * scaleY)
      (set_y (get_y parent + Constraints.originalY this * scaleY) child)
  | Constraints.top_bottom =>
    set_height (Constraints.originalHeight this + parentDeltaH)
      (set_y (get_y parent + Constraints.originalY this) child)
  end.

(** [Frame.applyConstraints] *)
Definition Frame_applyConstraints (frame : DesignObject) : DesignObject :=
  match frame with
  | Frame c g children clip r a =>
    Frame c g
      (List.map
         (fun child =>
            match constraints (common_of child) with
            | Some k => Constraints_apply k child frame
            | None => child
            end)
         children)
      clip r a
  | _ => frame
  end.

(** [Path.addPoint(point)]; the parameter is a [Partial<PathPoint>]. *)
Definition Path_addPoint (path : DesignObject) (x y : option Qc)
    (handleIn handleOut : nullable Point) : DesignObject :=
  match path with
  | Path c g points closed b =>
    let points :=
      points ++ [ mkPathPoint (num_or x 0) (num_or y 0)
                    (truthy_obj handleIn) (truthy_obj handleOut) ] in
    Path c g points closed (Path_updateBounds points b)
  | _ => path
  end.

(** [this.overrides[property] = true] *)
Fixpoint set_override (property : string) (overrides : list (string * bool))
  : list (string * bool) :=
  match overrides with
  | [] => [(property, true)]
  | (k, v) :: rest =>
    if String.eqb k property then (k, true) :: rest
    else (k, v) :: set_override property rest
  end.

(** [delete this.overrides[property]] *)
Definition delete_override (property : string)
    (overrides : list (string * bool)) : list (string * bool) :=
  filter (fun kv => negb (String.eqb (fst kv) property)) overrides.

(** [this[property] = value] on an instance, for the properties that
    [syncFromMaster] copies and a value of the type the class declares for
    them; [None] for any other assignment, which the embedding does not
    cover. *)
Definition assign (property : string) (value : JsVal) (instance : DesignObject)
  : option DesignObject :=
  match instance with
  | ComponentInstance c g ci m ov cr =>
    if String.eqb property "width" then
      match value with
      | JNum n => Some (ComponentInstance c (geom_set_width n g) ci m ov cr)
      | _ => None
      end
    else if String.eqb property "height" then
      match value with
      | JNum n => Some (ComponentInstance c (geom_set_height n g) ci m ov cr)
      | _ => None
      end
    else if String.eqb property "cornerRadius" then
      match value with
      | JNum n => Some (ComponentInstance c g ci m ov n)
      | _ => None
      end
    else if String.eqb property "fill" then
      match value with
      | JStr s => Some (ComponentInstance (set_fill (Some s) c) g ci m ov cr)
      | JNull => Some (ComponentInstance (set_fill None c) g ci m ov cr)
      | _ => None
      end
    else if String.eqb property "stroke" then
      match value with
      | JStr s => Some (ComponentInstance (set_stroke (Some s) c) g ci m ov cr)
      | JNull => Some (ComponentInstance (set_stroke None c) g ci m ov cr)
      | _ => None
      end
    else if String.eqb property "strokeWidth" then
      match value with
      | JNum n => Some (ComponentInstance (set_strokeWidth n c) g ci m ov cr)
      | _ => None
      end
    else None
  | _ => None
  end.

(** [this[property]] for the same properties. *)
Definition read (property : string) (o : DesignObject) : option JsVal :=
  let of_string (s : option string) :=
    match s with
    | Some s => JStr s
    | None => JNull
    end in
  if String.eqb property "width" then Some (JNum (get_width o))
  else if String.eqb property "height" then Some (JNum (get_height o))
  else if String.eqb property "cornerRadius" then
    match BooleanOperations.cornerRadius_of o with
    | Some r => Some (JNum r)
    | None => Some JUndefined
    end
  else if String.eqb property "fill" then Some (of_string (fill (common_of o)))
  else if String.eqb property "stroke" then
    Some (of_string (stroke (common_of o)))
  else if String.eqb property "strokeWidth" then
    Some (JNum (strokeWidth (common_of o)))
  else None.

(** [ComponentInstance.setOverride(property, value)] *)
Definition setOverride (instance : DesignObject) (property : string)
    (value : JsVal) : option DesignObject :=
  match instance with
  | ComponentInstance c g ci m ov cr =>
    assign property value
      (ComponentInstance c g ci m (set_override property ov) cr)
  | _ => None
  end.

(** [ComponentInstance.resetOverride(property)] *)
Definition resetOverride (heap : ref -> option DesignObject)
    (instance : DesignObject) (property : string) : DesignObject :=
  match instance with
  | ComponentInstance c g ci m ov cr =>
    syncFromMaster heap
      (ComponentInstance c g ci m (delete_override property ov) cr)
  | _ => instance
  end.

(** [ComponentInstance.resetAllOverrides()] *)
Definition resetAllOverrides (heap : ref -> option DesignObject)
    (instance : DesignObject) : DesignObject :=
  match instance with
  | ComponentInstance c g ci m ov cr =>
    syncFromMaster heap (ComponentInstance c g ci m [] cr)
  | _ => instance
  end.

End ObjectMethods.

(** ** Resizing and drawing with the mouse (tools.ts) *)

Module DrawingTools.
Import Js Objects.

(** [type HandleType] *)
Inductive HandleType : Type :=
  | handle_nw | handle_ne | handle_se | handle_sw
  | handle_n | handle_s | handle_e | handle_w
  | handle_rotate.

(** The part of the state of [SelectTool] that a resize uses. The mouse
    positions are the positions on the canvas, [pos.x] and [pos.y]. *)
Record ResizeState : Type := mkResizeState {
  resizeObject : option DesignObject;
  resizeHandle : option HandleType;
  initialBounds : option Rect;
  startPos : option Point
}.

(** [SelectTool.handleResize(pos, constrain, fromCenter)]: the state with
    the object under resize as the call leaves it. [fromCenter] is not read.
    With [constrain] the method divides by the initial height and by the
    ratio of the initial width and height; where one of them is [0] the
    source leaves the finite numbers, which is outside the embedding. *)
Definition handleResize (tool : ResizeState) (pos : Point)
    (constrain fromCenter : bool) : ResizeState :=
  match resizeObject tool, resizeHandle tool, initialBounds tool,
        startPos tool with
  | Some obj, Some handle, Some initial, Some start =>
    let newX := get_x obj in
    let newY := get_y obj in
    let newWidth := get_width obj in
    let newHeight := get_height obj in
    let dx := px pos - px start in
    let dy := py pos - py start in
    let '(newX, newY, newWidth, newHeight) :=
      match handle with
      | handle_nw =>
        (rx initial + dx, ry initial + dy,
         rwidth initial - dx, rheight initial - dy)
      | handle_ne =>
        (newX, ry initial + dy, rwidth initial + dx, rheight initial - dy)
      | handle_se =>
        (newX, newY, rwidth initial + dx, rheight initial + dy)
      | handle_sw =>
        (rx initial + dx, newY, rwidth initial - dx, rheight initial + dy)
      | handle_n => (newX, ry initial + dy, newWidth, rheight initial - dy)
      | handle_s => (newX, newY, newWidth, rheight initial + dy)
      | handle_e => (newX, newY, rwidth initial + dx, newHeight)
      | handle_w => (rx initial + dx, newY, rwidth initial - dx, newHeight)
      | handle_rotate => (newX, newY, newWidth, newHeight)
      end in
    let '(newWidth, newHeight) :=
      if constrain then
        let ratio := rwidth initial / rheight initial in
        match handle with
        | handle_n | handle_s => (newHeight * ratio, newHeight)
        | handle_e | handle_w => (newWidth, newWidth / ratio)
        | _ =>
          if ltb (abs dy) (abs dx) then (newWidth, newWidth / ratio)
          else (newHeight * ratio, newHeight)
        end
      else (newWidth, newHeight) in
    let '(newWidth, newX) :=
      if ltb newWidth 1 then (1, rx initial + rwidth initial - 1)
      else (newWidth, newX) in
    let '(newHeight, newY) :=
      if ltb newHeight 1 then (1, ry initial + rheight initial - 1)
      else (newHeight, newY) in
    let obj := set_x newX obj in
    let obj := set_y newY obj in
    let obj := set_width newWidth obj in
    let obj := set_height newHeight obj in
    {| resizeObject := Some obj;
       resizeHandle := resizeHandle tool;
       initialBounds := initialBounds tool;
       startPos := startPos tool |}
  | _, _, _, _ => tool
  end.

(** The state of [RectangleTool]. *)
Record RectangleTool : Type := mkRectangleTool {
  isDrawing : bool;
  drawStart : option Point;
  currentRect : option DesignObject
}.

(** [RectangleTool.onMouseMove(e)]: the tool afterwards, with the rectangle
    being drawn as the call leaves it; [pos] is the mouse position on the
    canvas, [shiftKey] and [altKey] are those of the event. *)
Definition RectangleTool_onMouseMove (tool : RectangleTool) (pos : Point)
    (shiftKey altKey : bool) : RectangleTool :=
  match isDrawing tool, drawStart tool, currentRect tool with
  | true, Some start, Some rect =>
    let x := Js.min (px start) (px pos) in
    let y := Js.min (py start) (py pos) in
    let width := abs (px pos - px start) in
    let height := abs (py pos - py start) in
    let '(x, y, width, height) :=
      if shiftKey then
        let size := Js.max width height in
        (if ltb (px pos) (px start) then px start - size else x,
         if ltb (py pos) (py start) then py start - size else y,
         size, size)
      else (x, y, width, height) in
    let '(x, y, width, height) :=
      if altKey then
        (px start - width, py start - height,
         width * Q2Qc 2, height * Q2Qc 2)
      else (x, y, width, height) in
    let rect := set_x x rect in
    let rect := set_y y rect in
    let rect := set_width width rect in
    let rect := set_height height rect in
    {| isDrawing := isDrawing tool;
       drawStart := drawStart tool;
       currentRect := Some rect |}
  | _, _, _ => tool
  end.

End DrawingTools.

(** ** The application (app.ts) *)

Module FigmaApp.
Import Js Objects.

(** [type AlignDirection] *)
Inductive AlignDirection : Type :=
  | left | right | centerH | top | bottom | centerV.

(** [type DistributeDirection] *)
Inductive DistributeDirection : Type := horizontal | vertical.

(** The part of the state of [FigmaApp] that the operations below use. The
    design objects live in [store], by identity; [objects] and
    [selectedObjects] hold references into it, so an object of the selection
    is the object of the document and a write to it is seen through both.
    [viewport] is [this.renderer.viewport]. Rendering and the panels are
    left out. *)
Record t : Type := mk {
  store : ref -> DesignObject;
  objects : list ref;
  selectedObjects : list ref;
  history : History.HistoryManager;
  viewport : Geometry.Viewport
}.

(** An assignment to the object [r], as [update] describes it. *)
Definition modify (r : ref) (update : DesignObject -> DesignObject) (app : t)
  : t :=
  {| store := fun r' => if Nat.eqb r' r then update (store app r')
                        else store app r';
     objects := objects app;
     selectedObjects := selectedObjects app;
     history := history app;
     viewport := viewport app |}.

Definition with_objects (objs : list ref) (app : t) : t :=
  {| store := store app;
     objects := objs;
     selectedObjects := selectedObjects app;
     history := history app;
     viewport := viewport app |}.

Definition with_selection (sel : list ref) (app : t) : t :=
  {| store := store app;
     objects := objects app;
     selectedObjects := sel;
     history := history app;
     viewport := viewport app |}.

(** [Array.prototype.indexOf] on references; [None] is [-1]. *)
Fixpoint indexOf (l : list ref) (r : ref) : option nat :=
  match l with
  | [] => None
  | a :: rest =>
    if Nat.eqb a r then Some O else option_map S (indexOf rest r)
  end.

(** [Array.prototype.includes] on references. *)
Definition includes (l : list ref) (r : ref) : bool :=
  match indexOf l r with Some _ => true | None => false end.

(** [splice(index, 1)], for its effect on the array. *)
Definition splice1 (index : nat) (l : list ref) : list ref :=
  firstn index l ++ skipn (S index) l.

(** [toggleSelection(object)] *)
Definition toggleSelection (app : t) (object : ref) : t :=
  match indexOf (selectedObjects app) object with
  | Some index => with_selection (splice1 index (selectedObjects app)) app
  | None => with_selection (selectedObjects app ++ [object]) app
  end.

(** [addToSelection(objects)] *)
Definition addToSelection (app : t) (objs : list ref) : t :=
  fold_left
    (fun app obj =>
       if negb (includes (selectedObjects app) obj)
       then with_selection (selectedObjects app ++ [obj]) app
       else app)
    objs app.

(** [CanvasRenderer.setViewport(viewport)], with the properties that the
    partial viewport may hold. *)
Definition setViewport (current : Geometry.Viewport)
    (zoom offsetX offsetY : option Qc) : Geometry.Viewport :=
  {| Geometry.offsetX := defined_or offsetX (Geometry.offsetX current);
     Geometry.offsetY := defined_or offsetY (Geometry.offsetY current);
     Geometry.zoom := defined_or zoom (Geometry.zoom current) |}.

(** [CanvasRenderer.worldToScreen] *)
Definition worldToScreen (viewport : Geometry.Viewport) (x y : Qc) : Point :=
  mkPoint (x * Geometry.zoom viewport + Geometry.offsetX viewport)
          (y * Geometry.zoom viewport + Geometry.offsetY viewport).

(** [CanvasRenderer.screenToWorld] *)
Definition screenToWorld (viewport : Geometry.Viewport) (x y : Qc) : Point :=
  mkPoint ((x - Geometry.offsetX viewport) / Geometry.zoom viewport)
          ((y - Geometry.offsetY viewport) / Geometry.zoom viewport).

(** [zoomAtPoint(screenX, screenY, delta)] *)
Definition zoomAtPoint (app : t) (screenX screenY delta : Qc) : t :=
  let viewport := viewport app in
  let oldZoom := Geometry.zoom viewport in
  let newZoom :=
    Geometry.clamp (oldZoom * (1 + delta)) (Q2Qc (1 # 10)) (Q2Qc 10) in
  let worldX := (screenX - Geometry.offsetX viewport) / oldZoom in
  let worldY := (screenY - Geometry.offsetY viewport) / oldZoom in
  {| store := store app;
     objects := objects app;
     selectedObjects := selectedObjects app;
     history := history app;
     viewport :=
       setViewport viewport (Some newZoom)
         (Some (screenX - worldX * newZoom))
         (Some (screenY - worldY * newZoom)) |}.

Section Operations.

(** A serialized object as the plain data of a snapshot, whose elements the
    history manager takes as [unknown]. *)
Variable plain : Data -> JsVal.

(** [saveState()] *)
Definition saveState (app : t) : t :=
  {| store := store app;
     objects := objects app;
     selectedObjects := selectedObjects app;
     history :=
       History.push (history app)
         {| History.objects :=
              List.map (fun obj => plain (serialize (store app obj)))
                (objects app);
            History.selectedIds :=
              List.map (fun obj => id (common_of (store app obj)))
                (selectedObjects app) |};
     viewport := viewport app |}.

(** [alignSelection(direction)]. The bounds start from [Infinity] and
    [-Infinity], here [None]; the selection holds two objects or more by
    then, so the loop leaves four numbers. *)
Definition alignSelection (app : t) (direction : AlignDirection) : t :=
  if (List.length (selectedObjects app) <? 2)%nat then app
  else
    let app := saveState app in
    match
      fold_left
        (fun (acc : option Qc * option Qc * option Qc * option Qc) r =>
           let '(minX, minY, maxX, maxY) := acc in
           let obj := store app r in
           (min_from minX (get_x obj), min_from minY (get_y obj),
            max_from maxX (get_x obj + get_width obj),
            max_from maxY (get_y obj + get_height obj)))
        (selectedObjects app) (None, None, None, None)
    with
    | (Some minX, Some minY, Some maxX, Some maxY) =>
      let centerX := (minX + maxX) / Q2Qc 2 in
      let centerY := (minY + maxY) / Q2Qc 2 in
      fold_left
        (fun app r =>
           let obj := store app r in
           match direction with
           | left => modify r (set_x minX) app
           | right => modify r (set_x (maxX - get_width obj)) app
           | centerH =>
             modify r (set_x (centerX - get_width obj / Q2Qc 2)) app
           | top => modify r (set_y minY) app
           | bottom => modify r (set_y (maxY - get_height obj)) app
           | centerV =>
             modify r (set_y (centerY - get_height obj / Q2Qc 2)) app
           end)
        (selectedObjects app) app
    | _ => app
    end.

(** [distributeSelection(direction)]. [sorted[0]] and the last element of
    [sorted] exist, as the selection holds three objects or more by then. *)
Definition distributeSelection (app : t) (direction : DistributeDirection)
  : t :=
  if (List.length (selectedObjects app) <? 3)%nat then app
  else
    let app := saveState app in
    let sorted :=
      BooleanOperations.sort
        (fun a b =>
           match direction with
           | horizontal => get_x (store app a) - get_x (store app b)
           | vertical => get_y (store app a) - get_y (store app b)
           end)
        (selectedObjects app) in
    match nth_error sorted 0, nth_error sorted (List.length sorted - 1) with
    | Some first, Some last =>
      match direction with
      | horizontal =>
        let totalWidth :=
          fold_left (fun sum obj => sum + get_width (store app obj)) sorted 0
        in
        let minX := get_x (store app first) in
        let maxX := get_x (store app last) + get_width (store app last) in
        let spacing :=
          (maxX - minX - totalWidth) / (num_of_nat (List.length sorted) - 1)
        in
        fst (fold_left
               (fun (acc : t * Qc) obj =>
                  let (app, currentX) := acc in
                  let app := modify obj (set_x currentX) app in
                  (app, currentX + (get_width (store app obj) + spacing)))
               sorted (app, minX))
      | vertical =>
        let totalHeight :=
          fold_left (fun sum obj => sum + get_height (store app obj)) sorted 0
        in
        let minY := get_y (store app first) in
        let maxY := get_y (store app last) + get_height (store app last) in
        let spacing :=
          (maxY - minY - totalHeight) / (num_of_nat (List.length sorted) - 1)
        in
        fst (fold_left
               (fun (acc : t * Qc) obj =>
                  let (app, currentY) := acc in
                  let app := modify obj (set_y currentY) app in
                  (app, currentY + (get_height (store app obj) + spacing)))
               sorted (app, minY))
      end
    | _, _ => app
    end.

(** [bringToFront()] *)
Definition bringToFront (app : t) : t :=
  if (List.length (selectedObjects app) =? 0)%nat then app
  else
    let app := saveState app in
    fold_left
      (fun app obj =>
         match indexOf (objects app) obj with
         | Some index =>
           with_objects (splice1 index (objects app) ++ [obj]) app
         | None => app
         end)
      (selectedObjects app) app.

(** [sendToBack()] *)
Definition sendToBack (app : t) : t :=
  if (List.length (selectedObjects app) =? 0)%nat then app
  else
    let app := saveState app in
    fold_left
      (fun app obj =>
         match indexOf (objects app) obj with
         | Some index =>
           with_objects (obj :: splice1 index (objects app)) app
         | None => app
         end)
      (selectedObjects app) app.

End Operations.

End FigmaApp.

(** ** Predicates that the properties are stated with *)

Module Predicates.
Import Js Objects BooleanOperations.

(** The entries that a history manager holds, undo and redo stacks
    together, are within its capacity. *)
Definition within_capacity (h : History.HistoryManager) : Prop :=
  (History.undoCount h + History.redoCount h <= History.maxSize h)%nat.

(** The order in which [convexHull] looks for its pivot: lowest first, the
    leftmost of the lowest. *)
Definition not_above (p q : Point) : Prop :=
  py p < py q \/ (py p = py q /\ px p <= px q).

(** One turn of the loop of [convexHull] that looks for the lowest point. *)
Definition lowest_step (points : list Point) (lowest i : nat) : nat :=
  if ltb (py (at_index points i)) (py (at_index points lowest))
     || (eqb (py (at_index points i)) (py (at_index points lowest))
         && ltb (px (at_index points i)) (px (at_index points lowest)))
  then i else lowest.

(** The order of the stops of a gradient, and the comparison that
    [addStop] sorts them with. *)
Definition by_offset (a b : Gradient.GradientStop) : Prop :=
  Gradient.offset a <= Gradient.offset b.

Definition stop_compare (a b : Gradient.GradientStop) : Qc :=
  Gradient.offset a - Gradient.offset b.

(** A running minimum that is there and below [v]; a running maximum that
    is there and above [v]. *)
Definition below (m : option Qc) (v : Qc) : Prop :=
  match m with Some m0 => m0 <= v | None => False end.

Definition above (m : option Qc) (v : Qc) : Prop :=
  match m with Some m0 => v <= m0 | None => False end.

(** The properties that [syncFromMaster] copies from the master. *)
Definition synced : list string :=
  ["width"; "height"; "cornerRadius"; "fill"; "stroke"; "strokeWidth"].

(** A sequence of objects laid one after the other from [start] on, [gap]
    apart, along the axis that [pos] and [size] read. *)
Fixpoint chained (pos size : DesignObject -> Qc) (gap start : Qc)
    (l : list DesignObject) : Prop :=
  match l with
  | [] => True
  | a :: rest =>
    pos a = start /\ chained pos size gap (start + (size a + gap)) rest
  end.

(** An extent [h'] after a stretch to [m], compared with the extent [h]
    before it: it is at most [m], and it is [m] where [h] was. *)
Definition settled (m h h' : Qc) : Prop := h' <= m /\ (h = m -> h' = m).

End Predicates.

(** ** Predicates on the objects of a selection *)

Module SelectionPredicates.
Import Js Objects FigmaApp.

(** The coordinate that an alignment leaves alone. *)
Definition cross_position (direction : AlignDirection) (o : DesignObject) : Qc :=
  match direction with
  | left | right | centerH => get_y o
  | top | bottom | centerV => get_x o
  end.

(** [after] has the size of [before] and its position across the
    alignment. *)
Definition keeps (direction : AlignDirection) (before after : DesignObject)
  : Prop :=
  get_width after = get_width before
  /\ get_height after = get_height before
  /\ cross_position direction after = cross_position direction before.

(** [o] lies at the edge, or about the centre, of the box from [minX],
    [minY] to [maxX], [maxY] that [direction] names. *)
Definition lined_up (direction : AlignDirection) (minX minY maxX maxY : Qc)
    (o : DesignObject) : Prop :=
  match direction with
  | left => get_x o = minX
  | right => get_x o + get_width o = maxX
  | centerH => get_x o + get_width o / Q2Qc 2 = (minX + maxX) / Q2Qc 2
  | top => get_y o = minY
  | bottom => get_y o + get_height o = maxY
  | centerV => get_y o + get_height o / Q2Qc 2 = (minY + maxY) / Q2Qc 2
  end.

End SelectionPredicates.

(* ================================================================== *)
(** * Part II: properties *)
(* ================================================================== *)

(** ** Numbers *)

Module NumFacts.
Import Js.

Lemma eqb_eq (a b : Qc) : eqb a b = true <-> a = b.
Proof.
  unfold eqb. split.
  - apply Qc_eq_bool_correct.
  - intros ->. unfold Qc_eq_bool.
    destruct (Qc_eq_dec b b); [ reflexivity | contradiction ].
Qed.

Lemma eqb_neq (a b : Qc) : eqb a b = false <-> a <> b.
Proof.
  split.
  - intros H E. apply eqb_eq in E. congruence.
  - intros H. destruct (eqb a b) eqn:E; [ | reflexivity ].
    apply eqb_eq in E. contradiction.
Qed.

Lemma eqb_refl (a : Qc) : eqb a a = true.
Proof. apply eqb_eq. reflexivity. Qed.

Lemma ltb_lt (a b : Qc) : ltb a b = true <-> a < b.
Proof.
  unfold ltb, Qclt. rewrite negb_true_iff. split.
  - intros H. apply Qnot_le_lt. intros Hle. apply Qle_bool_iff in Hle.
    congruence.
  - intros H. destruct (Qle_bool b a) eqn:E; [ | reflexivity ].
    apply Qle_bool_iff in E. exfalso. apply (Qlt_not_le _ _ H E).
Qed.

Lemma ltb_ge (a b : Qc) : ltb a b = false <-> b <= a.
Proof.
  split.
  - intros H. apply Qcnot_lt_le. intros Hlt. apply ltb_lt in Hlt. congruence.
  - intros H. destruct (ltb a b) eqn:E; [ | reflexivity ].
    apply ltb_lt in E. exfalso. exact (Qclt_not_le _ _ E H).
Qed.

Lemma sub_neg (a b : Qc) : a - b < 0 <-> a < b.
Proof.
  split; intros H.
  - apply Qclt_minus_iff in H. apply Qclt_minus_iff.
    replace (b + - a) with (0 + - (a - b)) by ring. exact H.
  - apply Qclt_minus_iff in H. apply Qclt_minus_iff.
    replace (0 + - (a - b)) with (b + - a) by ring. exact H.
Qed.

Lemma sub_zero (a b : Qc) : a - b = 0 <-> a = b.
Proof.
  split; intros H.
  - replace a with (a - b + b) by ring. rewrite H. ring.
  - subst. ring.
Qed.

Lemma lt_irrefl (a : Qc) : ~ a < a.
Proof. intros H. apply (Qclt_not_le _ _ H). apply Qcle_refl. Qed.

Lemma lt_shift (a b d : Qc) : a + d < b + d <-> a < b.
Proof.
  split; intros H; apply Qclt_minus_iff in H; apply Qclt_minus_iff.
  - replace (b + - a) with (b + d + - (a + d)) by ring. exact H.
  - replace (b + d + - (a + d)) with (b + - a) by ring. exact H.
Qed.

Lemma ltb_shift (a b d : Qc) : ltb (a + d) (b + d) = ltb a b.
Proof.
  destruct (ltb a b) eqn:E.
  - apply ltb_lt. apply (proj2 (lt_shift _ _ _)). apply ltb_lt. exact E.
  - destruct (ltb (a + d) (b + d)) eqn:E'; [ | reflexivity ].
    apply ltb_lt in E'. apply (proj1 (lt_shift _ _ _)) in E'.
    apply ltb_lt in E'. congruence.
Qed.

Lemma eqb_shift (a b d : Qc) : eqb (a + d) (b + d) = eqb a b.
Proof.
  destruct (eqb a b) eqn:E.
  - apply eqb_eq in E. subst. apply eqb_refl.
  - apply eqb_neq. apply eqb_neq in E. intros H. apply E.
    replace a with (a + d - d) by ring. rewrite H. ring.
Qed.

(** The three outcomes of comparing two numbers, with what the boolean
    tests answer in each. *)
Lemma compare_cases (a b : Qc) :
  (a < b /\ ltb a b = true /\ ltb b a = false /\ eqb a b = false)
  \/ (a = b /\ ltb a b = false /\ ltb b a = false /\ eqb a b = true)
  \/ (b < a /\ ltb a b = false /\ ltb b a = true /\ eqb a b = false).
Proof.
  destruct (Qc_dec a b) as [[H | H] | H].
  - left. repeat split;
      [ exact H | apply ltb_lt; exact H
      | apply ltb_ge; apply Qclt_le_weak; exact H | ].
    apply eqb_neq. intros ->. exact (lt_irrefl _ H).
  - right. right. repeat split;
      [ exact H | apply ltb_ge; apply Qclt_le_weak; exact H
      | apply ltb_lt; exact H | ].
    apply eqb_neq. intros ->. exact (lt_irrefl _ H).
  - right. left. subst. repeat split;
      [ apply ltb_ge, Qcle_refl | apply ltb_ge, Qcle_refl | apply eqb_refl ].
Qed.

(** [a || d] keeps a number that is not [0], and [0 || 0] is [0]. *)
Lemma num_or_some (a d : Qc) : (a = 0 -> d = 0) -> num_or (Some a) d = a.
Proof.
  intros H. unfold num_or. destruct (eqb a 0) eqn:E; [ | reflexivity ].
  apply eqb_eq in E. rewrite (H E). symmetry. exact E.
Qed.

Lemma num_or_zero (a : Qc) : num_or (Some a) 0 = a.
Proof. apply num_or_some. intros _. reflexivity. Qed.

Lemma or_num_nonzero (a d : Qc) : d <> 0 -> or_num a d <> 0.
Proof.
  intros Hd. unfold or_num. destruct (eqb a 0) eqn:E.
  - exact Hd.
  - apply eqb_neq. exact E.
Qed.

End NumFacts.

(** ** History *)

Module HistoryProps.
Import Js History.

(** A deep clone of plain data is the same data. *)
Fixpoint deepClone_id (v : JsVal) : Utils.deepClone v = v.
Proof.
  destruct v as [ | | b | n | s | items | props ]; simpl; try reflexivity.
  - f_equal. induction items as [ | a items IH ]; simpl.
    + reflexivity.
    + rewrite (deepClone_id a), IH. reflexivity.
  - f_equal. induction props as [ | [k a] props IH ]; simpl.
    + reflexivity.
    + rewrite (deepClone_id a), IH. reflexivity.
Qed.

Lemma deepCloneState_id (s : HistoryState) : deepCloneState s = s.
Proof.
  destruct s as [objs ids]. unfold deepCloneState. simpl. f_equal.
  - induction objs as [ | a objs IH ]; simpl.
    + reflexivity.
    + rewrite deepClone_id, IH. reflexivity.
  - apply map_id.
Qed.

Lemma pop_snoc {A : Type} (l : list A) (a : A) : pop (l ++ [a]) = (Some a, l).
Proof.
  induction l as [ | b l IH ]; simpl.
  - reflexivity.
  - rewrite IH. destruct (l ++ [a]) eqn:E.
    + destruct l; discriminate.
    + reflexivity.
Qed.

Lemma pop_nonempty {A : Type} (l : list A) :
  l <> [] -> exists a l', l = l' ++ [a] /\ pop l = (Some a, l').
Proof.
  intros H. destruct (exists_last H) as [l' [a E]].
  exists a, l'. split; [ exact E | rewrite E; apply pop_snoc ].
Qed.

(** One push, on a manager that records. *)
Lemma push_spec (h : HistoryManager) (s : HistoryState) :
  isApplying h = false ->
  (List.length (undoStack h) <= maxSize h)%nat ->
  undoStack (push h s)
  = skipn (List.length (undoStack h ++ [s]) - maxSize h) (undoStack h ++ [s])
  /\ maxSize (push h s) = maxSize h
  /\ isApplying (push h s) = false
  /\ redoStack (push h s) = [].
Proof.
  intros Happ Hlen. unfold push. rewrite Happ, deepCloneState_id.
  cbn [undoStack maxSize isApplying redoStack].
  rewrite length_app. cbn [List.length].
  destruct (Nat.ltb_spec (maxSize h) (List.length (undoStack h) + 1)) as [Hlt | Hge].
  - replace (List.length (undoStack h) + 1 - maxSize h)%nat with 1%nat by lia.
    repeat split.
  - replace (List.length (undoStack h) + 1 - maxSize h)%nat with 0%nat by lia.
    repeat split.
Qed.

Lemma skipn_app_le {A : Type} (n : nat) (l l' : list A) :
  (n <= List.length l)%nat -> skipn n (l ++ l') = skipn n l ++ l'.
Proof.
  intros H. rewrite skipn_app.
  replace (n - List.length l)%nat with 0%nat by lia.
  reflexivity.
Qed.

(** After any sequence of pushes onto a manager that records and whose undo
    stack is within the capacity, the undo stack is the last [maxSize]
    entries of the old stack followed by the pushed states. *)
Lemma pushAll_undoStack (states : list HistoryState) :
  forall h,
    isApplying h = false ->
    (List.length (undoStack h) <= maxSize h)%nat ->
    undoStack (pushAll h states)
    = skipn (List.length (undoStack h ++ states) - maxSize h)
        (undoStack h ++ states)
    /\ maxSize (pushAll h states) = maxSize h.
Proof.
  induction states as [ | s states IH ]; intros h Happ Hlen.
  - simpl. rewrite app_nil_r.
    replace (List.length (undoStack h) - maxSize h)%nat with 0%nat by lia.
    split; reflexivity.
  - destruct (push_spec h s Happ Hlen) as [Hu [Hm [Ha _]]].
    assert (Hlen' : (List.length (undoStack (push h s)) <= maxSize (push h s))%nat).
    { rewrite Hu, Hm, length_skipn, length_app. simpl. lia. }
    destruct (IH (push h s) Ha Hlen') as [IHu IHm].
    change (pushAll h (s :: states)) with (pushAll (push h s) states).
    rewrite IHu, IHm, Hm. split; [ | reflexivity ].
    rewrite Hu.
    set (u := undoStack h) in *.
    set (m := maxSize h) in *.
    set (d := (List.length (u ++ [s]) - m)%nat).
    assert (Hd : (d <= List.length (u ++ [s]))%nat) by (unfold d; lia).
    rewrite <- skipn_app_le by exact Hd.
    rewrite skipn_skipn.
    replace ((u ++ [s]) ++ states) with (u ++ s :: states)
      by (rewrite <- app_assoc; reflexivity).
    f_equal.
    rewrite length_skipn. fold d.
    unfold d. rewrite !length_app. simpl. rewrite length_app in Hd.
    simpl in *. lia.
Qed.

(** C2. On a manager whose undo stack is not empty, [undo(s)] returns a state
    and [redo()] right after it returns [s] itself, not [null]: the state
    handed to [undo] went through [deepClone] only, so every serialization of
    the returned state is that of [s]. The undo stack is then the old one
    without its top, which [undo] returned. *)
Theorem undo_then_redo_restores (h : HistoryManager) (s : HistoryState) :
  undoStack h <> [] ->
  exists previous rest,
    undoStack h = rest ++ [previous]
    /\ fst (undo h s) = Some previous
    /\ fst (redo (snd (undo h s))) = Some s
    /\ redoStack (snd (redo (snd (undo h s)))) = redoStack h
    /\ undoStack (snd (redo (snd (undo h s)))) = rest.
Proof.
  intros Hne.
  destruct (pop_nonempty (undoStack h) Hne) as [previous [rest [E Hpop]]].
  exists previous, rest. split; [ exact E | ].
  unfold undo. rewrite Hpop.
  destruct (undoStack h) as [ | a u ] eqn:Hu; [ contradiction | ].
  cbn [fst snd]. split; [ reflexivity | ].
  unfold redo. cbn [redoStack undoStack maxSize isApplying].
  rewrite pop_snoc, deepCloneState_id.
  destruct (redoStack h ++ [s]) eqn:Hr.
  - destruct (redoStack h); discriminate.
  - cbn [fst snd redoStack undoStack]. repeat split.
Qed.

Lemma undo_then_redo_restores_witness :
  let s0 := mkState [JObj [("id", JStr "a"); ("x", JNum 0)]] ["a"] in
  let s1 := mkState [JObj [("id", JStr "a"); ("x", JNum 1)]] [] in
  let h := push (new None) s0 in
  exists previous rest,
    undoStack h = rest ++ [previous]
    /\ fst (undo h s1) = Some previous
    /\ fst (redo (snd (undo h s1))) = Some s1
    /\ redoStack (snd (redo (snd (undo h s1)))) = redoStack h
    /\ undoStack (snd (redo (snd (undo h s1)))) = rest.
Proof.
  intros s0 s1 h. apply (undo_then_redo_restores h s1). discriminate.
Defined.

(** C3. Pushing [maxSize + k] states, [k >= 1], onto a new manager of capacity
    [maxSize] leaves exactly [maxSize] entries on the undo stack: the last
    [maxSize] states pushed, in the order of pushing; the first [k] are
    gone. *)
Theorem push_keeps_last_maxSize (capacity k : nat) (states : list HistoryState) :
  (1 <= k)%nat ->
  List.length states = (capacity + k)%nat ->
  let h := pushAll (new (Some capacity)) states in
  undoStack h = skipn k states
  /\ List.length (undoStack h) = capacity
  /\ states = firstn k states ++ undoStack h.
Proof.
  intros Hk Hlen h.
  destruct (pushAll_undoStack states (new (Some capacity)) eq_refl (Nat.le_0_l _))
    as [Hu _].
  cbn [new undoStack maxSize defined_or app] in Hu.
  assert (E : undoStack h = skipn k states).
  { unfold h. rewrite Hu. f_equal. lia. }
  split; [ exact E | ]. split.
  - rewrite E, length_skipn. lia.
  - rewrite E. symmetry. apply firstn_skipn.
Qed.

Lemma push_keeps_last_maxSize_witness :
  let st := fun n => mkState [JNum (Q2Qc (inject_Z n))] [] in
  let states := [st 1%Z; st 2%Z; st 3%Z; st 4%Z; st 5%Z] in
  let h := pushAll (new (Some 3%nat)) states in
  undoStack h = skipn 2 states
  /\ List.length (undoStack h) = 3%nat
  /\ states = firstn 2 states ++ undoStack h.
Proof.
  intros st states. apply (push_keeps_last_maxSize 3 2 states).
  - lia.
  - reflexivity.
Defined.

(** C4. While the applying flag is set, [push] changes nothing: the manager
    after the call is the manager before it, undo stack, redo stack, capacity
    and flag. That is the case from [beginApply] on. *)
Theorem push_while_applying_is_noop (h : HistoryManager) (s : HistoryState) :
  isApplying h = true ->
  push h s = h
  /\ push (beginApply h) s = beginApply h.
Proof.
  intros H. unfold push. rewrite H. cbn [beginApply isApplying].
  split; reflexivity.
Qed.

Lemma push_while_applying_is_noop_witness :
  let s0 := mkState [JStr "before"] [] in
  let s1 := mkState [JStr "restored"] ["a"] in
  let h := beginApply (push (new None) s0) in
  push h s1 = h /\ push (beginApply h) s1 = beginApply h.
Proof.
  intros s0 s1 h. apply (push_while_applying_is_noop h s1). reflexivity.
Defined.

End HistoryProps.

(** ** Boolean operations *)

Module BooleanProps.
Import Js Objects BooleanOperations Fixtures NumFacts.

(** The two ways a comparator that returns [a - b] decides. *)
Lemma sign_lt (a b : Qc) : a < b -> eqb a b = false /\ ltb (a - b) 0 = true.
Proof.
  intros H. split.
  - destruct (eqb a b) eqn:E; [ | reflexivity ].
    apply eqb_eq in E. subst. exfalso. exact (lt_irrefl _ H).
  - apply ltb_lt. apply (proj2 (sub_neg _ _)). exact H.
Qed.

Lemma sign_gt (a b : Qc) : b < a -> eqb a b = false /\ ltb (a - b) 0 = false.
Proof.
  intros H. split.
  - destruct (eqb a b) eqn:E; [ | reflexivity ].
    apply eqb_eq in E. subst. exfalso. exact (lt_irrefl _ H).
  - destruct (ltb (a - b) 0) eqn:E; [ | reflexivity ].
    apply ltb_lt in E. apply (proj1 (sub_neg _ _)) in E. exfalso.
    exact (lt_irrefl _ (Qclt_trans _ _ _ H E)).
Qed.

Lemma point_eqb_eq (p q : Point) : point_eqb p q = true -> p = q.
Proof.
  destruct p, q. unfold point_eqb. simpl. intros H.
  apply andb_prop in H. destruct H as [H1 H2].
  apply eqb_eq in H1. apply eqb_eq in H2. subst. reflexivity.
Qed.

Lemma points_eqb_eq (l : list Point) :
  forall l', points_eqb l l' = true -> l = l'.
Proof.
  induction l as [ | p l IH ]; intros [ | q l' ] H; simpl in H;
    try discriminate.
  - reflexivity.
  - apply andb_prop in H. destruct H as [H1 H2].
    apply point_eqb_eq in H1. apply IH in H2. subst. reflexivity.
Qed.

(** [perms] misses no order. *)
Lemma insert_everywhere_in {A : Type} (a : A) (l1 l2 : list A) :
  In (l1 ++ a :: l2) (insert_everywhere a (l1 ++ l2)).
Proof.
  induction l1 as [ | b l1 IH ]; simpl.
  - destruct l2; simpl; left; reflexivity.
  - right. apply in_map. exact IH.
Qed.

Lemma perms_complete {A : Type} (l : list A) :
  forall l', Permutation l' l -> In l' (perms l).
Proof.
  induction l as [ | a l IH ]; intros l' H; simpl.
  - apply Permutation_sym, Permutation_nil in H. subst. left. reflexivity.
  - assert (Hin : In a l').
    { apply (Permutation_in a (Permutation_sym H)). left. reflexivity. }
    destruct (in_split a l' Hin) as [l1 [l2 E]]. subst l'.
    apply Permutation_sym, Permutation_cons_app_inv, Permutation_sym in H.
    apply in_flat_map. exists (l1 ++ l2). split.
    + apply IH. exact H.
    + apply insert_everywhere_in.
Qed.

(** The sort looks at its comparator only through the sign of its results
    on the elements of the array. *)
Lemma insert_sorted_ext {A : Type} (f g : A -> A -> Qc) (a : A) (l : list A) :
  (forall b, In b l -> ltb (f a b) 0 = ltb (g a b) 0) ->
  insert_sorted f a l = insert_sorted g a l.
Proof.
  induction l as [ | b l IH ]; intros H; simpl.
  - reflexivity.
  - rewrite (H b (or_introl eq_refl)).
    destruct (ltb (g a b) 0); [ reflexivity | ].
    f_equal. apply IH. intros c Hc. apply H. right. exact Hc.
Qed.

Lemma insert_sorted_in {A : Type} (f : A -> A -> Qc) (a b : A) (l : list A) :
  In b (insert_sorted f a l) -> b = a \/ In b l.
Proof.
  induction l as [ | c l IH ]; simpl.
  - intros [H | []]. left. symmetry. exact H.
  - destruct (ltb (f a c) 0); simpl.
    + intros [H | H]; [ left; symmetry; exact H | right; exact H ].
    + intros [H | H]; [ right; left; exact H | ].
      destruct (IH H) as [H' | H']; [ left; exact H' | right; right; exact H' ].
Qed.

Lemma sort_fold_ext {A : Type} (f g : A -> A -> Qc) (l : list A) :
  forall acc,
    (forall a b, In a l -> In b (acc ++ l) -> ltb (f a b) 0 = ltb (g a b) 0) ->
    fold_left (fun sorted a => insert_sorted f a sorted) l acc
    = fold_left (fun sorted a => insert_sorted g a sorted) l acc.
Proof.
  induction l as [ | a l IH ]; intros acc H; simpl.
  - reflexivity.
  - rewrite (insert_sorted_ext f g a acc).
    + apply IH. intros a' b Ha' Hb. apply H.
      * right. exact Ha'.
      * apply in_app_or in Hb. apply in_or_app. destruct Hb as [Hb | Hb].
        -- apply insert_sorted_in in Hb. destruct Hb as [-> | Hb].
           ++ right. left. reflexivity.
           ++ left. exact Hb.
        -- right. right. exact Hb.
    + intros b Hb. apply H.
      * left. reflexivity.
      * apply in_or_app. left. exact Hb.
Qed.

Lemma sort_ext {A : Type} (f g : A -> A -> Qc) (l : list A) :
  (forall a b, In a l -> In b l -> ltb (f a b) 0 = ltb (g a b) 0) ->
  sort f l = sort g l.
Proof.
  intros H. unfold sort. apply sort_fold_ext. simpl. exact H.
Qed.

(** Two instances of [Math.atan2] that order the points to sort alike give
    the same hull. *)
Lemma convexHull_ext (f g : Qc -> Qc -> Qc) (points : list Point) :
  (forall a b, In a (tl (swapped points)) -> In b (tl (swapped points)) ->
     ltb (by_angle f (at_index (swapped points) 0) a b) 0
     = ltb (by_angle g (at_index (swapped points) 0) a b) 0) ->
  convexHull f points = convexHull g points.
Proof.
  intros H. unfold convexHull.
  destruct (List.length points <? 3)%nat; [ reflexivity | ].
  fold (swapped points).
  rewrite (sort_ext _ _ _ H). reflexivity.
Qed.

(** In whatever order the five points come, the pivot is [(0, 0)] and the
    scan run with [diamond_angle] returns the four corners. *)
Lemma every_order_scanned :
  forallb
    (fun l => pivot_is_p00 l
              && points_eqb (convexHull diamond_angle l) square)
    (perms square_and_centre)
  = true.
Proof. vm_compute. reflexivity. Qed.

(** The scan commutes with a translation of the points: every test of
    [convexHull] looks at differences of coordinates only. *)
Section Translation.

Variable Math_atan2 : Qc -> Qc -> Qc.
Variables dx dy : Qc.
Local Abbreviation T := (translate dx dy).

Lemma at_index_map (l : list Point) (i : nat) :
  (i < List.length l)%nat -> at_index (List.map T l) i = T (at_index l i).
Proof.
  intros H. unfold at_index.
  rewrite (nth_indep _ origin (T origin)) by (rewrite length_map; exact H).
  apply map_nth.
Qed.

Lemma find_lowest_step_inv (l : list Point) (idx : list nat) :
  forall lowest,
    (lowest < List.length l)%nat ->
    (forall i, In i idx -> (i < List.length l)%nat) ->
    let step := fun (m : list Point) (lowest i : nat) =>
      if ltb (py (at_index m i)) (py (at_index m lowest))
         || (eqb (py (at_index m i)) (py (at_index m lowest))
             && ltb (px (at_index m i)) (px (at_index m lowest)))
      then i else lowest in
    fold_left (step (List.map T l)) idx lowest = fold_left (step l) idx lowest
    /\ (fold_left (step l) idx lowest < List.length l)%nat.
Proof.
  induction idx as [ | i idx IH ]; intros lowest Hl Hidx step; cbn [fold_left].
  - split; [ reflexivity | exact Hl ].
  - assert (Hi : (i < List.length l)%nat) by (apply Hidx; left; reflexivity).
    assert (E : step (List.map T l) lowest i = step l lowest i).
    { unfold step. rewrite !at_index_map by assumption.
      unfold translate. cbn [px py].
      rewrite !ltb_shift, eqb_shift. reflexivity. }
    rewrite E. apply IH.
    + unfold step. destruct (_ || _); assumption.
    + intros j Hj. apply Hidx. right. exact Hj.
Qed.

Lemma find_lowest_map (l : list Point) :
  l <> [] ->
  find_lowest (List.map T l) = find_lowest l
  /\ (find_lowest l < List.length l)%nat.
Proof.
  intros Hne. unfold find_lowest. rewrite length_map.
  apply find_lowest_step_inv.
  - destruct l; [ contradiction | cbn; lia ].
  - intros i Hi. apply in_seq in Hi. lia.
Qed.

Lemma set_nth_map (i : nat) (v : Point) (l : list Point) :
  set_nth i (T v) (List.map T l) = List.map T (set_nth i v l).
Proof.
  revert i. induction l as [ | a l IH ]; intros [ | i ]; cbn; try reflexivity.
  rewrite IH. reflexivity.
Qed.

Lemma length_set_nth (i : nat) (v : Point) (l : list Point) :
  List.length (set_nth i v l) = List.length l.
Proof.
  revert i. induction l as [ | a l IH ]; intros [ | i ]; cbn; try reflexivity.
  rewrite IH. reflexivity.
Qed.

Lemma swapped_map (l : list Point) :
  l <> [] -> swapped (List.map T l) = List.map T (swapped l).
Proof.
  intros Hne. unfold swapped.
  destruct (find_lowest_map l Hne) as [E Hlt]. rewrite E.
  rewrite (at_index_map l (find_lowest l)) by exact Hlt.
  rewrite (at_index_map l 0) by (destruct l; [ contradiction | cbn; lia ]).
  rewrite !set_nth_map. reflexivity.
Qed.

Lemma by_angle_translate (p a b : Point) :
  by_angle Math_atan2 (T p) (T a) (T b) = by_angle Math_atan2 p a b.
Proof.
  unfold by_angle, translate. cbn [px py].
  replace (py a + dy - (py p + dy)) with (py a - py p) by ring.
  replace (px a + dx - (px p + dx)) with (px a - px p) by ring.
  replace (py b + dy - (py p + dy)) with (py b - py p) by ring.
  replace (px b + dx - (px p + dx)) with (px b - px p) by ring.
  reflexivity.
Qed.

Lemma insert_sorted_map (p a : Point) (l : list Point) :
  insert_sorted (by_angle Math_atan2 (T p)) (T a) (List.map T l)
  = List.map T (insert_sorted (by_angle Math_atan2 p) a l).
Proof.
  induction l as [ | b l IH ]; cbn; [ reflexivity | ].
  rewrite by_angle_translate.
  destruct (ltb (by_angle Math_atan2 p a b) 0); cbn; [ reflexivity | ].
  rewrite IH. reflexivity.
Qed.

Lemma sort_map (p : Point) (l : list Point) :
  sort (by_angle Math_atan2 (T p)) (List.map T l) = List.map T (sort (by_angle Math_atan2 p) l).
Proof.
  unfold sort.
  change (@nil Point) with (List.map T []) at 1.
  generalize (@nil Point) as acc.
  induction l as [ | a l IH ]; intros acc; cbn; [ reflexivity | ].
  rewrite insert_sorted_map. apply IH.
Qed.

Lemma cross_translate (s t p : Point) : cross (T s) (T t) (T p) = cross s t p.
Proof. unfold cross, translate. cbn [px py]. ring. Qed.

Lemma pop_while_map (p : Point) (hull : list Point) :
  pop_while (T p) (List.map T hull) = List.map T (pop_while p hull).
Proof.
  induction hull as [ | t hull IH ]; cbn; [ reflexivity | ].
  destruct hull as [ | s hull ]; cbn; [ reflexivity | ].
  rewrite cross_translate.
  destruct (leb (cross s t p) 0); [ | reflexivity ].
  exact IH.
Qed.

Lemma scan_map (sorted hull : list Point) :
  fold_left (fun hull point => point :: pop_while point hull)
    (List.map T sorted) (List.map T hull)
  = List.map T
      (fold_left (fun hull point => point :: pop_while point hull) sorted hull).
Proof.
  revert hull. induction sorted as [ | a sorted IH ]; intros hull; cbn; [ reflexivity | ].
  rewrite pop_while_map. apply (IH (a :: pop_while a hull)).
Qed.

Lemma convexHull_translate (l : list Point) :
  convexHull Math_atan2 (List.map T l) = List.map T (convexHull Math_atan2 l).
Proof.
  unfold convexHull. rewrite length_map.
  destruct (List.length l <? 3)%nat eqn:E; [ reflexivity | ].
  assert (Hne : l <> []) by (intros ->; discriminate E).
  fold (swapped (List.map T l)). fold (swapped l).
  rewrite swapped_map by exact Hne.
  assert (H0 : (0 < List.length (swapped l))%nat).
  { unfold swapped. rewrite !length_set_nth.
    destruct l; [ contradiction | cbn; lia ]. }
  rewrite at_index_map by exact H0.
  rewrite map_rev. f_equal.
  replace (tl (List.map T (swapped l))) with (List.map T (tl (swapped l)))
    by (destruct (swapped l); reflexivity).
  rewrite sort_map.
  apply (scan_map _ [at_index (swapped l) 0]).
Qed.
End Translation.

Section UnitSquare.

Variable Math_atan2 : Qc -> Qc -> Qc.

(** The angles of the four directions from the pivot [(0, 0)]: along the x
    axis, to the centre, to the opposite corner, along the y axis. *)
Hypothesis east_below_diagonal : Math_atan2 0 1 < Math_atan2 half half.
Hypothesis diagonal : Math_atan2 half half = Math_atan2 1 1.
Hypothesis diagonal_below_north : Math_atan2 1 1 < Math_atan2 1 0.

Lemma by_angle_agrees (a b : Point) :
  In a off_pivot -> In b off_pivot ->
  ltb (by_angle Math_atan2 p00 a b) 0 = ltb (by_angle diamond_angle p00 a b) 0.
Proof.
  assert (E1 : 1 - 0 = 1) by ring.
  assert (E0 : 0 - 0 = 0) by ring.
  assert (Eh : half - 0 = half) by ring.
  assert (H02 : Math_atan2 0 1 < Math_atan2 1 1)
    by (rewrite <- diagonal; exact east_below_diagonal).
  assert (H13 : Math_atan2 half half < Math_atan2 1 0)
    by (rewrite diagonal; exact diagonal_below_north).
  assert (H03 : Math_atan2 0 1 < Math_atan2 1 0)
    by (eapply Qclt_trans; eassumption).
  unfold off_pivot. simpl.
  intros [<- | [<- | [<- | [<- | []]]]] [<- | [<- | [<- | [<- | []]]]];
    unfold by_angle, p00, p10, p11, p01, centre; cbn [px py];
    rewrite ?E1, ?E0, ?Eh.
  all: match goal with
       | |- _ = ?r => let v := eval vm_compute in r in change r with v
       end.
  all: try (rewrite (proj2 (eqb_eq _ _) eq_refl); cbn [negb];
            vm_compute; reflexivity).
  all: try (rewrite (proj2 (eqb_eq _ _) diagonal); cbn [negb];
            vm_compute; reflexivity).
  all: try (rewrite (proj2 (eqb_eq _ _) (eq_sym diagonal)); cbn [negb];
            vm_compute; reflexivity).
  all: first
         [ destruct (sign_lt _ _ east_below_diagonal) as [Ha Hb]; rewrite Ha; exact Hb
         | destruct (sign_lt _ _ H02) as [Ha Hb]; rewrite Ha; exact Hb
         | destruct (sign_lt _ _ H03) as [Ha Hb]; rewrite Ha; exact Hb
         | destruct (sign_lt _ _ H13) as [Ha Hb]; rewrite Ha; exact Hb
         | destruct (sign_lt _ _ diagonal_below_north) as [Ha Hb]; rewrite Ha; exact Hb
         | destruct (sign_gt _ _ east_below_diagonal) as [Ha Hb]; rewrite Ha; exact Hb
         | destruct (sign_gt _ _ H02) as [Ha Hb]; rewrite Ha; exact Hb
         | destruct (sign_gt _ _ H03) as [Ha Hb]; rewrite Ha; exact Hb
         | destruct (sign_gt _ _ H13) as [Ha Hb]; rewrite Ha; exact Hb
         | destruct (sign_gt _ _ diagonal_below_north) as [Ha Hb]; rewrite Ha; exact Hb ].
Qed.

(** The canonical case: the square with its corner at the origin. *)
Lemma convexHull_square_at_origin (points : list Point) :
  Permutation points square_and_centre ->
  convexHull Math_atan2 points = square.
Proof.
  intros HP. apply perms_complete in HP.
  pose proof every_order_scanned as Hall. rewrite forallb_forall in Hall.
  specialize (Hall points HP). apply andb_prop in Hall.
  destruct Hall as [Hok Hhull].
  apply points_eqb_eq in Hhull.
  unfold pivot_is_p00 in Hok. apply andb_prop in Hok. destruct Hok as [Hp Hr].
  apply point_eqb_eq in Hp. rewrite forallb_forall in Hr.
  rewrite <- Hhull. apply convexHull_ext. rewrite Hp. intros a b Ha Hb.
  apply by_angle_agrees.
  - specialize (Hr a Ha). apply existsb_exists in Hr.
    destruct Hr as [c [Hc Ec]]. apply point_eqb_eq in Ec. subst. exact Hc.
  - specialize (Hr b Hb). apply existsb_exists in Hr.
    destruct Hr as [c [Hc Ec]]. apply point_eqb_eq in Ec. subst. exact Hc.
Qed.

Lemma square_at_translate (x0 y0 : Qc) :
  List.map (translate x0 y0) square = square_at x0 y0
  /\ translate x0 y0 centre = centre_at x0 y0.
Proof.
  assert (P : forall a b c d : Qc, a = c -> b = d -> mkPoint a b = mkPoint c d)
    by (intros; subst; reflexivity).
  unfold square, square_at, centre, centre_at, translate, p00, p10, p11, p01.
  cbn [List.map px py].
  split.
  - repeat (apply f_equal2; [ apply P; ring | ]). reflexivity.
  - apply P; ring.
Qed.

(** C10. The Graham scan of the four corners of a unit square and its
    centre, given in any order, returns exactly the four corners, counter
    clockwise from the pivot, the corner [(x0, y0)]; the centre is not on the
    hull. The host's [Math.atan2] enters through the order of the four
    directions from the pivot only: [atan2(0, 1) < atan2(.5, .5) =
    atan2(1, 1) < atan2(1, 0)]. *)
Theorem convexHull_unit_square (x0 y0 : Qc) (points : list Point) :
  Permutation points (square_at x0 y0 ++ [centre_at x0 y0]) ->
  convexHull Math_atan2 points = square_at x0 y0
  /\ ~ In (centre_at x0 y0) (convexHull Math_atan2 points).
Proof.
  destruct (square_at_translate x0 y0) as [Esq Ec].
  intros HP.
  assert (HP' : Permutation points
                  (List.map (translate x0 y0) square_and_centre)).
  { unfold square_and_centre.
    change [p00; p10; p11; p01; centre] with (square ++ [centre]).
    rewrite map_app. cbn [List.map]. rewrite Esq, Ec. exact HP. }
  apply Permutation_map_inv in HP'. destruct HP' as [l0 [-> HP0]].
  assert (E : convexHull Math_atan2 (List.map (translate x0 y0) l0)
              = square_at x0 y0).
  { rewrite convexHull_translate.
    rewrite (convexHull_square_at_origin l0 (Permutation_sym HP0)).
    exact Esq. }
  split; [ exact E | ].
  rewrite E. unfold square_at, centre_at. cbn [In].
  assert (Hh : half <> 0) by discriminate.
  assert (Hh1 : half <> 1) by discriminate.
  intros [H | [H | [H | [H | []]]]];
    pose proof (f_equal px H) as Hx; pose proof (f_equal py H) as Hy;
    cbn [px py] in Hx, Hy.
  - apply Hh. replace half with (x0 + half - x0) by ring. rewrite <- Hx. ring.
  - apply Hh. replace half with (y0 + half - y0) by ring. rewrite <- Hy. ring.
  - apply Hh1. replace half with (y0 + half - y0) by ring. rewrite <- Hy. ring.
  - apply Hh. replace half with (x0 + half - x0) by ring. rewrite <- Hx. ring.
Qed.

End UnitSquare.

Lemma convexHull_unit_square_witness :
  convexHull diamond_angle
    ([centre_at (Q2Qc 3) (- Q2Qc 2)] ++ rev (square_at (Q2Qc 3) (- Q2Qc 2)))
  = square_at (Q2Qc 3) (- Q2Qc 2)
  /\ ~ In (centre_at (Q2Qc 3) (- Q2Qc 2))
         (convexHull diamond_angle
            ([centre_at (Q2Qc 3) (- Q2Qc 2)]
             ++ rev (square_at (Q2Qc 3) (- Q2Qc 2)))).
Proof.
  apply (convexHull_unit_square diamond_angle).
  - reflexivity.
  - apply Qc_is_canon. reflexivity.
  - reflexivity.
  - apply (perm_trans (l' := [centre_at (Q2Qc 3) (- Q2Qc 2)]
                             ++ square_at (Q2Qc 3) (- Q2Qc 2))).
    + apply Permutation_app_head. apply Permutation_sym, Permutation_rev.
    + apply Permutation_app_comm.
Defined.

Lemma includes_In (l : list string) (t : string) :
  includes l t = true <-> In t l.
Proof.
  unfold includes. rewrite existsb_exists. split.
  - intros [u [Hu E]]. apply String.eqb_eq in E. subst. exact Hu.
  - intros H. exists t. split; [ exact H | apply String.eqb_refl ].
Qed.

Section InvalidSelection.

Variable Math_atan2 : Qc -> Qc -> Qc.
Variable Math_cos : Qc -> Qc.
Variable Math_sin : Qc -> Qc.
Variable Math_PI : Qc.
Variable App : Type.
Variable selectedObjects : App -> list DesignObject.
Variable saveState : App -> App.
Variable removeObject : App -> DesignObject -> App.
Variable addObject : App -> DesignObject -> App.
Variable selectObjects : App -> list DesignObject -> App.

(** C9. Whatever the operation asked for: when the selection is not made of
    exactly two objects, or one of the two has a type other than
    ['rectangle'], ['ellipse'], ['path'], [performOperation] returns [null],
    writes one warning, and the application is the one it was given: none of
    [saveState], [removeObject], [addObject], [selectObjects] ran, and no
    identifier was drawn. *)
Theorem performOperation_invalid_selection (app : App) (operation : string)
    (w : World) :
  (List.length (selectedObjects app) <> 2%nat
   \/ exists obj1 obj2,
        selectedObjects app = [obj1; obj2]
        /\ (~ In (type_of obj1) validTypes \/ ~ In (type_of obj2) validTypes)) ->
  exists warning,
    performOperation Math_atan2 Math_cos Math_sin Math_PI App selectedObjects
      saveState removeObject addObject selectObjects app operation w
    = (mkOutcome App None app [warning], w).
Proof.
  intros H. unfold performOperation.
  destruct (selectedObjects app) as [ | o1 [ | o2 [ | o3 rest ] ] ] eqn:Hsel.
  - eexists. reflexivity.
  - eexists. reflexivity.
  - destruct H as [H | [obj1 [obj2 [E Hbad]]]].
    + exfalso. apply H. reflexivity.
    + injection E as <- <-.
      assert (Hb : negb (includes validTypes (type_of o1))
                   || negb (includes validTypes (type_of o2)) = true).
      { apply orb_true_iff. destruct Hbad as [Hbad | Hbad]; [ left | right ];
          apply negb_true_iff;
          destruct (includes validTypes _) eqn:Ei; try reflexivity;
          apply includes_In in Ei; contradiction. }
      rewrite Hb. eexists. reflexivity.
  - eexists. reflexivity.
Qed.

End InvalidSelection.

Lemma performOperation_invalid_selection_witness :
  exists warning,
    performOperation diamond_angle (fun a => a) (fun a => a) (Q2Qc 3) TestApp
      selection
      (fun app => mkTestApp (document app) (selection app) (S (snapshots app)))
      (fun app obj => app)
      (fun app obj => mkTestApp (document app ++ [obj]) (selection app) (snapshots app))
      (fun app objs => mkTestApp (document app) objs (snapshots app))
      test_app "union" test_world
    = (mkOutcome TestApp None test_app [warning], test_world).
Proof.
  apply performOperation_invalid_selection.
  right. exists test_rectangle, test_group. split.
  - reflexivity.
  - right. simpl. intros [H | [H | [H | []]]]; discriminate H.
Defined.

End BooleanProps.

(** ** Lines and auto layout *)

Module LayoutProps.
Import Js Objects Fixtures NumFacts.

(** The extent of a line along one axis: the distance of the two
    coordinates, and [1] when they coincide. *)
Lemma extent (a b : Qc) :
  or_num (max a b - min a b) 1 = if eqb a b then 1 else abs (b - a).
Proof.
  unfold or_num, max, min, abs.
  destruct (compare_cases a b)
    as [[H [E1 [E2 E3]]] | [[H [E1 [E2 E3]]] | [H [E1 [E2 E3]]]]];
    rewrite E1, E2, E3.
  - assert (Hn : eqb (b - a) 0 = false).
    { apply eqb_neq. intros Hz. apply (proj1 (sub_zero _ _)) in Hz. subst.
      exact (lt_irrefl _ H). }
    rewrite Hn.
    assert (Hp : ltb (b - a) 0 = false).
    { apply ltb_ge. apply Qclt_le_weak. apply Qclt_minus_iff in H.
      replace (b - a) with (b + - a) by ring. exact H. }
    rewrite Hp. reflexivity.
  - subst. replace (b - b) with 0 by ring.
    rewrite eqb_refl. reflexivity.
  - assert (Hn : eqb (a - b) 0 = false).
    { apply eqb_neq. intros Hz. apply (proj1 (sub_zero _ _)) in Hz. subst.
      exact (lt_irrefl _ H). }
    rewrite Hn.
    assert (Hp : ltb (b - a) 0 = true).
    { apply ltb_lt. apply (proj2 (sub_neg _ _)). exact H. }
    rewrite Hp. ring.
Qed.

(** C7, as the code has it. The bounds of a line are the box of its two
    endpoints, except that an extent of [0] is reported as [1]: [x] and [y]
    are the smaller coordinates, [width] is [|x2 - x1|] when [x1] and [x2]
    differ and [1] when they are equal, and the same for [height]. The stored
    position and size of the line play no part in its bounds. *)
Theorem line_bounds_follow_endpoints (c : Common) (g : Geom)
    (x1 y1 x2 y2 : Qc) :
  bounds (Line c g x1 y1 x2 y2)
  = {| rx := min x1 x2; ry := min y1 y2;
       rwidth := if eqb x1 x2 then 1 else abs (x2 - x1);
       rheight := if eqb y1 y2 then 1 else abs (y2 - y1) |}.
Proof.
  cbn [bounds]. unfold Line_bounds. rewrite !extent. reflexivity.
Qed.

(** C7 as stated fails on a vertical line: from [(0, 0)] to [(0, 5)] the
    width of the bounds is [1], not [|x2 - x1| = 0]. *)
Lemma vertical_line_has_width_one :
  rwidth (bounds vertical_line) = 1
  /\ rwidth (bounds vertical_line) <> abs (0 - 0).
Proof.
  split.
  - apply Qc_is_canon. reflexivity.
  - intros H. apply (f_equal this) in H. vm_compute in H. discriminate H.
Qed.

(** A horizontal layout leaves the widths of the children alone. *)
Lemma get_width_set_x (v : Qc) (o : DesignObject) :
  get_width (set_x v o) = get_width o.
Proof. destruct o; reflexivity. Qed.

Lemma get_width_set_y (v : Qc) (o : DesignObject) :
  get_width (set_y v o) = get_width o.
Proof. destruct o; reflexivity. Qed.

Lemma get_width_set_height (v : Qc) (o : DesignObject) :
  get_width (set_height v o) = get_width o.
Proof. destruct o; reflexivity. Qed.

Lemma place_width (al : AutoLayout.t) (g : Geom) (m pos : Qc)
    (child : DesignObject) :
  get_width (fst (place al true g m pos child)) = get_width child.
Proof.
  unfold place. cbn [fst].
  destruct (AutoLayout.counterAxisAlign al);
    rewrite ?get_width_set_height, ?get_width_set_y, get_width_set_x;
    reflexivity.
Qed.

Lemma place_all_widths (al : AutoLayout.t) (g : Geom) (m : Qc)
    (children : list DesignObject) :
  forall pos,
    List.map get_width (place_all al true g m pos children)
    = List.map get_width children.
Proof.
  induction children as [ | child rest IH ]; intros pos;
    cbn [place_all List.map].
  - reflexivity.
  - pose proof (place_width al g m pos child) as W.
    destruct (place al true g m pos child) as [child' pos']. cbn [fst] in W.
    cbn [List.map]. rewrite W, IH. reflexivity.
Qed.

Lemma Frame_addChild_widths (al : AutoLayout.t) c g children clip r child :
  AutoLayout.direction al = AutoLayout.horizontal ->
  exists g' children',
    Frame_addChild (Frame c g children clip r (Some al)) child
    = Frame c g' children' clip r (Some al)
    /\ List.map get_width children' = List.map get_width (children ++ [child]).
Proof.
  intros Hd. cbn [Frame_addChild Frame_applyAutoLayout AutoLayout_apply].
  unfold apply_layout. rewrite Hd.
  destruct (children ++ [child]) as [ | a l ] eqn:E.
  - destruct children; discriminate.
  - rewrite <- E. destruct (measure true (children ++ [child])) as [ts mc].
    eexists. eexists. split; [ reflexivity | ].
    apply place_all_widths.
Qed.

(** The first loop of [apply] sums the widths. *)
Lemma measure_total (children : list DesignObject) :
  forall ts mc,
    fst (fold_left
           (fun (acc : Qc * Qc) child =>
              let (totalSize, maxCrossSize) := acc in
              (totalSize + get_width child,
               max maxCrossSize (get_height child)))
           children (ts, mc))
    = fold_left Qcplus (List.map get_width children) ts.
Proof.
  induction children as [ | child rest IH ]; intros ts mc;
    cbn [fold_left List.map].
  - reflexivity.
  - apply IH.
Qed.

Lemma hug_width_of_widths (al : AutoLayout.t) (c : Common) (g : Geom)
    (children : list DesignObject) (clip : bool) (r : Qc) :
  AutoLayout.direction al = AutoLayout.horizontal ->
  AutoLayout.primaryAxisSizing al = AutoLayout.hug ->
  AutoLayout.spacing al = Q2Qc 10 ->
  AutoLayout.paddingRight al = 0 -> AutoLayout.paddingLeft al = 0 ->
  List.map get_width children = [Q2Qc 20; Q2Qc 30; Q2Qc 40] ->
  get_width (Frame_applyAutoLayout (Frame c g children clip r (Some al)))
  = Q2Qc 110.
Proof.
  intros Hd Hs Hsp Hr Hl Hw.
  assert (Hlen : List.length children = 3%nat).
  { rewrite <- (length_map get_width), Hw. reflexivity. }
  unfold Frame_applyAutoLayout, AutoLayout_apply, apply_layout.
  destruct children as [ | a l ]; [ discriminate Hlen | ].
  rewrite Hd, Hs, Hlen.
  pose proof (measure_total (a :: l) 0 0) as M. unfold measure.
  destruct (fold_left _ (a :: l) (0, 0)) as [ts mc]. cbn [fst] in M.
  rewrite Hw in M. cbn [fold_left] in M. subst ts.
  rewrite Hsp, Hl, Hr.
  destruct (AutoLayout.counterAxisSizing al);
    cbn [get_width geom_set_width geom_set_height width].
  all: apply Qc_is_canon; reflexivity.
Qed.

(** C8. A frame with a horizontal auto layout that hugs along the primary
    axis, spacing [10] and no padding, and three children of widths [20],
    [30] and [40]: after [applyAutoLayout] the width of the frame is [110],
    whatever the children are otherwise and whatever the other settings of
    the layout and of the frame. The same holds when the three children are
    added one by one with [addChild], which applies the layout each time. *)
Theorem hug_sets_frame_width (al : AutoLayout.t) (c : Common) (g : Geom)
    (c1 c2 c3 : DesignObject) (clip : bool) (r : Qc) :
  AutoLayout.direction al = AutoLayout.horizontal ->
  AutoLayout.primaryAxisSizing al = AutoLayout.hug ->
  AutoLayout.spacing al = Q2Qc 10 ->
  AutoLayout.paddingTop al = 0 -> AutoLayout.paddingRight al = 0 ->
  AutoLayout.paddingBottom al = 0 -> AutoLayout.paddingLeft al = 0 ->
  get_width c1 = Q2Qc 20 -> get_width c2 = Q2Qc 30 -> get_width c3 = Q2Qc 40 ->
  get_width
    (Frame_applyAutoLayout (Frame c g [c1; c2; c3] clip r (Some al)))
  = Q2Qc 110
  /\ get_width
       (fold_left Frame_addChild [c1; c2; c3] (Frame c g [] clip r (Some al)))
     = Q2Qc 110.
Proof.
  intros Hd Hs Hsp Ht Hr Hb Hl H1 H2 H3. split.
  - apply hug_width_of_widths; try assumption.
    cbn [List.map]. rewrite H1, H2, H3. reflexivity.
  - cbn [fold_left].
    destruct (Frame_addChild_widths al c g [] clip r c1 Hd)
      as [g1 [ch1 [E1 W1]]].
    rewrite E1.
    destruct (Frame_addChild_widths al c g1 ch1 clip r c2 Hd)
      as [g2 [ch2 [E2 W2]]].
    rewrite E2.
    change (Frame_addChild (Frame c g2 ch2 clip r (Some al)) c3)
      with (Frame_applyAutoLayout
              (Frame c g2 (ch2 ++ [c3]) clip r (Some al))).
    apply hug_width_of_widths; try assumption.
    rewrite map_app, W2, map_app, W1. cbn [List.map app].
    rewrite H1, H2, H3. reflexivity.
Qed.

Lemma hug_sets_frame_width_witness :
  get_width (Frame_applyAutoLayout row_frame) = Q2Qc 110
  /\ get_width
       (fold_left Frame_addChild [child_20; child_30; child_40]
          (Frame (test_common "obj_f")
             (mkGeom (Q2Qc 100) (Q2Qc 50) (Q2Qc 7) (Q2Qc 7))
             [] true 0 (Some hug_row)))
     = Q2Qc 110.
Proof.
  apply (hug_sets_frame_width hug_row);
    first [ reflexivity | apply Qc_is_canon; reflexivity ].
Defined.

End LayoutProps.

(** ** Design objects: rotation and clone *)

Module ObjectProps.
Import Js Objects Fixtures NumFacts.

(** What the base constructor returns: the identifier is the one given, or a
    new one; the rotation is the one given, or [0]. *)
Lemma DesignObject_new_eq (type : string) (b : BaseData) (w : World) :
  DesignObject_new type b w
  = (fst (DesignObject_new type b w), snd (id_drawn b w))
  /\ id (fst (fst (DesignObject_new type b w))) = fst (id_drawn b w)
  /\ rotation (fst (fst (DesignObject_new type b w)))
     = num_or (d_rotation b) 0.
Proof.
  unfold DesignObject_new, id_drawn, bind, ret.
  destruct (truthy_ostr (d_id b)); cbn; repeat split.
Qed.

(** Adding children leaves the common properties of the container alone. *)
Lemma add_children_common (des : Data -> M DesignObject)
    (addChild : DesignObject -> DesignObject -> DesignObject) :
  (forall p ch, common_of (addChild p ch) = common_of p) ->
  forall l this w,
    common_of (fst (add_children des addChild l this w)) = common_of this.
Proof.
  intros H l. induction l as [ | d l IH ]; intros this w; cbn.
  - reflexivity.
  - unfold bind. destruct (des d w) as [child w']. rewrite IH. apply H.
Qed.

Lemma Frame_addChild_common (p ch : DesignObject) :
  common_of (Frame_addChild p ch) = common_of p.
Proof.
  destruct p; try reflexivity. cbn.
  destruct autoLayout as [al | ]; [ | reflexivity ].
  cbn. destruct (apply_layout al g (children ++ [ch])). reflexivity.
Qed.

Lemma Group_addChild_common (p ch : DesignObject) :
  common_of (Group_addChild p ch) = common_of p.
Proof.
  destruct p; try reflexivity. cbn.
  destruct (box_of _) as [[[[a|] [b|]] [c0|]] [d|]]; reflexivity.
Qed.

Lemma Component_addChild_common (p ch : DesignObject) :
  common_of (Component_addChild p ch) = common_of p.
Proof. destruct p; reflexivity. Qed.

Lemma syncFromMaster_rotation (h : ref -> option DesignObject)
    (o : DesignObject) :
  rotation (common_of (syncFromMaster h o)) = rotation (common_of o).
Proof.
  destruct o; try reflexivity. cbn.
  destruct masterComponent as [r | ]; [ | reflexivity ].
  destruct (h r); [ | reflexivity ].
  cbn. destruct (overridden _ "fill"), (overridden _ "stroke"),
         (overridden _ "strokeWidth"); reflexivity.
Qed.

(** Every constructor stores [options.rotation || 0]. *)
Lemma new_rotation (cls : Class) (data : Data) (w : World) :
  rotation (common_of (fst (new cls data w)))
  = num_or (d_rotation (base data)) 0.
Proof.
  destruct data as [b e ch]. cbn [base].
  pose proof (fun t => DesignObject_new_eq t b w) as D.
  destruct cls; cbn [new].
  - unfold bind, ret. destruct (D (d_type b)) as [E [_ R]]. rewrite E.
    cbn. exact R.
  - unfold Rectangle_new, bind, ret. destruct (D "rectangle") as [E [_ R]].
    rewrite E. cbn. exact R.
  - unfold Ellipse_new, bind, ret. destruct (D "ellipse") as [E [_ R]].
    rewrite E. cbn. exact R.
  - unfold Line_new, bind, ret. destruct (D "line") as [E [_ R]].
    rewrite E. cbn. exact R.
  - unfold TextObject_new, bind, ret. destruct (D "text") as [E [_ R]].
    rewrite E. cbn. exact R.
  - unfold bind at 1. unfold Frame_init, bind, ret.
    destruct (D "frame") as [E [_ R]]. rewrite E.
    destruct ch as [l | ].
    + rewrite add_children_common by apply Frame_addChild_common.
      cbn. exact R.
    + cbn. exact R.
  - unfold Path_new, bind, ret. destruct (D "path") as [E [_ R]].
    rewrite E. cbn. exact R.
  - unfold bind at 1. unfold Group_init, bind, ret.
    destruct (D "group") as [E [_ R]]. rewrite E.
    destruct ch as [l | ].
    + rewrite add_children_common by apply Group_addChild_common.
      cbn. exact R.
    + cbn. exact R.
  - unfold ImageObject_new, bind, ret. destruct (D "image") as [E [_ R]].
    rewrite E. cbn. exact R.
  - unfold bind at 1. unfold Component_init, bind, ret.
    destruct (D "component") as [E [_ R]]. rewrite E.
    destruct (truthy_ostr (d_componentId e)).
    + destruct ch as [l | ].
      * rewrite add_children_common by apply Component_addChild_common.
        cbn. exact R.
      * cbn. exact R.
    + destruct (generateId _) as [ci w2]. destruct ch as [l | ].
      * rewrite add_children_common by apply Component_addChild_common.
        cbn. exact R.
      * cbn. exact R.
  - unfold ComponentInstance_new, bind, ret.
    destruct (D "componentInstance") as [E [_ R]]. rewrite E.
    destruct (d_masterComponent e).
    + cbn [fst]. rewrite syncFromMaster_rotation. cbn. exact R.
    + cbn. exact R.
Qed.

Section Rotation.

Variable Math_atan2 : Qc -> Qc -> Qc.
Variable Math_PI : Qc.

(** C5, as the code has it. The rotation of a design object is stored as it
    is assigned, with no reduction modulo 360. The constructor of every
    class, and so [deserialize], stores [options.rotation], and [0] when that
    is missing or [0]. A rotation drag stores the angle from the centre to
    the mouse in degrees plus [90], rounded to a multiple of [15] when shift
    is held. *)
Theorem rotation_is_stored_as_assigned (cls : Class) (data : Data) (w : World)
    (tool : Tools.SelectTool) (pos : Point) (shiftKey : bool) :
  rotation (common_of (fst (new cls data w)))
  = num_or (d_rotation (base data)) 0
  /\ rotation (common_of (fst (deserialize data w)))
     = num_or (d_rotation (base data)) 0
  /\ option_map (fun o => rotation (common_of o))
       (Tools.onMouseMove_rotate Math_atan2 Math_PI tool pos shiftKey)
     = match Tools.isRotating tool, Tools.rotateObject tool,
             Tools.rotateCenter tool with
       | true, Some _, Some center =>
         let degrees :=
           Tools.radToDeg Math_PI
             (Tools.getAngle Math_atan2 (px center) (py center)
                (px pos) (py pos))
           + Q2Qc 90 in
         Some (if shiftKey
               then Tools.Math_round (degrees / Q2Qc 15) * Q2Qc 15
               else degrees)
       | _, _, _ => None
       end.
Proof.
  split; [ apply new_rotation | ].
  split; [ apply new_rotation | ].
  unfold Tools.onMouseMove_rotate.
  destruct (Tools.isRotating tool); [ | reflexivity ].
  destruct (Tools.rotateObject tool) as [o | ]; [ | reflexivity ].
  destruct (Tools.rotateCenter tool) as [center | ]; [ | reflexivity ].
  cbn [option_map]. destruct o; reflexivity.
Qed.

End Rotation.

(** C5 as stated fails at construction: [deserialize] of
    [{ type: 'rectangle', rotation: 400 }] stores [400], which is outside
    [[0, 360)] and is not [400 mod 360 = 40]. *)
Lemma rotation_400_is_kept :
  rotation (common_of (fst (deserialize turned_data test_world))) = Q2Qc 400
  /\ ~ (rotation (common_of (fst (deserialize turned_data test_world)))
        < Q2Qc 360).
Proof.
  split.
  - reflexivity.
  - intros H. vm_compute in H. discriminate H.
Qed.

Lemma str_or_some_empty (s : string) : str_or (Some s) "" = s.
Proof. destruct s; reflexivity. Qed.

(** C6, as the code has it. The clone of an instance linked to a master is
    built from the serialized instance, which has no [masterComponent]: it is
    a [ComponentInstance] with the same [componentId], the same overrides and
    corner radius, and no master ([null]). Its [id] is the one that
    [Utils.generateId] returns at the end of [clone], and its name is the
    name of the instance followed by [' Copy']. *)
Theorem clone_of_linked_instance (c : Common) (g : Geom) (ci : string)
    (m : ref) (ov : list (string * bool)) (cr : Qc) (w : World) :
  let instance := ComponentInstance c g ci (Some m) ov cr in
  let w1 := snd (id_drawn (base_serialize instance) w) in
  exists c' g',
    clone instance w
    = (Some (ComponentInstance c' g' ci None ov cr), snd (generateId w1))
    /\ id c' = fst (generateId w1)
    /\ name c' = String.append (name c) " Copy".
Proof.
  intros instance w1.
  unfold clone. cbn [instance class_of]. fold instance.
  change (serialize instance)
    with (mkData (base_serialize instance) (ext_serialize instance) None).
  change (new CComponentInstance
            (mkData (base_serialize instance) (ext_serialize instance) None))
    with (ComponentInstance_new (base_serialize instance)
            (ext_serialize instance)).
  unfold ComponentInstance_new, bind.
  destruct (DesignObject_new_eq "componentInstance"
              (base_serialize instance) w) as [E _].
  rewrite E. fold w1.
  cbn [ext_serialize instance d_masterComponent d_componentId d_overrides
       d_cornerRadius].
  unfold ret.
  cbn [generateId with_common fst snd defined_or].
  rewrite str_or_some_empty, num_or_zero.
  eexists. eexists. split; [ reflexivity | ]. split; reflexivity.
Qed.

(** C6 as stated fails: the clone of the instance linked to the master at
    identity [0] has no master. *)
Lemma clone_drops_the_master :
  masterComponent_of linked_instance = Some 0%nat
  /\ option_map masterComponent_of (fst (clone linked_instance linked_world))
     = Some None
  /\ option_map masterComponent_of (fst (clone linked_instance linked_world))
     <> Some (masterComponent_of linked_instance).
Proof.
  split; [ reflexivity | ]. split; [ reflexivity | ].
  intros H. vm_compute in H. discriminate H.
Qed.

End ObjectProps.

(** ** Design objects: serialize and deserialize *)

Module RoundTrip.
Import Js Objects Fixtures NumFacts ObjectProps.

(** [a || d] is [a] for a truthy [a]. *)
Lemma or_num_keep (a d : Qc) : nonzero a -> or_num a d = a.
Proof. unfold nonzero, or_num. intros ->. reflexivity. Qed.

Lemma num_or_keep (a d : Qc) : nonzero a -> num_or (Some a) d = a.
Proof. unfold nonzero, num_or. intros ->. reflexivity. Qed.

Lemma str_or_keep (s d : string) : nonempty s -> str_or (Some s) d = s.
Proof. unfold nonempty. destruct s; [ contradiction | reflexivity ]. Qed.

Lemma truthy_ostr_keep (s : string) :
  nonempty s -> truthy_ostr (Some s) = Some s.
Proof. unfold nonempty. destruct s; [ contradiction | reflexivity ]. Qed.

Lemma bool_or_false (b : bool) : bool_or (Some b) false = b.
Proof. destruct b; reflexivity. Qed.

(** The sub-objects: what [new C(c.serialize())] gives back. *)
Lemma Gradient_roundtrip (g : Gradient.t) :
  Gradient_plain g -> Gradient.new (Gradient.serialize g) = g.
Proof.
  intros [H1 [H2 [H3 H4]]]. destruct g. unfold Gradient.new.
  cbn -[num_or str_or] in *.
  rewrite num_or_zero, !num_or_keep by assumption. reflexivity.
Qed.

Lemma Shadow_roundtrip (s : Shadow.t) :
  Shadow_plain s -> Shadow.new (Shadow.serialize s) = s.
Proof.
  intros [H1 [H2 H3]]. destruct s. unfold Shadow.new.
  cbn -[num_or str_or] in *.
  rewrite !num_or_zero, !num_or_keep, str_or_keep by assumption. reflexivity.
Qed.

Lemma Constraints_roundtrip (c : Constraints.t) :
  Constraints.new (Constraints.serialize c) = c.
Proof.
  destruct c. unfold Constraints.new. cbn -[num_or str_or].
  rewrite !num_or_zero. reflexivity.
Qed.

Lemma AutoLayout_roundtrip (a : AutoLayout.t) :
  nonzero (AutoLayout.spacing a) ->
  AutoLayout.new (AutoLayout.serialize a) = a.
Proof.
  intros H. destruct a. unfold AutoLayout.new. cbn -[num_or str_or] in *.
  rewrite !num_or_zero, num_or_keep by assumption. reflexivity.
Qed.

Lemma read_shadows_roundtrip (l : list Shadow.t) :
  Forall Shadow_plain l -> read_shadows (List.map Shadow.serialize l) = l.
Proof.
  intros H. unfold read_shadows.
  assert (G : forall acc,
             fold_left
               (fun acc s =>
                  match Shadow.deserialize (Value s) with
                  | Some shadow => acc ++ [shadow]
                  | None => acc
                  end) (List.map Shadow.serialize l) acc = acc ++ l).
  { induction H as [ | s l Hs Hl IH ]; intros acc; cbn.
    - rewrite app_nil_r. reflexivity.
    - rewrite Shadow_roundtrip by exact Hs. rewrite IH, <- app_assoc.
      reflexivity. }
  apply (G []).
Qed.

(** The base constructor on the serialized form of an object: the common
    properties come back, [stroke] with an empty string read as [null]; the
    position and size come back as [reread] has them; no identifier is
    drawn. *)
Lemma DesignObject_new_serialized (type : string) (o : DesignObject)
    (w : World) :
  Common_plain (common_of o) ->
  DesignObject_new type (base_serialize o) w
  = ((set_stroke (truthy_ostr (stroke (common_of o))) (common_of o),
      reread (mkGeom (get_x o) (get_y o) (get_width o) (get_height o))), w).
Proof.
  intros [Hid [Hname [Hblend [Hgrad Hsh]]]].
  unfold DesignObject_new, base_serialize, bind, ret.
  cbn [d_id d_name d_rotation d_fill d_fillOpacity d_stroke d_strokeWidth
       d_strokeOpacity d_visible d_locked d_opacity d_blendMode d_gradient
       d_shadows d_blur d_constraints d_x d_y d_width d_height d_type].
  rewrite truthy_ostr_keep by exact Hid.
  rewrite !str_or_keep by assumption.
  rewrite !num_or_zero, bool_or_false, read_shadows_roundtrip by exact Hsh.
  cbn [defined_or].
  f_equal. f_equal.
  destruct (common_of o) as [i n r f fo st sw so v l op bm gr sh bl cs].
  cbn in *.
  unfold set_stroke. cbn.
  f_equal.
  - destruct f; reflexivity.
  - destruct st as [[ | ]| ]; reflexivity.
  - destruct gr as [g | ]; cbn; [ | reflexivity ].
    unfold Gradient.deserialize. cbn.
    rewrite Gradient_roundtrip by exact Hgrad. reflexivity.
  - destruct cs as [cs | ]; cbn; [ | reflexivity ].
    unfold Constraints.deserialize. cbn. rewrite Constraints_roundtrip.
    reflexivity.
Qed.

Lemma set_stroke_keep (c : Common) :
  stroke_plain c -> set_stroke (truthy_ostr (stroke c)) c = c.
Proof.
  unfold stroke_plain.
  destruct c as [i n r f fo st sw so v l op bm gr sh bl cs].
  cbn. intros H. unfold set_stroke. cbn.
  destruct st as [[ | ]| ]; try reflexivity. contradiction.
Qed.

(** The loop over the serialized children, once each child is known to come
    back. *)
Lemma add_children_serialized
    (addChild : DesignObject -> DesignObject -> DesignObject)
    (children : list DesignObject) :
  (forall ch, In ch children ->
     forall w, deserialize (serialize ch) w = (detached ch, w)) ->
  forall this w,
    add_children deserialize addChild (List.map serialize children) this w
    = (fold_left addChild (List.map detached children) this, w).
Proof.
  induction children as [ | ch children IH ]; intros H this w; cbn.
  - reflexivity.
  - unfold bind. rewrite (H ch (or_introl eq_refl)).
    apply IH. intros ch' Hin. apply H. right. exact Hin.
Qed.

Lemma all_plain_In (l : list DesignObject) :
  (fix all (l : list DesignObject) : Prop :=
     match l with
     | [] => True
     | child :: rest => plain child /\ all rest
     end) l ->
  forall ch, In ch l -> plain ch.
Proof.
  induction l as [ | a l IH ]; intros H ch Hin.
  - destruct Hin.
  - destruct H as [Ha Hl].
    destruct Hin as [<- | Hin]; [ exact Ha | exact (IH Hl ch Hin) ].
Qed.

Lemma deserialize_unfold (o : DesignObject) :
  deserialize (serialize o)
  = new (class_of_type (type_of o))
      (mkData (base_serialize o) (ext_serialize o)
         (match o with
          | Frame _ _ children _ _ _ | Group _ _ children
          | Component _ _ children _ _ _ _ _ =>
            Some (List.map serialize children)
          | _ => None
          end)).
Proof. destruct o; reflexivity. Qed.

Lemma set_fill_keep (c : Common) (v : option string) :
  fill c = v -> set_fill v c = c.
Proof. intros <-. destruct c. reflexivity. Qed.

Lemma container_fill_keep (c : Common) :
  fill_set c ->
  set_fill
    (Some (match truthy_str (of_option (fill c)) with
           | Some f => f
           | None => "#FFFFFF"
           end)) c
  = c.
Proof.
  unfold fill_set, nonempty. intros H. apply set_fill_keep.
  destruct (fill c) as [[ | a f] | ]; try contradiction; reflexivity.
Qed.

Lemma autoLayout_keep (a : option AutoLayout.t) :
  AutoLayout_plain a ->
  match truthy_obj (of_option (option_map AutoLayout.serialize a)) with
  | Some ad => AutoLayout.deserialize (Value ad)
  | None => None
  end = a.
Proof.
  destruct a as [al | ]; cbn; [ | reflexivity ].
  intros H. unfold AutoLayout.deserialize. cbn.
  rewrite AutoLayout_roundtrip by exact H. reflexivity.
Qed.

Lemma geom_eta (g : Geom) : mkGeom (x g) (y g) (width g) (height g) = g.
Proof. destruct g; reflexivity. Qed.

Lemma Component_addChild_fold (l : list DesignObject) :
  forall c g chs clip r ci d inst,
    fold_left Component_addChild l (Component c g chs clip r ci d inst)
    = Component c g (chs ++ l) clip r ci d inst.
Proof.
  induction l as [ | a l IH ]; intros; cbn.
  - rewrite app_nil_r. reflexivity.
  - rewrite IH, <- app_assoc. reflexivity.
Qed.

Lemma imageData_keep (d : option string) :
  d <> Some "" -> truthy_str (of_option d) = d.
Proof. destruct d as [[ | ] | ]; intros H; try reflexivity. contradiction. Qed.

Ltac start_roundtrip Hc :=
  rewrite deserialize_unfold;
  cbn [type_of class_of_type String.eqb Ascii.eqb Bool.eqb new];
  change (fun data : Data => new (class_of_type (d_type (base data))) data)
    with deserialize;
  unfold Rectangle_new, Ellipse_new, Line_new, TextObject_new, Frame_init,
    Path_new, Group_init, Component_init, ComponentInstance_new,
    ImageObject_new, bind;
  rewrite DesignObject_new_serialized by exact Hc;
  cbn [common_of get_x get_y get_width get_height fst snd ret ext_serialize
       d_cornerRadius d_x1 d_y1 d_x2 d_y2 d_text d_fontFamily d_fontSize
       d_fontWeight d_lineHeight d_textAlign d_clipContent d_autoLayout
       d_points d_closed d_componentId d_description d_overrides
       d_masterComponent d_src d_imageData d_fit base_serialize d_fill
       d_stroke d_strokeWidth d_x d_y d_width d_height defined_or nullish_or];
  rewrite ?geom_eta.

(** Induction on a design object through the children it owns. *)
Lemma by_children (P : DesignObject -> Prop) :
  (forall o, Forall P (children_of o) -> P o) -> forall o, P o.
Proof.
  intros H.
  refine (fix IH (o : DesignObject) : P o := H o _).
  destruct o; cbn [children_of]; try apply Forall_nil.
  - induction children as [ | a l IHl ]; constructor; [ apply IH | exact IHl ].
  - induction children as [ | a l IHl ]; constructor; [ apply IH | exact IHl ].
  - induction children as [ | a l IHl ]; constructor; [ apply IH | exact IHl ].
Qed.

(** C1, as the code has it. For every variant: an object in the form that the
    constructors leave it in comes back from [deserialize(serialize(x))] with
    every property as it was, children, gradient, shadows, constraints and
    auto layout included, and no identifier is drawn. The links on the heap
    are not part of the serialized form: an instance comes back with the
    same [componentId] and no master, a component with no instances. *)
Theorem deserialize_serialize_plain (o : DesignObject) :
  forall w, plain o -> deserialize (serialize o) w = (detached o, w).
Proof.
  induction o as [o IH] using by_children.
  intros w Hp.
  destruct o as [ type c g | c g r | c g | c g x1 y1 x2 y2 | c g t
                | c g children clip r a | c g points closed b
                | c g children | c g children clip r ci d inst
                | c g ci m ov r | c g i r ];
    destruct Hp as [Hc Hp]; cbn [common_of] in Hc.
  - (* Generic *)
    destruct Hp as [Hcls [Hs Hg]].
    rewrite deserialize_unfold. cbn [type_of]. rewrite Hcls.
    cbn [new]. unfold bind.
    rewrite DesignObject_new_serialized by exact Hc.
    cbn [common_of get_x get_y get_width get_height fst snd ret
         base_serialize d_type type_of].
    rewrite set_stroke_keep, geom_eta, Hg by assumption. reflexivity.
  - (* Rectangle *)
    destruct Hp as [Hs Hg]. start_roundtrip Hc.
    rewrite set_stroke_keep, Hg, num_or_zero by assumption. reflexivity.
  - (* Ellipse *)
    destruct Hp as [Hs Hg]. start_roundtrip Hc.
    rewrite set_stroke_keep, Hg by assumption. reflexivity.
  - (* Line *)
    destruct Hp as [Hg [Hf [Hsw Hst]]]. start_roundtrip Hc.
    rewrite Hg, num_or_keep by exact Hsw.
    destruct (stroke c) as [st | ] eqn:Est; [ | contradiction ].
    assert (E : truthy_str (of_option (Some st)) = Some st).
    { destruct st; [ contradiction | reflexivity ]. }
    rewrite E. cbn [detached].
    f_equal. f_equal.
    destruct c as [i n ro f fo st' sw so v l op bm gr sh bl cs].
    cbn in *. subst. reflexivity.
  - (* TextObject *)
    destruct Hp as [Hs [Hw [Hh [H1 [H2 [H3 [H4 [H5 H6]]]]]]]].
    start_roundtrip Hc.
    rewrite set_stroke_keep by assumption.
    rewrite !str_or_keep, !num_or_keep by assumption.
    destruct g, t. reflexivity.
  - (* Frame *)
    destruct Hp as [Hs [Hf [Ha [Hall Hfold]]]].
    assert (IHch : forall ch, In ch children ->
                     forall w, deserialize (serialize ch) w = (detached ch, w)).
    { intros ch Hin w'. cbn [children_of] in IH.
      rewrite Forall_forall in IH. apply (IH ch Hin).
      exact (all_plain_In _ Hall ch Hin). }
    start_roundtrip Hc.
    rewrite set_stroke_keep, container_fill_keep, autoLayout_keep, num_or_zero
      by assumption.
    rewrite add_children_serialized by exact IHch.
    rewrite Hfold. reflexivity.
  - (* Path *)
    destruct Hp as [Hs [Hg Hb]]. start_roundtrip Hc.
    rewrite set_stroke_keep, Hg, bool_or_false by assumption.
    rewrite <- Hb. reflexivity.
  - (* Group *)
    destruct Hp as [Hs [Hf [Hall Hfold]]].
    assert (IHch : forall ch, In ch children ->
                     forall w, deserialize (serialize ch) w = (detached ch, w)).
    { intros ch Hin w'. cbn [children_of] in IH.
      rewrite Forall_forall in IH. apply (IH ch Hin).
      exact (all_plain_In _ Hall ch Hin). }
    start_roundtrip Hc.
    rewrite set_stroke_keep by assumption.
    rewrite (set_fill_keep c None Hf).
    rewrite add_children_serialized by exact IHch.
    rewrite Hfold. reflexivity.
  - (* Component *)
    destruct Hp as [Hs [Hf [Hci [Hg Hall]]]].
    assert (IHch : forall ch, In ch children ->
                     forall w, deserialize (serialize ch) w = (detached ch, w)).
    { intros ch Hin w'. cbn [children_of] in IH.
      rewrite Forall_forall in IH. apply (IH ch Hin).
      exact (all_plain_In _ Hall ch Hin). }
    start_roundtrip Hc.
    rewrite set_stroke_keep, container_fill_keep by assumption.
    rewrite truthy_ostr_keep by exact Hci.
    cbn [ret]. rewrite num_or_zero, Hg.
    rewrite add_children_serialized by exact IHch.
    rewrite Component_addChild_fold, str_or_some_empty. reflexivity.
  - (* ComponentInstance *)
    destruct Hp as [Hs Hg]. start_roundtrip Hc.
    rewrite set_stroke_keep, Hg, num_or_zero by assumption.
    destruct ci; reflexivity.
  - (* ImageObject *)
    destruct Hp as [Hs [Hg [Hd Him]]]. start_roundtrip Hc.
    rewrite set_stroke_keep, Hg, num_or_zero by assumption.
    rewrite str_or_some_empty, imageData_keep by exact Hd.
    rewrite <- Him. destruct i; reflexivity.
Qed.

(** Without auto layout, [Frame.addChild] appends. *)
Lemma Frame_addChild_fold (l : list DesignObject) :
  forall c g chs clip r,
    fold_left Frame_addChild l (Frame c g chs clip r None)
    = Frame c g (chs ++ l) clip r None.
Proof.
  induction l as [ | a l IH ]; intros; cbn.
  - rewrite app_nil_r. reflexivity.
  - rewrite IH, <- app_assoc. reflexivity.
Qed.

(** Detaching leaves position and size alone. *)
Lemma bounds_detached (o : DesignObject) : bounds (detached o) = bounds o.
Proof. destruct o; reflexivity. Qed.

Lemma map_bounds_detached (l : list DesignObject) :
  List.map bounds (List.map detached l) = List.map bounds l.
Proof.
  induction l as [ | a l IH ]; cbn; [ reflexivity | ].
  rewrite bounds_detached, IH. reflexivity.
Qed.

(** The box of a sequence that is not empty has its four sides. *)
Lemma box_of_cons (b : Rect) (l : list Rect) :
  exists minX minY maxX maxY,
    box_of (b :: l) = (Some minX, Some minY, Some maxX, Some maxY).
Proof.
  unfold box_of. cbn [fold_left min_from max_from].
  generalize (rx b) (ry b) (rx b + rwidth b) (ry b + rheight b).
  induction l as [ | a l IH ]; intros m1 m2 m3 m4; cbn [fold_left].
  - eauto.
  - cbn [min_from max_from]. apply IH.
Qed.

(** [Group.updateBounds] changes the position and size only, and with a
    child in the group it does not look at the old ones. *)
Lemma Group_updateBounds_shape c g chs :
  exists g',
    Group_updateBounds (Group c g chs) = Group c g' chs
    /\ (chs <> [] ->
        forall g0, Group_updateBounds (Group c g0 chs) = Group c g' chs).
Proof.
  destruct chs as [ | a chs ].
  - exists g. split; [ reflexivity | ]. intros H. contradiction.
  - cbn [Group_updateBounds List.map].
    destruct (box_of_cons (bounds a) (List.map bounds chs))
      as [a1 [a2 [a3 [a4 E]]]].
    rewrite E. eexists. split; [ reflexivity | ]. intros _ g0. reflexivity.
Qed.

(** Adding children to a group one by one ends with the bounds of all of
    them. *)
Lemma Group_addChild_fold (l : list DesignObject) :
  forall c g chs,
    l <> [] ->
    fold_left Group_addChild l (Group c g chs)
    = Group_updateBounds (Group c g (chs ++ l)).
Proof.
  induction l as [ | a l IH ]; intros c g chs Hne; [ contradiction | ].
  cbn [fold_left Group_addChild].
  destruct l as [ | b l ].
  - reflexivity.
  - destruct (Group_updateBounds_shape c g (chs ++ [a])) as [g' [E _]].
    rewrite E. rewrite IH by discriminate.
    rewrite <- app_assoc. cbn [app].
    destruct (Group_updateBounds_shape c g (chs ++ a :: b :: l))
      as [g'' [E2 Hind]].
    rewrite E2. apply Hind. destruct chs; discriminate.
Qed.

(** A group whose position and size are the box of its children is in the
    state that adding its children one by one produces. *)
Lemma Group_settled c g g0 children :
  children <> [] ->
  Group_updateBounds (Group c g children) = Group c g children ->
  fold_left Group_addChild (List.map detached children) (Group c g0 [])
  = Group c g (List.map detached children).
Proof.
  intros Hne Hbox.
  rewrite Group_addChild_fold
    by (destruct children; [ contradiction | discriminate ]).
  cbn [app]. cbn [Group_updateBounds] in *.
  rewrite map_bounds_detached.
  destruct children as [ | ch children ]; [ contradiction | ].
  cbn [List.map] in *.
  destruct (box_of_cons (bounds ch) (List.map bounds children))
    as [a1 [a2 [a3 [a4 E]]]].
  rewrite E in *. injection Hbox as <-. reflexivity.
Qed.

(** So is a frame without auto layout whose width and height are not [0]. *)
Lemma Frame_settled c g children clip r :
  reread g = g ->
  fold_left Frame_addChild (List.map detached children)
    (Frame c (reread g) [] clip r None)
  = Frame c g (List.map detached children) clip r None.
Proof. intros ->. apply Frame_addChild_fold. Qed.

(** A width and a height that are not [0] are read back as they are. *)
Lemma reread_keep (g : Geom) :
  nonzero (width g) -> nonzero (height g) -> reread g = g.
Proof.
  intros Hw Hh. unfold reread. rewrite !or_num_keep by assumption.
  destruct g; reflexivity.
Qed.

(** A value that a constructor replaces is outside [plain]: a frame without
    fill comes back white. *)
Lemma hollow_frame_comes_back_white :
  fill (common_of hollow_frame) = None
  /\ fill (common_of (fst (deserialize (serialize hollow_frame) test_world)))
     = Some "#FFFFFF".
Proof. split; reflexivity. Qed.

(** So is a spacing of [0]: the layout comes back with the default [10]. *)
Lemma zero_spacing_comes_back_ten (al : AutoLayout.t) :
  AutoLayout.spacing al = 0 ->
  AutoLayout.spacing (AutoLayout.new (AutoLayout.serialize al)) = Q2Qc 10.
Proof.
  intros H. unfold AutoLayout.new, AutoLayout.serialize.
  cbn [AutoLayout.spacing AutoLayout.o_spacing]. rewrite H. reflexivity.
Qed.

(** C1 as stated fails on a rectangle of width [0]: the serialized form
    has the width [0], and the constructor that [deserialize] calls reads it
    as missing and stores the default [100]. *)
Lemma zero_width_comes_back_100 :
  get_width flat_rectangle = 0
  /\ get_width (fst (deserialize (serialize flat_rectangle) test_world))
     = Q2Qc 100
  /\ fst (deserialize (serialize flat_rectangle) test_world)
     <> flat_rectangle.
Proof.
  split; [ reflexivity | ]. split; [ reflexivity | ].
  intros H. vm_compute in H. discriminate H.
Qed.

(** The links on the heap are left to the host: the serialized form of an
    instance has the [componentId] only, and what [deserialize] builds from
    it has no master. *)
Lemma linked_instance_comes_back_unlinked :
  fst (deserialize (serialize linked_instance) linked_world)
  = detached linked_instance
  /\ fst (deserialize (serialize linked_instance) linked_world)
     <> linked_instance.
Proof.
  split.
  - reflexivity.
  - intros H. vm_compute in H. discriminate H.
Qed.

(** Goals about concrete data: equal up to the proofs inside the numbers. *)
Ltac same_data :=
  repeat first
    [ reflexivity
    | match goal with
      | |- @eq Qc _ _ => apply Qc_is_canon; reflexivity
      end
    | f_equal ].

Ltac plain_by_computation :=
  vm_compute;
  repeat match goal with
         | |- _ /\ _ => split
         | |- True => exact I
         | |- Forall _ [] => constructor
         | |- Forall _ (_ :: _) => constructor
         | |- _ -> False => let H := fresh in intro H; discriminate H
         | |- _ = _ => same_data
         end.

Lemma deserialize_serialize_plain_witness :
  deserialize (serialize sample_page) test_world
  = (detached sample_page, test_world).
Proof.
  apply (deserialize_serialize_plain sample_page test_world).
  plain_by_computation.
Defined.

End RoundTrip.

(** ** Arithmetic on canonical rationals *)

Module QcArith.
Import Js NumFacts.

Lemma this_plus (a b : Qc) : (this (a + b) == this a + this b)%Q.
Proof. change (this (a + b)) with (Qred (this a + this b)). apply Qred_correct. Qed.

Lemma this_mult (a b : Qc) : (this (a * b) == this a * this b)%Q.
Proof. change (this (a * b)) with (Qred (this a * this b)). apply Qred_correct. Qed.

Lemma this_opp (a : Qc) : (this (- a) == - this a)%Q.
Proof. change (this (- a)) with (Qred (- this a)). apply Qred_correct. Qed.

Lemma this_minus (a b : Qc) : (this (a - b) == this a - this b)%Q.
Proof. unfold Qcminus. rewrite this_plus, this_opp. reflexivity. Qed.

Lemma this_inv (a : Qc) : (this (/ a) == / this a)%Q.
Proof. change (this (/ a)) with (Qred (/ this a)). apply Qred_correct. Qed.

Lemma this_div (a b : Qc) : (this (a / b) == this a / this b)%Q.
Proof. unfold Qcdiv. rewrite this_mult, this_inv. reflexivity. Qed.

Lemma this_Q2Qc (q : Q) : (this (Q2Qc q) == q)%Q.
Proof. apply Qred_correct. Qed.

Lemma eq_iff (a b : Qc) : a = b <-> (this a == this b)%Q.
Proof. split; [ intros ->; reflexivity | apply Qc_is_canon ]. Qed.

Lemma leb_le (a b : Qc) : leb a b = true <-> a <= b.
Proof. unfold leb, Qcle. apply Qle_bool_iff. Qed.

Lemma leb_gt (a b : Qc) : leb a b = false <-> b < a.
Proof.
  split.
  - intros H. apply Qcnot_le_lt. intros Hle. apply leb_le in Hle. congruence.
  - intros H. destruct (leb a b) eqn:E; [ | reflexivity ].
    apply leb_le in E. exfalso. exact (Qclt_not_le _ _ H E).
Qed.

(** The boolean tests of the hypotheses and of the goal as order facts. *)
Ltac unbool :=
  repeat match goal with
  | H : (_ && _)%bool = true |- _ => apply andb_true_iff in H; destruct H
  | H : (_ || _)%bool = false |- _ => apply orb_false_iff in H; destruct H
  | H : negb _ = true |- _ => apply negb_true_iff in H
  | H : negb _ = false |- _ => apply negb_false_iff in H
  | H : ltb _ _ = true |- _ => apply ltb_lt in H
  | H : ltb _ _ = false |- _ => apply ltb_ge in H
  | H : leb _ _ = true |- _ => apply leb_le in H
  | H : leb _ _ = false |- _ => apply leb_gt in H
  | H : eqb _ _ = true |- _ => apply eqb_eq in H
  | H : eqb _ _ = false |- _ => apply eqb_neq in H
  end.

(** Order facts over [Qc] as facts over [Q], where [lra] and [nra] work. *)
Ltac push_this :=
  repeat match goal with
  | H : context [this (_ + _)] |- _ => rewrite this_plus in H
  | H : context [this (_ - _)] |- _ => rewrite this_minus in H
  | H : context [this (_ * _)] |- _ => rewrite this_mult in H
  | H : context [this (_ / _)] |- _ => rewrite this_div in H
  | H : context [this (- _)] |- _ => rewrite this_opp in H
  | H : context [this (/ _)] |- _ => rewrite this_inv in H
  | H : context [this (Q2Qc _)] |- _ => rewrite this_Q2Qc in H
  | |- context [this (_ + _)] => rewrite this_plus
  | |- context [this (_ - _)] => rewrite this_minus
  | |- context [this (_ * _)] => rewrite this_mult
  | |- context [this (_ / _)] => rewrite this_div
  | |- context [this (- _)] => rewrite this_opp
  | |- context [this (/ _)] => rewrite this_inv
  | |- context [this (Q2Qc _)] => rewrite this_Q2Qc
  end.

Ltac to_Q :=
  unfold Qcle, Qclt in *;
  repeat match goal with
  | H : @eq Qc _ _ |- _ => apply eq_iff in H
  | H : ~ @eq Qc _ _ |- _ => rewrite eq_iff in H
  | |- @eq Qc _ _ => apply Qc_is_canon
  | |- ~ @eq Qc _ _ => rewrite eq_iff
  end;
  push_this;
  change (this 0) with 0%Q in *; change (this 1) with 1%Q in *;
  unfold Qdiv in *;
  repeat match goal with
  | |- context [Qinv (Z.pos ?n # ?d)] =>
    let v := eval cbv in (Qinv (Z.pos n # d)) in
    change (Qinv (Z.pos n # d)) with v
  | H : context [Qinv (Z.pos ?n # ?d)] |- _ =>
    let v := eval cbv in (Qinv (Z.pos n # d)) in
    change (Qinv (Z.pos n # d)) with v in H
  end.

Ltac qc_lra := to_Q; lra.
Ltac qc_nra := to_Q; nra.

(** Case analysis on every comparison that decides a conditional. *)
Ltac split_tests :=
  repeat match goal with
  | |- context [if ltb ?a ?b then _ else _] => destruct (ltb a b) eqn:?
  | |- context [if leb ?a ?b then _ else _] => destruct (leb a b) eqn:?
  | |- context [if eqb ?a ?b then _ else _] => destruct (eqb a b) eqn:?
  | H : context [if ltb ?a ?b then _ else _] |- _ => destruct (ltb a b) eqn:?
  | H : context [if leb ?a ?b then _ else _] |- _ => destruct (leb a b) eqn:?
  | H : context [if eqb ?a ?b then _ else _] |- _ => destruct (eqb a b) eqn:?
  | |- context [ltb ?a ?b] => destruct (ltb a b) eqn:?
  | |- context [leb ?a ?b] => destruct (leb a b) eqn:?
  | |- context [eqb ?a ?b] => destruct (eqb a b) eqn:?
  end.

Lemma max_cases (a b : Qc) :
  (Js.max a b = b /\ a <= b) \/ (Js.max a b = a /\ b <= a).
Proof.
  unfold Js.max. destruct (ltb a b) eqn:E; unbool.
  - left. split; [ reflexivity | apply Qclt_le_weak; exact E ].
  - right. split; [ reflexivity | exact E ].
Qed.

Lemma min_cases (a b : Qc) :
  (Js.min a b = a /\ a <= b) \/ (Js.min a b = b /\ b <= a).
Proof.
  unfold Js.min. destruct (ltb b a) eqn:E; unbool.
  - right. split; [ reflexivity | apply Qclt_le_weak; exact E ].
  - left. split; [ reflexivity | exact E ].
Qed.

End QcArith.

(** ** Geometry helpers *)

Module GeometryProps.
Import Js Objects Geometry NumFacts QcArith.

(** X1. With [min <= max], [clamp] returns a value between the two bounds,
    and returns [value] itself when that is already between them. *)
Theorem clamp_stays_within_bounds (value min max : Qc) :
  min <= max ->
  min <= clamp value min max /\ clamp value min max <= max
  /\ (min <= value -> value <= max -> clamp value min max = value).
Proof.
  intros H. unfold clamp, Js.min, Js.max.
  repeat split; [ | | intros H1 H2 ]; split_tests; unbool; qc_lra.
Qed.

Lemma clamp_stays_within_bounds_witness :
  Q2Qc (1 # 10) <= clamp (Q2Qc 25) (Q2Qc (1 # 10)) (Q2Qc 10)
  /\ clamp (Q2Qc 25) (Q2Qc (1 # 10)) (Q2Qc 10) <= Q2Qc 10
  /\ (Q2Qc (1 # 10) <= Q2Qc 25 -> Q2Qc 25 <= Q2Qc 10 ->
      clamp (Q2Qc 25) (Q2Qc (1 # 10)) (Q2Qc 10) = Q2Qc 25).
Proof.
  apply (clamp_stays_within_bounds (Q2Qc 25) (Q2Qc (1 # 10)) (Q2Qc 10)).
  vm_compute. discriminate.
Defined.

(** Along one axis: a coordinate lies in the overlap of two spans exactly
    when it lies in both. *)
Lemma span_common (a b c d p : Qc) :
  leb (Js.max a b) p && leb p (Js.max a b + (Js.min c d - Js.max a b))
  = (leb a p && leb p c) && (leb b p && leb p d).
Proof.
  unfold Js.min, Js.max.
  split_tests; unbool; try reflexivity; exfalso; qc_lra.
Qed.

(** X2. When [getIntersection] returns a rectangle, that rectangle has a
    positive width and height and holds exactly the points that lie in both
    rectangles. *)
Theorem getIntersection_is_the_common_part (r1 r2 r : Rect) :
  getIntersection r1 r2 = Some r ->
  0 < rwidth r /\ 0 < rheight r
  /\ forall px py,
       pointInRect px py r = pointInRect px py r1 && pointInRect px py r2.
Proof.
  unfold getIntersection. intros H.
  destruct (leb _ 0 || leb _ 0) eqn:E; [ discriminate | ].
  injection H as <-. cbn [rx ry rwidth rheight]. unbool.
  split; [ assumption | ]. split; [ assumption | ].
  intros px py. unfold pointInRect. cbn [rx ry rwidth rheight].
  match goal with
  | |- ?A && ?B && ?C && ?D = _ =>
    transitivity ((A && B) && (C && D));
      [ destruct A, B, C, D; reflexivity | ]
  end.
  rewrite !span_common.
  destruct (leb (rx r1) px), (leb px (rx r1 + rwidth r1)), (leb (rx r2) px),
    (leb px (rx r2 + rwidth r2)), (leb (ry r1) py),
    (leb py (ry r1 + rheight r1)), (leb (ry r2) py),
    (leb py (ry r2 + rheight r2)); reflexivity.
Qed.

Lemma getIntersection_is_the_common_part_witness :
  let r1 := mkRect 0 0 (Q2Qc 10) (Q2Qc 10) in
  let r2 := mkRect (Q2Qc 5) (Q2Qc 5) (Q2Qc 10) (Q2Qc 10) in
  let r := mkRect (Q2Qc 5) (Q2Qc 5) (Q2Qc 5) (Q2Qc 5) in
  0 < rwidth r /\ 0 < rheight r
  /\ forall px py,
       pointInRect px py r = pointInRect px py r1 && pointInRect px py r2.
Proof.
  intros r1 r2 r. apply (getIntersection_is_the_common_part r1 r2 r).
  vm_compute. reflexivity.
Defined.

(** X3. Two rectangles of non-negative width and height intersect, as
    [rectsIntersect] tells, exactly when some point lies in both of them by
    [pointInRect]; edges count, so rectangles that only touch intersect. *)
Theorem rectsIntersect_iff_common_point (r1 r2 : Rect) :
  0 <= rwidth r1 -> 0 <= rheight r1 -> 0 <= rwidth r2 -> 0 <= rheight r2 ->
  (rectsIntersect r1 r2 = true
   <-> exists px py,
         pointInRect px py r1 = true /\ pointInRect px py r2 = true).
Proof.
  intros W1 H1 W2 H2. unfold rectsIntersect, pointInRect. split.
  - intros H. unbool.
    exists (Js.max (rx r1) (rx r2)), (Js.max (ry r1) (ry r2)).
    destruct (max_cases (rx r1) (rx r2)) as [[Ex Hx] | [Ex Hx]];
      destruct (max_cases (ry r1) (ry r2)) as [[Ey Hy] | [Ey Hy]];
      rewrite Ex, Ey; split;
      repeat (apply andb_true_iff; split); apply leb_le; qc_lra.
  - intros [px [py [Ha Hb]]]. unbool.
    apply negb_true_iff. repeat (apply orb_false_iff; split);
      apply ltb_ge; qc_lra.
Qed.

Lemma rectsIntersect_iff_common_point_witness :
  let r1 := mkRect 0 0 (Q2Qc 10) (Q2Qc 10) in
  let r2 := mkRect (Q2Qc 10) (Q2Qc 10) (Q2Qc 4) 0 in
  rectsIntersect r1 r2 = true
  <-> exists px py,
        pointInRect px py r1 = true /\ pointInRect px py r2 = true.
Proof.
  intros r1 r2. apply (rectsIntersect_iff_common_point r1 r2);
    vm_compute; discriminate.
Defined.

(** X4. With a zoom other than [0], [screenToCanvas] and [canvasToScreen]
    undo each other. *)
Theorem screen_canvas_round_trip (x y : Qc) (viewport : Viewport) :
  zoom viewport <> 0 ->
  screenToCanvas (px (canvasToScreen x y viewport))
                 (py (canvasToScreen x y viewport)) viewport
  = mkPoint x y
  /\ canvasToScreen (px (screenToCanvas x y viewport))
                    (py (screenToCanvas x y viewport)) viewport
     = mkPoint x y.
Proof.
  intros Hz. unfold screenToCanvas, canvasToScreen. cbn [px py].
  split; f_equal; field; exact Hz.
Qed.

Lemma screen_canvas_round_trip_witness :
  let viewport := mkViewport (Q2Qc 400) (Q2Qc 300) (Q2Qc (5 # 4)) in
  screenToCanvas (px (canvasToScreen (Q2Qc 7) (- Q2Qc 3) viewport))
                 (py (canvasToScreen (Q2Qc 7) (- Q2Qc 3) viewport)) viewport
  = mkPoint (Q2Qc 7) (- Q2Qc 3)
  /\ canvasToScreen (px (screenToCanvas (Q2Qc 7) (- Q2Qc 3) viewport))
                    (py (screenToCanvas (Q2Qc 7) (- Q2Qc 3) viewport)) viewport
     = mkPoint (Q2Qc 7) (- Q2Qc 3).
Proof.
  intros viewport.
  apply (screen_canvas_round_trip (Q2Qc 7) (- Q2Qc 3) viewport).
  vm_compute. discriminate.
Defined.








End GeometryProps.

Module HistoryCallProps.
Import Js History HistoryCalls HistoryProps.
Import Predicates.

Lemma length_pop {A : Type} (l : list A) :
  List.length (snd (pop l)) = (List.length l - 1)%nat.
Proof.
  destruct l as [ | a l ]; [ reflexivity | ].
  destruct (pop_nonempty (a :: l)) as [b [l' [E Hp]]]; [ discriminate | ].
  rewrite Hp, E, length_app. simpl. lia.
Qed.

Lemma call_within_capacity (h : HistoryManager) (c : Call) :
  within_capacity h -> within_capacity (call h c).
Proof.
  unfold within_capacity, undoCount, redoCount. intros H.
  destruct c as [ s | s | | | | ]; cbn [call].
  - unfold push. destruct (isApplying h); [ exact H | ].
    cbn [undoStack redoStack maxSize List.length].
    destruct (Nat.ltb_spec (maxSize h) (List.length (undoStack h ++ [deepCloneState s]))) as [Hlt | Hge].
    + unfold shift. rewrite length_tl, length_app. simpl. lia.
    + lia.
  - unfold undo. destruct (undoStack h) as [ | a u ] eqn:Hu; [ simpl; rewrite Hu; exact H | ].
    pose proof (length_pop (a :: u)) as Hp.
    destruct (pop (a :: u)) as [r u']. cbn [snd fst undoStack redoStack maxSize] in *.
    rewrite length_app, Hp. simpl in *. lia.
  - unfold redo. destruct (redoStack h) as [ | a r ] eqn:Hr; [ simpl; rewrite Hr; exact H | ].
    pose proof (length_pop (a :: r)) as Hp.
    destruct (pop (a :: r)) as [x r']. cbn [snd fst undoStack redoStack maxSize] in *.
    rewrite Hp. simpl in *. lia.
  - simpl. lia.
  - simpl. exact H.
  - simpl. exact H.
Qed.

(** X7. Whatever a client calls on a new manager, and in whatever order
    ([push], [undo], [redo], [clear], [beginApply], [endApply]), the undo and
    redo stacks together never hold more states than [maxSize]. *)
Theorem history_never_exceeds_maxSize (capacity : option nat) (cs : list Call) :
  let h := calls (new capacity) cs in
  (undoCount h + redoCount h <= maxSize h)%nat.
Proof.
  intros h. unfold h, calls.
  assert (G : forall cs h0, within_capacity h0 -> within_capacity (fold_left call cs h0)).
  { clear. induction cs as [ | c cs IH ]; intros h0 H0; simpl.
    - exact H0.
    - apply IH, call_within_capacity, H0. }
  apply G. unfold within_capacity, undoCount, redoCount. simpl. lia.
Qed.

Lemma undo_snoc (h : HistoryManager) (l : list HistoryState)
    (a c : HistoryState) :
  undoStack h = l ++ [a] ->
  undo h c = (Some a, {| maxSize := maxSize h; undoStack := l;
                         redoStack := redoStack h ++ [c];
                         isApplying := isApplying h |}).
Proof.
  intros Hu. unfold undo. rewrite Hu, pop_snoc, deepCloneState_id.
  destruct (l ++ [a]) eqn:E; [ destruct l; discriminate | reflexivity ].
Qed.

Lemma redo_snoc (h : HistoryManager) (l : list HistoryState) (a : HistoryState) :
  redoStack h = l ++ [a] ->
  redo h = (Some a, {| maxSize := maxSize h; undoStack := undoStack h;
                       redoStack := l; isApplying := isApplying h |}).
Proof.
  intros Hr. unfold redo. rewrite Hr, pop_snoc.
  destruct (l ++ [a]) eqn:E; [ destruct l; discriminate | reflexivity ].
Qed.

Lemma undoEach_snoc (currents : list HistoryState) :
  forall (u : list HistoryState) (h : HistoryManager),
    List.length currents = List.length u ->
    forall base,
    undoStack h = base ++ u ->
    fst (undoEach h currents) = List.map Some (rev u)
    /\ undoStack (snd (undoEach h currents)) = base
    /\ redoStack (snd (undoEach h currents)) = redoStack h ++ currents
    /\ maxSize (snd (undoEach h currents)) = maxSize h
    /\ isApplying (snd (undoEach h currents)) = isApplying h.
Proof.
  induction currents as [ | c currents IH ]; intros u h Hlen base Hu.
  - destruct u; [ | discriminate ]. simpl. rewrite app_nil_r in *.
    repeat split; auto.
  - destruct (exists_last (l := u)) as [u' [a E]].
    { destruct u; [ discriminate | discriminate ]. }
    subst u. rewrite length_app in Hlen. simpl in Hlen.
    cbn [undoEach]. rewrite app_assoc in Hu.
    rewrite (undo_snoc h _ a c Hu).
    set (h' := {| maxSize := maxSize h; undoStack := base ++ u';
                  redoStack := redoStack h ++ [c]; isApplying := isApplying h |}).
    destruct (IH u' h' ltac:(lia) base eq_refl) as [I1 [I2 [I3 [I4 I5]]]].
    destruct (undoEach h' currents) as [rs h''].
    cbn [fst snd] in *.
    rewrite rev_app_distr. simpl. rewrite I1, I2, I3, I4, I5.
    unfold h'. cbn [redoStack maxSize isApplying].
    rewrite <- app_assoc. repeat split; reflexivity.
Qed.

(** X8. After states were pushed onto a new manager, one [undo] per state
    still held returns them newest first, whatever the current states handed
    over; the undo stack is then empty and a further [undo] returns [null]
    and changes nothing. *)
Theorem undo_returns_pushed_states_newest_first
    (capacity : nat) (states currents : list HistoryState) :
  List.length currents = Nat.min (List.length states) capacity ->
  let h := pushAll (new (Some capacity)) states in
  let kept := skipn (List.length states - capacity) states in
  fst (undoEach h currents) = List.map Some (rev kept)
  /\ undoStack (snd (undoEach h currents)) = []
  /\ redoStack (snd (undoEach h currents)) = currents
  /\ forall s, undo (snd (undoEach h currents)) s = (None, snd (undoEach h currents)).
Proof.
  intros Hlen h kept.
  destruct (pushAll_undoStack states (new (Some capacity)) eq_refl (Nat.le_0_l _))
    as [Hu _].
  cbn [new undoStack maxSize defined_or app] in Hu. fold h in Hu. fold kept in Hu.
  assert (Hk : List.length currents = List.length kept).
  { unfold kept. rewrite length_skipn. lia. }
  assert (Hr : redoStack h = []).
  { unfold h. clear. 
    assert (G : forall l h0, isApplying h0 = false -> redoStack h0 = [] ->
                redoStack (pushAll h0 l) = []).
    { induction l as [ | s l IH ]; intros h0 Ha Hr; [ exact Hr | ].
      change (pushAll h0 (s :: l)) with (pushAll (push h0 s) l).
      apply IH; unfold push; rewrite Ha; reflexivity. }
    apply G; reflexivity. }
  destruct (undoEach_snoc currents kept h Hk [] Hu) as [I1 [I2 [I3 _]]].
  rewrite Hr in I3. simpl in I3.
  repeat split; try assumption.
  intros s. unfold undo. rewrite I2. reflexivity.
Qed.

Lemma undo_returns_pushed_states_newest_first_witness :
  let st := fun n => mkState [JNum (Q2Qc (inject_Z n))] [] in
  let states := [st 1%Z; st 2%Z; st 3%Z] in
  let currents := [st 7%Z; st 8%Z] in
  let h := pushAll (new (Some 2%nat)) states in
  fst (undoEach h currents) = [Some (st 3%Z); Some (st 2%Z)]
  /\ undoStack (snd (undoEach h currents)) = []
  /\ redoStack (snd (undoEach h currents)) = currents
  /\ forall s, undo (snd (undoEach h currents)) s = (None, snd (undoEach h currents)).
Proof.
  intros st states currents.
  apply (undo_returns_pushed_states_newest_first 2 states currents).
  reflexivity.
Defined.

Lemma redoTimes_snoc (n : nat) :
  forall (r : list HistoryState) (h : HistoryManager),
    List.length r = n ->
    forall base,
    redoStack h = base ++ r ->
    fst (redoTimes h n) = List.map Some (rev r)
    /\ redoStack (snd (redoTimes h n)) = base
    /\ undoStack (snd (redoTimes h n)) = undoStack h.
Proof.
  induction n as [ | n IH ]; intros r h Hlen base Hr.
  - destruct r; [ | discriminate ]. simpl. rewrite app_nil_r in *. auto.
  - destruct (exists_last (l := r)) as [r' [a E]].
    { destruct r; discriminate. }
    subst r. rewrite length_app in Hlen. simpl in Hlen.
    cbn [redoTimes]. rewrite app_assoc in Hr.
    rewrite (redo_snoc h _ a Hr).
    set (h' := {| maxSize := maxSize h; undoStack := undoStack h;
                  redoStack := base ++ r'; isApplying := isApplying h |}).
    destruct (IH r' h' ltac:(lia) base eq_refl) as [I1 [I2 I3]].
    destruct (redoTimes h' n) as [rs h''].
    cbn [fst snd] in *.
    rewrite rev_app_distr. simpl. rewrite I1, I2, I3. auto.
Qed.

(** X9. After [n] calls of [undo] that all found an entry, [n] calls of
    [redo] return the states that were current at those undos, the last one
    first, and leave the redo stack as it was before the undos. The undo stack
    is not refilled: it stays without the [n] entries that the undos took. *)
Theorem redo_returns_the_undone_currents
    (h : HistoryManager) (currents : list HistoryState) :
  (List.length currents <= undoCount h)%nat ->
  let undone := snd (undoEach h currents) in
  let redone := redoTimes undone (List.length currents) in
  fst redone = List.map Some (rev currents)
  /\ redoStack (snd redone) = redoStack h
  /\ undoStack (snd redone)
     = firstn (undoCount h - List.length currents) (undoStack h).
Proof.
  intros Hlen undone redone. unfold undoCount in *.
  set (k := (List.length (undoStack h) - List.length currents)%nat).
  assert (Hu : undoStack h = firstn k (undoStack h) ++ skipn k (undoStack h)).
  { symmetry. apply firstn_skipn. }
  assert (Hk : List.length currents = List.length (skipn k (undoStack h))).
  { rewrite length_skipn. unfold k. lia. }
  destruct (undoEach_snoc currents _ h Hk _ Hu) as [_ [I2 [I3 _]]].
  fold undone in I2, I3.
  destruct (redoTimes_snoc (List.length currents) currents undone eq_refl _ I3)
    as [J1 [J2 J3]].
  fold redone in J1, J2, J3.
  rewrite J1, J2, J3, I2. auto.
Qed.

Lemma redo_returns_the_undone_currents_witness :
  let st := fun n => mkState [JNum (Q2Qc (inject_Z n))] [] in
  let h := pushAll (new None) [st 1%Z; st 2%Z; st 3%Z] in
  let currents := [st 7%Z; st 8%Z] in
  let undone := snd (undoEach h currents) in
  let redone := redoTimes undone 2 in
  fst redone = [Some (st 8%Z); Some (st 7%Z)]
  /\ redoStack (snd redone) = redoStack h
  /\ undoStack (snd redone) = [st 1%Z].
Proof.
  intros st h currents.
  apply (redo_returns_the_undone_currents h currents).
  vm_compute. lia.
Defined.

End HistoryCallProps.

(** ** More on the boolean operations *)

Module BooleanMoreProps.
Import Js Objects BooleanOperations Fixtures NumFacts QcArith BooleanProps.
Import Predicates.

(** X10. When [lineIntersection] returns a point, that point lies on both
    segments: it is [p1 + t (p2 - p1)] and [p3 + u (p4 - p3)] for some [t]
    and [u] between [0] and [1]. *)
Theorem lineIntersection_lies_on_both_segments (p1 p2 p3 p4 p : Point) :
  lineIntersection p1 p2 p3 p4 = Some p ->
  exists t u,
    0 <= t /\ t <= 1 /\ 0 <= u /\ u <= 1
    /\ p = mkPoint (px p1 + t * (px p2 - px p1)) (py p1 + t * (py p2 - py p1))
    /\ p = mkPoint (px p3 + u * (px p4 - px p3)) (py p3 + u * (py p4 - py p3)).
Proof.
  unfold lineIntersection.
  set (denom := (px p1 - px p2) * (py p3 - py p4)
                - (py p1 - py p2) * (px p3 - px p4)).
  set (t := ((px p1 - px p3) * (py p3 - py p4)
             - (py p1 - py p3) * (px p3 - px p4)) / denom).
  set (u := - ((px p1 - px p2) * (py p1 - py p3)
               - (py p1 - py p2) * (px p1 - px p3)) / denom).
  destruct (ltb (abs denom) (Q2Qc (1 # 10000))) eqn:Hd; [ discriminate | ].
  destruct (leb 0 t && leb t 1 && leb 0 u && leb u 1) eqn:Hr; [ | discriminate ].
  intros H. injection H as <-. unbool.
  assert (Hne : denom <> 0).
  { intros E. rewrite E in Hd. vm_compute in Hd. apply Hd. reflexivity. }
  exists t, u. repeat split; try assumption.
  unfold t, u. f_equal; unfold denom in *; field; exact Hne.
Qed.

Lemma lineIntersection_lies_on_both_segments_witness :
  let p1 := mkPoint 0 0 in
  let p2 := mkPoint (Q2Qc 4) (Q2Qc 4) in
  let p3 := mkPoint 0 (Q2Qc 4) in
  let p4 := mkPoint (Q2Qc 4) 0 in
  exists t u,
    0 <= t /\ t <= 1 /\ 0 <= u /\ u <= 1
    /\ mkPoint (Q2Qc 2) (Q2Qc 2)
       = mkPoint (px p1 + t * (px p2 - px p1)) (py p1 + t * (py p2 - py p1))
    /\ mkPoint (Q2Qc 2) (Q2Qc 2)
       = mkPoint (px p3 + u * (px p4 - px p3)) (py p3 + u * (py p4 - py p3)).
Proof.
  intros p1 p2 p3 p4.
  apply (lineIntersection_lies_on_both_segments p1 p2 p3 p4 (mkPoint (Q2Qc 2) (Q2Qc 2))).
  vm_compute. f_equal.
Defined.

(** X11. For a rectangle without rounded corners and with a width and height
    that are not negative, [pointInPolygon] on the polygon that
    [objectToPolygon] makes of it holds exactly for the points with
    [x <= px < x + width] and [y <= py < y + height]: the left and top edges
    count as inside, the right and bottom edges do not. *)
Theorem pointInPolygon_of_a_rectangle
    (Math_cos Math_sin : Qc -> Qc) (Math_PI : Qc)
    (c : Common) (g : Geom) (cornerRadius : Qc) (p : Point) :
  cornerRadius <= 0 -> 0 <= width g -> 0 <= height g ->
  pointInPolygon p
    (objectToPolygon Math_cos Math_sin Math_PI (Rectangle c g cornerRadius))
  = leb (x g) (px p) && ltb (px p) (x g + width g)
    && leb (y g) (py p) && ltb (py p) (y g + height g).
Proof.
  intros Hr Hw Hh. unfold objectToPolygon.
  cbn [type_of String.eqb Ascii.eqb Bool.eqb cornerRadius_of get_x get_y
       get_width get_height].
  assert (E : negb (eqb cornerRadius 0) && ltb 0 cornerRadius = false).
  { apply andb_false_iff. right. apply ltb_ge. exact Hr. }
  rewrite E. destruct g as [x y w h]. cbn [Objects.x Objects.y width height] in *.
  unfold pointInPolygon. cbn [List.length seq fold_left fst at_index nth px py Nat.sub].
  replace ((x - x) * (py p - y) / (y + h - y) + x) with x
    by (unfold Qcdiv; ring).
  replace ((x + w - (x + w)) * (py p - (y + h)) / (y - (y + h)) + (x + w))
    with (x + w) by (unfold Qcdiv; ring).
  split_tests; unbool; try reflexivity; exfalso; qc_lra.
Qed.

Lemma pointInPolygon_of_a_rectangle_witness :
  pointInPolygon (mkPoint 0 (Q2Qc 3))
    (objectToPolygon (fun a => a) (fun a => a) (Q2Qc 3) test_rectangle)
  = leb 0 0 && ltb 0 (0 + Q2Qc 10) && leb 0 (Q2Qc 3) && ltb (Q2Qc 3) (0 + Q2Qc 10).
Proof.
  apply (pointInPolygon_of_a_rectangle (fun a => a) (fun a => a) (Q2Qc 3)
           (test_common "obj_r") (mkGeom 0 0 (Q2Qc 10) (Q2Qc 10)) 0
           (mkPoint 0 (Q2Qc 3)));
    vm_compute; discriminate.
Defined.

Lemma not_above_refl (p : Point) : not_above p p.
Proof. right. split; [ reflexivity | apply Qcle_refl ]. Qed.

Lemma not_above_trans (p q r : Point) :
  not_above p q -> not_above q r -> not_above p r.
Proof.
  unfold not_above. intros [H1 | [H1 H1']] [H2 | [H2 H2']].
  - left. qc_lra.
  - left. qc_lra.
  - left. qc_lra.
  - right. split; qc_lra.
Qed.

Lemma lowest_step_spec (points : list Point) (start i : nat) :
  (lowest_step points start i = i \/ lowest_step points start i = start)
  /\ not_above (at_index points (lowest_step points start i))
       (at_index points start)
  /\ not_above (at_index points (lowest_step points start i))
       (at_index points i).
Proof.
  unfold lowest_step.
  destruct (ltb (py (at_index points i)) (py (at_index points start))) eqn:E1;
    cbn [orb].
  - split; [ left; reflexivity | ]. unbool. split.
    + left. exact E1.
    + apply not_above_refl.
  - destruct (eqb (py (at_index points i)) (py (at_index points start))) eqn:E2;
      cbn [andb].
    + destruct (ltb (px (at_index points i)) (px (at_index points start))) eqn:E3;
        unbool.
      * split; [ left; reflexivity | ]. split.
        -- right. split; [ exact E2 | apply Qclt_le_weak; exact E3 ].
        -- apply not_above_refl.
      * split; [ right; reflexivity | ]. split.
        -- apply not_above_refl.
        -- right. split; [ symmetry; exact E2 | exact E3 ].
    + unbool. split; [ right; reflexivity | ]. split.
      * apply not_above_refl.
      * left. destruct (Qc_dec (py (at_index points start))
                          (py (at_index points i))) as [[H | H] | H].
        -- exact H.
        -- exfalso. exact (Qclt_not_le _ _ H E1).
        -- exfalso. apply E2. symmetry. exact H.
Qed.

(** The loop that looks for the lowest point: the index it ends with is one
    of those it saw, and no point it saw is below that one. *)
Lemma find_lowest_fold (points : list Point) (indices : list nat) :
  forall start,
    In (fold_left (lowest_step points) indices start) (start :: indices)
    /\ forall i, In i (start :: indices) ->
         not_above (at_index points (fold_left (lowest_step points) indices start))
           (at_index points i).
Proof.
  induction indices as [ | i indices IH ]; intros start; cbn [fold_left].
  - split; [ left; reflexivity | ].
    intros i [<- | []]. apply not_above_refl.
  - destruct (IH (lowest_step points start i)) as [Hin Hmin].
    destruct (lowest_step_spec points start i) as [Hcase [Hs Hi]]. split.
    + destruct Hin as [Hin | Hin].
      * destruct Hcase as [E | E]; rewrite <- Hin, E;
          [ right; left; reflexivity | left; reflexivity ].
      * right. right. exact Hin.
    + intros k [<- | [<- | Hk]].
      * eapply not_above_trans; [ apply Hmin; left; reflexivity | exact Hs ].
      * eapply not_above_trans; [ apply Hmin; left; reflexivity | exact Hi ].
      * apply Hmin. right. exact Hk.
Qed.

Lemma find_lowest_is_lowest (points : list Point) :
  points <> [] ->
  (find_lowest points < List.length points)%nat
  /\ forall p, In p points ->
       not_above (at_index points (find_lowest points)) p.
Proof.
  intros Hne.
  change (find_lowest points)
    with (fold_left (lowest_step points) (seq 1 (List.length points - 1)) 0%nat).
  destruct (find_lowest_fold points (seq 1 (List.length points - 1)) 0%nat)
    as [Hin Hmin].
  assert (Hlen : (0 < List.length points)%nat).
  { destruct points; [ contradiction | simpl; lia ]. }
  assert (Hall : forall i, (i < List.length points)%nat ->
                   In i (0%nat :: seq 1 (List.length points - 1))).
  { intros i Hi. destruct i; [ left; reflexivity | right ].
    apply in_seq. lia. }
  split.
  - destruct Hin as [<- | Hin]; [ exact Hlen | ].
    apply in_seq in Hin. lia.
  - intros p Hp. destruct (In_nth _ _ origin Hp) as [i [Hi <-]].
    apply Hmin, Hall, Hi.
Qed.

Lemma set_nth_in {A : Type} (i : nat) (v a : A) (l : list A) :
  In a (set_nth i v l) -> a = v \/ In a l.
Proof.
  revert i. induction l as [ | b l IH ]; intros i; destruct i; simpl.
  - intros [].
  - intros [].
  - intros [H | H]; [ left; symmetry; exact H | right; right; exact H ].
  - intros [H | H]; [ right; left; exact H | ].
    destruct (IH i H) as [H' | H']; [ left; exact H' | right; right; exact H' ].
Qed.

Lemma swapped_in (points : list Point) (p : Point) :
  points <> [] -> In p (swapped points) -> In p points.
Proof.
  intros Hne H. unfold swapped in H.
  destruct (find_lowest_is_lowest points Hne) as [Hlt _].
  assert (Hat : forall i, (i < List.length points)%nat ->
                  In (at_index points i) points).
  { intros i Hi. apply nth_In. exact Hi. }
  apply set_nth_in in H. destruct H as [-> | H].
  - apply Hat. destruct points; [ contradiction | simpl; lia ].
  - apply set_nth_in in H. destruct H as [-> | H].
    + apply Hat. exact Hlt.
    + exact H.
Qed.

Lemma swapped_head (points : list Point) :
  points <> [] ->
  exists rest,
    swapped points = at_index points (find_lowest points) :: rest.
Proof.
  intros Hne. unfold swapped.
  destruct points as [ | a l ]; [ contradiction | ].
  destruct (find_lowest (a :: l)) as [ | k ]; simpl; eexists; reflexivity.
Qed.

Lemma sort_in {A : Type} (f : A -> A -> Qc) (l : list A) (b : A) :
  In b (sort f l) -> In b l.
Proof.
  unfold sort.
  assert (G : forall acc, In b (fold_left (fun sorted a => insert_sorted f a sorted) l acc)
                          -> In b acc \/ In b l).
  { induction l as [ | a l IH ]; intros acc H; simpl in *.
    - left. exact H.
    - destruct (IH _ H) as [H' | H'].
      + apply insert_sorted_in in H'. destruct H' as [-> | H'].
        * right. left. reflexivity.
        * left. exact H'.
      + right. right. exact H'. }
  intros H. destruct (G [] H) as [[] | H']. exact H'.
Qed.

(** The [while] loop of the scan only takes points off the hull, and never
    the first one that was put there. *)
Lemma pop_while_keeps_the_bottom (point pivot : Point) (above : list Point) :
  exists above',
    pop_while point (above ++ [pivot]) = above' ++ [pivot]
    /\ incl above' above.
Proof.
  induction above as [ | top above IH ].
  - exists []. split; [ reflexivity | apply incl_refl ].
  - cbn [app pop_while].
    destruct (above ++ [pivot]) as [ | second below ] eqn:E.
    { destruct above; discriminate. }
    destruct (leb (cross second top point) 0).
    + destruct IH as [above' [H1 H2]]. exists above'. split.
      * exact H1.
      * apply incl_tl. exact H2.
    + exists (top :: above). split.
      * rewrite <- E. reflexivity.
      * apply incl_refl.
Qed.

Lemma scan_keeps_the_bottom (sorted : list Point) (pivot : Point) :
  forall above,
    exists above',
      fold_left (fun hull point => point :: pop_while point hull)
        sorted (above ++ [pivot])
      = above' ++ [pivot]
      /\ incl above' (above ++ sorted).
Proof.
  induction sorted as [ | point sorted IH ]; intros above; cbn [fold_left].
  - exists above. split; [ reflexivity | rewrite app_nil_r; apply incl_refl ].
  - destruct (pop_while_keeps_the_bottom point pivot above) as [a1 [E1 I1]].
    rewrite E1.
    destruct (IH (point :: a1)) as [a2 [E2 I2]].
    exists a2. split; [ exact E2 | ].
    intros q Hq. apply I2 in Hq. cbn [app] in Hq.
    destruct Hq as [<- | Hq].
    + apply in_or_app. right. left. reflexivity.
    + apply in_app_or in Hq. apply in_or_app. destruct Hq as [Hq | Hq].
      * left. apply I1. exact Hq.
      * right. right. exact Hq.
Qed.

(** X12. For three points or more, and whatever [Math.atan2] answers,
    [convexHull] returns points of its input only, and the first of them is
    the lowest point of the input, the leftmost one among the lowest. *)
Theorem convexHull_starts_at_the_lowest_point
    (Math_atan2 : Qc -> Qc -> Qc) (points : list Point) :
  (3 <= List.length points)%nat ->
  incl (convexHull Math_atan2 points) points
  /\ exists pivot rest,
       convexHull Math_atan2 points = pivot :: rest
       /\ In pivot points
       /\ forall p, In p points ->
            py pivot < py p \/ (py pivot = py p /\ px pivot <= px p).
Proof.
  intros Hlen.
  assert (Hne : points <> []) by (destruct points; [ simpl in Hlen; lia | discriminate ]).
  destruct (find_lowest_is_lowest points Hne) as [Hlt Hmin].
  destruct (swapped_head points Hne) as [others Hs].
  unfold convexHull.
  destruct (Nat.ltb_spec (List.length points) 3) as [H | _]; [ lia | ].
  fold (swapped points). rewrite Hs.
  cbn [tl]. change (at_index (?p :: others) 0) with p.
  set (pivot := at_index points (find_lowest points)) in *.
  destruct (scan_keeps_the_bottom (sort (by_angle Math_atan2 pivot) others) pivot [])
    as [above [E I]].
  cbn [app] in E, I. rewrite E, rev_app_distr. cbn [rev app].
  assert (Hp : In pivot points) by (apply nth_In; exact Hlt).
  assert (Ho : forall q, In q above -> In q points).
  { intros q Hq. apply I, sort_in in Hq.
    apply (swapped_in points q Hne). rewrite Hs. right. exact Hq. }
  split.
  - intros q [<- | Hq]; [ exact Hp | ].
    apply Ho. apply in_rev. exact Hq.
  - exists pivot, (rev above). split; [ reflexivity | ].
    split; [ exact Hp | ].
    intros p Hin. exact (Hmin p Hin).
Qed.

Lemma convexHull_starts_at_the_lowest_point_witness :
  let points := [ mkPoint (Q2Qc 2) (Q2Qc 3); mkPoint (Q2Qc 5) 1; mkPoint 1 1;
                  mkPoint (Q2Qc 3) (Q2Qc 2) ] in
  incl (convexHull diamond_angle points) points
  /\ exists pivot rest,
       convexHull diamond_angle points = pivot :: rest
       /\ In pivot points
       /\ forall p, In p points ->
            py pivot < py p \/ (py pivot = py p /\ px pivot <= px p).
Proof.
  intros points.
  apply (convexHull_starts_at_the_lowest_point diamond_angle points).
  simpl. lia.
Defined.

End BooleanMoreProps.

(** ** Reading and writing position and size *)

Module AccessorFacts.
Import Js Objects.

(** What is written to a property is read back. *)
Lemma get_x_set_x (v : Qc) (o : DesignObject) : get_x (set_x v o) = v.
Proof. destruct o; reflexivity. Qed.

Lemma get_y_set_y (v : Qc) (o : DesignObject) : get_y (set_y v o) = v.
Proof. destruct o; reflexivity. Qed.

Lemma get_width_set_width (v : Qc) (o : DesignObject) :
  get_width (set_width v o) = v.
Proof. destruct o; reflexivity. Qed.

Lemma get_height_set_height (v : Qc) (o : DesignObject) :
  get_height (set_height v o) = v.
Proof. destruct o; reflexivity. Qed.

(** Writing one of the four leaves the other three alone. *)
Lemma get_x_set_y (v : Qc) (o : DesignObject) : get_x (set_y v o) = get_x o.
Proof. destruct o; reflexivity. Qed.

Lemma get_x_set_width (v : Qc) (o : DesignObject) :
  get_x (set_width v o) = get_x o.
Proof. destruct o; reflexivity. Qed.

Lemma get_x_set_height (v : Qc) (o : DesignObject) :
  get_x (set_height v o) = get_x o.
Proof. destruct o; reflexivity. Qed.

Lemma get_y_set_x (v : Qc) (o : DesignObject) : get_y (set_x v o) = get_y o.
Proof. destruct o; reflexivity. Qed.

Lemma get_y_set_width (v : Qc) (o : DesignObject) :
  get_y (set_width v o) = get_y o.
Proof. destruct o; reflexivity. Qed.

Lemma get_y_set_height (v : Qc) (o : DesignObject) :
  get_y (set_height v o) = get_y o.
Proof. destruct o; reflexivity. Qed.

Lemma get_height_set_x (v : Qc) (o : DesignObject) :
  get_height (set_x v o) = get_height o.
Proof. destruct o; reflexivity. Qed.

Lemma get_height_set_y (v : Qc) (o : DesignObject) :
  get_height (set_y v o) = get_height o.
Proof. destruct o; reflexivity. Qed.

Lemma get_height_set_width (v : Qc) (o : DesignObject) :
  get_height (set_width v o) = get_height o.
Proof. destruct o; reflexivity. Qed.

End AccessorFacts.

(** ** Constraints, gradients, paths, groups and instances *)

Module ObjectMethodProps.
Import Js Objects ObjectMethods NumFacts QcArith LayoutProps AccessorFacts.
Import Predicates.

(** *** Gradient.addStop *)

Lemma insert_sorted_perm {A : Type} (f : A -> A -> Qc) (a : A) (l : list A) :
  Permutation (BooleanOperations.insert_sorted f a l) (a :: l).
Proof.
  induction l as [ | b l IH ]; simpl.
  - apply Permutation_refl.
  - destruct (ltb (f a b) 0).
    + apply Permutation_refl.
    + eapply Permutation_trans; [ apply perm_skip, IH | apply perm_swap ].
Qed.

Lemma sort_perm {A : Type} (f : A -> A -> Qc) (l : list A) :
  Permutation (BooleanOperations.sort f l) l.
Proof.
  unfold BooleanOperations.sort.
  assert (G : forall acc,
            Permutation
              (fold_left (fun sorted a => BooleanOperations.insert_sorted f a sorted) l acc)
              (acc ++ l)).
  { induction l as [ | a l IH ]; intros acc; simpl.
    - rewrite app_nil_r. apply Permutation_refl.
    - eapply Permutation_trans; [ apply IH | ].
      eapply Permutation_trans;
        [ apply Permutation_app_tail, insert_sorted_perm | ].
      simpl. apply Permutation_middle. }
  apply (G []).
Qed.

Lemma insert_stop_sorted (a : Gradient.GradientStop)
    (l : list Gradient.GradientStop) :
  StronglySorted by_offset l ->
  StronglySorted by_offset (BooleanOperations.insert_sorted stop_compare a l).
Proof.
  induction 1 as [ | b l Hs IH Hb ]; simpl.
  - constructor; [ constructor | constructor ].
  - unfold stop_compare at 1.
    destruct (ltb (Gradient.offset a - Gradient.offset b) 0) eqn:E; unbool.
    + constructor; [ constructor; assumption | ].
      constructor.
      * unfold by_offset. qc_lra.
      * eapply Forall_impl; [ | exact Hb ].
        unfold by_offset. intros c Hc. qc_lra.
    + constructor; [ exact IH | ].
      apply (Permutation_Forall (Permutation_sym (insert_sorted_perm stop_compare a l))).
      constructor; [ | exact Hb ].
      unfold by_offset. qc_lra.
Qed.

(** X13. After [addStop], whatever the order of the stops was before, the
    stops of the gradient are in the order of their offsets, and they are the
    old stops and the new one, each as often as before. *)
Theorem addStop_keeps_the_stops_in_order (g : Gradient.t) (offset : Qc)
    (color : string) :
  StronglySorted by_offset (Gradient.stops (Gradient_addStop g offset color))
  /\ Permutation (Gradient.stops (Gradient_addStop g offset color))
       (Gradient.mkStop offset color :: Gradient.stops g).
Proof.
  unfold Gradient_addStop. cbn [Gradient.stops]. split.
  - unfold BooleanOperations.sort.
    assert (G : forall l acc,
              StronglySorted by_offset acc ->
              StronglySorted by_offset
                (fold_left
                   (fun sorted a => BooleanOperations.insert_sorted stop_compare a sorted)
                   l acc)).
    { induction l as [ | a l IH ]; intros acc H; simpl.
      - exact H.
      - apply IH, insert_stop_sorted, H. }
    apply G. constructor.
  - eapply Permutation_trans; [ apply sort_perm | ].
    apply Permutation_sym, Permutation_cons_append.
Qed.

(** *** Constraints *)

(** What the horizontal part of [apply] leaves of the child, and what the
    vertical part leaves of its horizontal position and size. *)
Lemma apply_x (k : Constraints.t) (child parent : DesignObject) :
  get_x (Constraints_apply k child parent)
  = match Constraints.horizontal k with
    | Constraints.left => get_x parent + Constraints.originalX k
    | Constraints.right =>
      get_x parent + Constraints.originalX k
      + (get_width parent - Constraints.originalParentWidth k)
    | Constraints.hcenter =>
      get_x parent + Constraints.originalX k
      + (get_width parent - Constraints.originalParentWidth k) / Q2Qc 2
    | Constraints.hscale =>
      get_x (set_width
               (Constraints.originalWidth k
                * (get_width parent / Constraints.originalParentWidth k))
               (set_x (get_x parent
                       + Constraints.originalX k
                         * (get_width parent / Constraints.originalParentWidth k))
                  child))
    | Constraints.left_right =>
      get_x (set_width
               (Constraints.originalWidth k
                + (get_width parent - Constraints.originalParentWidth k))
               (set_x (get_x parent + Constraints.originalX k) child))
    end.
Proof.
  unfold Constraints_apply.
  destruct (Constraints.vertical k);
    rewrite ?get_x_set_height, ?get_x_set_y;
    destruct (Constraints.horizontal k);
    rewrite ?get_x_set_x; reflexivity.
Qed.

Lemma apply_width_pinned (k : Constraints.t) (child parent : DesignObject) :
  match Constraints.horizontal k with
  | Constraints.left | Constraints.right | Constraints.hcenter =>
    get_width (Constraints_apply k child parent) = get_width child
  | _ => True
  end.
Proof.
  unfold Constraints_apply.
  destruct (Constraints.horizontal k); try exact I;
    destruct (Constraints.vertical k);
    rewrite ?get_width_set_height, ?get_width_set_y, ?get_width_set_x;
    reflexivity.
Qed.

Lemma apply_y (k : Constraints.t) (child parent : DesignObject) :
  match Constraints.vertical k with
  | Constraints.top =>
    get_y (Constraints_apply k child parent)
    = get_y parent + Constraints.originalY k
  | Constraints.bottom =>
    get_y (Constraints_apply k child parent)
    = get_y parent + Constraints.originalY k
      + (get_height parent - Constraints.originalParentHeight k)
  | Constraints.vcenter =>
    get_y (Constraints_apply k child parent)
    = get_y parent + Constraints.originalY k
      + (get_height parent - Constraints.originalParentHeight k) / Q2Qc 2
  | _ => True
  end.
Proof.
  unfold Constraints_apply.
  destruct (Constraints.vertical k); try exact I; apply get_y_set_y.
Qed.

Lemma apply_height_pinned (k : Constraints.t) (child parent : DesignObject) :
  match Constraints.vertical k with
  | Constraints.top | Constraints.bottom | Constraints.vcenter =>
    get_height (Constraints_apply k child parent) = get_height child
  | _ => True
  end.
Proof.
  unfold Constraints_apply.
  destruct (Constraints.vertical k); try exact I;
    rewrite get_height_set_y;
    destruct (Constraints.horizontal k);
    rewrite ?get_height_set_width, ?get_height_set_x; reflexivity.
Qed.

(** X14. A child whose constraints were initialized against its parent keeps,
    when the parent is moved or resized and the constraints are applied, the
    margin that its constraint names: the distance to the parent's left edge
    for [left], to its right edge for [right], between the two centres for
    [center]; and [top], [bottom] and [center] do the same vertically. *)
Theorem pinned_constraints_keep_their_margin (k : Constraints.t)
    (child parent parent' : DesignObject) :
  let k' := Constraints_initialize k child parent in
  let child' := Constraints_apply k' child parent' in
  (Constraints.horizontal k = Constraints.left ->
     get_x child' - get_x parent' = get_x child - get_x parent)
  /\ (Constraints.horizontal k = Constraints.right ->
        (get_x parent' + get_width parent') - (get_x child' + get_width child')
        = (get_x parent + get_width parent) - (get_x child + get_width child))
  /\ (Constraints.horizontal k = Constraints.hcenter ->
        (get_x child' + get_width child' / Q2Qc 2)
        - (get_x parent' + get_width parent' / Q2Qc 2)
        = (get_x child + get_width child / Q2Qc 2)
          - (get_x parent + get_width parent / Q2Qc 2))
  /\ (Constraints.vertical k = Constraints.top ->
        get_y child' - get_y parent' = get_y child - get_y parent)
  /\ (Constraints.vertical k = Constraints.bottom ->
        (get_y parent' + get_height parent') - (get_y child' + get_height child')
        = (get_y parent + get_height parent) - (get_y child + get_height child))
  /\ (Constraints.vertical k = Constraints.vcenter ->
        (get_y child' + get_height child' / Q2Qc 2)
        - (get_y parent' + get_height parent' / Q2Qc 2)
        = (get_y child + get_height child / Q2Qc 2)
          - (get_y parent + get_height parent / Q2Qc 2)).
Proof.
  intros k' child'.
  pose proof (apply_x k' child parent') as X.
  pose proof (apply_width_pinned k' child parent') as W.
  pose proof (apply_y k' child parent') as Y.
  pose proof (apply_height_pinned k' child parent') as H.
  fold child' in X, W, Y, H.
  unfold k' in X, W, Y, H.
  cbn [Constraints_initialize Constraints.horizontal Constraints.vertical
       Constraints.originalX Constraints.originalY
       Constraints.originalWidth Constraints.originalHeight
       Constraints.originalParentWidth Constraints.originalParentHeight]
    in X, W, Y, H.
  repeat split; intros E; rewrite E in *; clear E.
  - rewrite X. ring.
  - rewrite X, W. ring.
  - rewrite X, W. field. discriminate.
  - rewrite Y. ring.
  - rewrite Y, H. ring.
  - rewrite Y, H. field. discriminate.
Qed.

(** X15. With constraints initialized against its parent, [left-right] keeps
    both horizontal margins of the child as the parent is resized, and
    [scale], for a parent that had a width other than [0] at initialization,
    scales the child's offset and width by the factor by which the parent's
    width changed. [top-bottom] and the vertical [scale] do the same with
    the height. *)
Theorem stretch_and_scale_constraints (k : Constraints.t)
    (child parent parent' : DesignObject) :
  let k' := Constraints_initialize k child parent in
  let child' := Constraints_apply k' child parent' in
  (Constraints.horizontal k = Constraints.left_right ->
     get_x child' - get_x parent' = get_x child - get_x parent
     /\ (get_x parent' + get_width parent') - (get_x child' + get_width child')
        = (get_x parent + get_width parent) - (get_x child + get_width child))
  /\ (Constraints.horizontal k = Constraints.hscale ->
        get_width parent <> 0 ->
        get_x child' - get_x parent'
        = (get_x child - get_x parent) * (get_width parent' / get_width parent)
        /\ get_width child'
           = get_width child * (get_width parent' / get_width parent))
  /\ (Constraints.vertical k = Constraints.top_bottom ->
        get_y child' - get_y parent' = get_y child - get_y parent
        /\ (get_y parent' + get_height parent') - (get_y child' + get_height child')
           = (get_y parent + get_height parent) - (get_y child + get_height child))
  /\ (Constraints.vertical k = Constraints.vscale ->
        get_height parent <> 0 ->
        get_y child' - get_y parent'
        = (get_y child - get_y parent) * (get_height parent' / get_height parent)
        /\ get_height child'
           = get_height child * (get_height parent' / get_height parent)).
Proof.
  intros k' child'.
  unfold child', k', Constraints_apply, Constraints_initialize.
  cbn [Constraints.horizontal Constraints.vertical
       Constraints.originalX Constraints.originalY
       Constraints.originalWidth Constraints.originalHeight
       Constraints.originalParentWidth Constraints.originalParentHeight].
  split; [ | split; [ | split ] ].
  - intros E. rewrite E.
    destruct (Constraints.vertical k);
      rewrite ?get_x_set_height, ?get_x_set_y, ?get_width_set_height,
        ?get_width_set_y;
      rewrite ?get_x_set_width, ?get_width_set_width, ?get_x_set_x;
      split; ring.
  - intros E Hne. rewrite E.
    destruct (Constraints.vertical k);
      rewrite ?get_x_set_height, ?get_x_set_y, ?get_width_set_height,
        ?get_width_set_y;
      rewrite ?get_x_set_width, ?get_width_set_width, ?get_x_set_x;
      split; field; exact Hne.
  - intros E. rewrite E.
    destruct (Constraints.horizontal k);
      rewrite ?get_y_set_height, ?get_height_set_height, ?get_y_set_y;
      rewrite ?get_y_set_width, ?get_y_set_x, ?get_height_set_width,
        ?get_height_set_x;
      split; ring.
  - intros E Hne. rewrite E.
    destruct (Constraints.horizontal k);
      rewrite ?get_y_set_height, ?get_height_set_height, ?get_y_set_y;
      rewrite ?get_y_set_width, ?get_y_set_x, ?get_height_set_width,
        ?get_height_set_x;
      split; field; exact Hne.
Qed.

(** *** Bounds of paths and groups *)

(** The running minimum and maximum of the loops that compute bounds. *)
Lemma min_from_le (m : option Qc) (v : Qc) :
  exists r, min_from m v = Some r /\ r <= v
            /\ match m with Some m0 => r <= m0 | None => True end.
Proof.
  destruct m as [m0 | ]; simpl.
  - exists (Js.min m0 v). split; [ reflexivity | ].
    destruct (min_cases m0 v) as [[-> H] | [-> H]]; split;
      first [ assumption | apply Qcle_refl ].
  - exists v. repeat split. apply Qcle_refl.
Qed.

Lemma max_from_ge (m : option Qc) (v : Qc) :
  exists r, max_from m v = Some r /\ v <= r
            /\ match m with Some m0 => m0 <= r | None => True end.
Proof.
  destruct m as [m0 | ]; simpl.
  - exists (Js.max m0 v). split; [ reflexivity | ].
    destruct (max_cases m0 v) as [[-> H] | [-> H]]; split;
      first [ assumption | apply Qcle_refl ].
  - exists v. repeat split. apply Qcle_refl.
Qed.

(** A loop that keeps a running minimum of [lo] and a running maximum of
    [hi] ends with a minimum below every [lo] and a maximum above every [hi]
    it has seen. *)
Lemma running_box {A : Type} (lo hi : A -> Qc) (l : list A) :
  forall (mn mx : option Qc),
    let '(mn', mx') :=
      fold_left (fun (acc : option Qc * option Qc) a =>
                   (min_from (fst acc) (lo a), max_from (snd acc) (hi a)))
        l (mn, mx) in
    (forall v, below mn v -> below mn' v)
    /\ (forall v, above mx v -> above mx' v)
    /\ (forall a, In a l -> below mn' (lo a) /\ above mx' (hi a))
    /\ (l <> [] -> mn' <> None /\ mx' <> None).
Proof.
  induction l as [ | a l IH ]; intros mn mx; cbn [fold_left fst snd].
  - repeat split; auto; try contradiction.
  - destruct (min_from_le mn (lo a)) as [r1 [E1 [L1 M1]]].
    destruct (max_from_ge mx (hi a)) as [r2 [E2 [L2 M2]]].
    rewrite E1, E2. specialize (IH (Some r1) (Some r2)).
    destruct (fold_left _ l (Some r1, Some r2)) as [mn' mx'].
    destruct IH as [I1 [I2 [I3 I4]]].
    split; [ | split; [ | split ] ].
    + intros v Hv. apply I1. destruct mn as [m0 | ]; [ | contradiction ].
      simpl in *. qc_lra.
    + intros v Hv. apply I2. destruct mx as [m0 | ]; [ | contradiction ].
      simpl in *. qc_lra.
    + intros b [<- | Hb]; [ | apply I3; exact Hb ]. split.
      * apply I1. exact L1.
      * apply I2. exact L2.
    + intros _.
      pose proof (I1 r1 (Qcle_refl _)) as B. pose proof (I2 r2 (Qcle_refl _)) as T.
      split; [ destruct mn' | destruct mx' ]; try discriminate; contradiction.
Qed.

(** The two loops over four running values are two loops of
    [running_box], one per axis. *)
Lemma box_fold {A : Type} (lox hix loy hiy : A -> Qc) (l : list A) :
  forall a b c d,
    fold_left
      (fun (acc : option Qc * option Qc * option Qc * option Qc) p =>
         let '(minX, minY, maxX, maxY) := acc in
         (min_from minX (lox p), min_from minY (loy p),
          max_from maxX (hix p), max_from maxY (hiy p)))
      l (a, b, c, d)
    = (fst (fold_left (fun (acc : option Qc * option Qc) p =>
                         (min_from (fst acc) (lox p), max_from (snd acc) (hix p)))
              l (a, c)),
       fst (fold_left (fun (acc : option Qc * option Qc) p =>
                         (min_from (fst acc) (loy p), max_from (snd acc) (hiy p)))
              l (b, d)),
       snd (fold_left (fun (acc : option Qc * option Qc) p =>
                         (min_from (fst acc) (lox p), max_from (snd acc) (hix p)))
              l (a, c)),
       snd (fold_left (fun (acc : option Qc * option Qc) p =>
                         (min_from (fst acc) (loy p), max_from (snd acc) (hiy p)))
              l (b, d))).
Proof.
  induction l as [ | p l IH ]; intros a b c d; cbn [fold_left fst snd].
  - reflexivity.
  - apply IH.
Qed.

(** The box that such a pair of loops computes over a sequence that is not
    empty holds every element of it. *)
Lemma box_holds_all {A : Type} (lox hix loy hiy : A -> Qc) (l : list A) :
  l <> [] ->
  exists minX minY maxX maxY,
    fold_left
      (fun (acc : option Qc * option Qc * option Qc * option Qc) p =>
         let '(minX, minY, maxX, maxY) := acc in
         (min_from minX (lox p), min_from minY (loy p),
          max_from maxX (hix p), max_from maxY (hiy p)))
      l (None, None, None, None)
    = (Some minX, Some minY, Some maxX, Some maxY)
    /\ forall p, In p l ->
         minX <= lox p /\ hix p <= maxX /\ minY <= loy p /\ hiy p <= maxY.
Proof.
  intros Hne. rewrite box_fold.
  pose proof (running_box lox hix l None None) as X.
  pose proof (running_box loy hiy l None None) as Y.
  destruct (fold_left _ l (None, None)) as [mnx mxx].
  destruct (fold_left _ l (None, None)) as [mny mxy].
  destruct X as [_ [_ [X3 X4]]]. destruct Y as [_ [_ [Y3 Y4]]].
  destruct (X4 Hne) as [X5 X6]. destruct (Y4 Hne) as [Y5 Y6].
  destruct mnx as [minX | ]; [ | contradiction ].
  destruct mxx as [maxX | ]; [ | contradiction ].
  destruct mny as [minY | ]; [ | contradiction ].
  destruct mxy as [maxY | ]; [ | contradiction ].
  exists minX, minY, maxX, maxY. split; [ reflexivity | ].
  intros p Hp. destruct (X3 p Hp) as [P1 P2]. destruct (Y3 p Hp) as [P3 P4].
  simpl in *. auto.
Qed.

Lemma or_num_same (a : Qc) : or_num a 0 = a.
Proof.
  unfold or_num. destruct (eqb a 0) eqn:E; [ | reflexivity ].
  unbool. symmetry. exact E.
Qed.

Lemma or_num_twice (a d : Qc) : d <> 0 -> or_num (or_num a d) d = or_num a d.
Proof.
  intros Hd. unfold or_num. destruct (eqb a 0) eqn:E.
  - destruct (eqb d 0) eqn:E'; [ | reflexivity ]. unbool. contradiction.
  - rewrite E. reflexivity.
Qed.

Lemma span_covers (lo hi : Qc) : lo <= hi -> hi <= lo + or_num (hi - lo) 1.
Proof.
  intros H. unfold or_num. destruct (eqb (hi - lo) 0) eqn:E; unbool; qc_lra.
Qed.

(** X16. After [addPoint], whatever the path and its bounds were before, the
    path has the new anchor as its last point and its bounds hold every
    anchor point of the path, by [Utils.pointInRect]. *)
Theorem addPoint_bounds_hold_every_anchor (c : Common) (g : Geom)
    (points : list PathPoint) (closed : bool) (b : PathBounds)
    (x y : option Qc) (handleIn handleOut : nullable Point) :
  let anchor := mkPathPoint (num_or x 0) (num_or y 0)
                  (truthy_obj handleIn) (truthy_obj handleOut) in
  let path := Path_addPoint (Path c g points closed b) x y handleIn handleOut in
  (exists b', path = Path c g (points ++ [anchor]) closed b')
  /\ forall p,
       In p (points ++ [anchor]) ->
       Geometry.pointInRect (ppx p) (ppy p) (bounds path) = true.
Proof.
  intros anchor path. unfold path. cbn [Path_addPoint]. fold anchor.
  split; [ eexists; reflexivity | ].
  intros p Hp. cbn [bounds]. unfold Path_updateBounds.
  destruct (box_holds_all ppx ppx ppy ppy (points ++ [anchor]))
    as [minX [minY [maxX [maxY [E H]]]]].
  { destruct points; discriminate. }
  rewrite E. cbn [_x _y _width _height].
  destruct (H p Hp) as [H1 [H2 [H3 H4]]].
  rewrite !or_num_same, !or_num_twice by discriminate.
  unfold Geometry.pointInRect. cbn [rx ry rwidth rheight].
  assert (Wx : maxX <= minX + or_num (maxX - minX) 1)
    by (apply span_covers; qc_lra).
  assert (Wy : maxY <= minY + or_num (maxY - minY) 1)
    by (apply span_covers; qc_lra).
  repeat (apply andb_true_iff; split); apply leb_le;
    first [ assumption | qc_lra ].
Qed.

(** X17. After [addChild], the position and size of a group are the box
    around the bounds of its children: the group holds the child added after
    the children it had, and the bounds of each of them lie inside the bounds
    of the group. *)
Theorem group_bounds_hold_every_child (c : Common) (g : Geom)
    (children : list DesignObject) (child : DesignObject) :
  let group := Group_addChild (Group c g children) child in
  children_of group = children ++ [child]
  /\ forall o,
       In o (children ++ [child]) ->
       rx (bounds group) <= rx (bounds o)
       /\ rx (bounds o) + rwidth (bounds o)
          <= rx (bounds group) + rwidth (bounds group)
       /\ ry (bounds group) <= ry (bounds o)
       /\ ry (bounds o) + rheight (bounds o)
          <= ry (bounds group) + rheight (bounds group).
Proof.
  intros group. unfold group. cbn [Group_addChild Group_updateBounds].
  unfold box_of.
  destruct (box_holds_all rx (fun r => rx r + rwidth r) ry
              (fun r => ry r + rheight r)
              (List.map bounds (children ++ [child])))
    as [minX [minY [maxX [maxY [E H]]]]].
  { destruct children; discriminate. }
  rewrite E. cbn [children_of]. split; [ reflexivity | ].
  intros o Ho.
  destruct (H (bounds o) (in_map bounds _ _ Ho)) as [H1 [H2 [H3 H4]]].
  cbn [bounds get_x get_y get_width get_height x y width height rx ry rwidth
       rheight].
  repeat split; first [ assumption | qc_lra ].
Qed.

(** *** Overrides of a component instance *)

Lemma overridden_set (property : string) (ov : list (string * bool)) :
  overridden (set_override property ov) property = true.
Proof.
  induction ov as [ | [k v] ov IH ]; simpl.
  - rewrite String.eqb_refl. reflexivity.
  - destruct (String.eqb k property) eqn:E; simpl; rewrite E.
    + reflexivity.
    + exact IH.
Qed.

Lemma overridden_delete (property : string) (ov : list (string * bool)) :
  overridden (delete_override property ov) property = false.
Proof.
  induction ov as [ | [k v] ov IH ]; simpl.
  - reflexivity.
  - destruct (String.eqb k property) eqn:E; simpl.
    + exact IH.
    + rewrite E. exact IH.
Qed.

(** X18. On an instance linked to a master component, for each of the six
    properties that [syncFromMaster] copies: once the property is set through
    [setOverride], [syncFromMaster] leaves the value set in place, and
    [resetOverride] of that property puts the master's value back. *)
Theorem override_holds_until_reset (heap : ref -> option DesignObject)
    (r : ref) (master instance instance' : DesignObject)
    (property : string) (value : JsVal) :
  heap r = Some master ->
  class_of master = CComponent ->
  masterComponent_of instance = Some r ->
  In property synced ->
  setOverride instance property value = Some instance' ->
  read property instance' = Some value
  /\ read property (syncFromMaster heap instance') = Some value
  /\ read property (resetOverride heap instance' property)
     = read property master.
Proof.
  intros Hh Hc Hm Hp Hs.
  destruct instance as [ | | | | | | | | | c g ci m ov cr | ]; try discriminate.
  cbn [masterComponent_of] in Hm. subst m.
  destruct master as [ | | | | | | | | mc mg mch mcl mr mci md mi | | ];
    try discriminate.
  cbn [setOverride] in Hs. unfold assign in Hs.
  pose proof (overridden_set property ov) as Hset.
  pose proof (overridden_delete property (set_override property ov)) as Hdel.
  unfold synced in Hp. cbn [In] in Hp.
  destruct Hp as [<- | [<- | [<- | [<- | [<- | [<- | []]]]]]];
    cbn [String.eqb Ascii.eqb Bool.eqb] in Hs;
    destruct value; try discriminate; injection Hs as <-;
    (split; [ reflexivity | ]);
    cbn [syncFromMaster resetOverride]; rewrite Hh;
    (split;
     [ rewrite Hset | rewrite Hdel ]);
    repeat match goal with
    | |- context [overridden ?a ?b] => destruct (overridden a b)
    end;
    reflexivity.
Qed.

Lemma override_holds_until_reset_witness :
  let heap := heap Fixtures.linked_world in
  let instance' :=
    match setOverride Fixtures.linked_instance "fill" (JStr "#FF0000") with
    | Some i => i
    | None => Fixtures.linked_instance
    end in
  read "fill" instance' = Some (JStr "#FF0000")
  /\ read "fill" (syncFromMaster heap instance') = Some (JStr "#FF0000")
  /\ read "fill" (resetOverride heap instance' "fill")
     = read "fill" Fixtures.master.
Proof.
  intros heap instance'.
  apply (override_holds_until_reset heap 0%nat Fixtures.master
           Fixtures.linked_instance instance' "fill" (JStr "#FF0000")).
  - reflexivity.
  - reflexivity.
  - reflexivity.
  - simpl. tauto.
  - reflexivity.
Defined.

End ObjectMethodProps.

(** ** More on the auto layout *)

Module AutoLayoutProps.
Import Js Objects NumFacts QcArith LayoutProps AccessorFacts.
Import Predicates.

(** One turn of the second loop of [apply]: where the child ends up along
    the primary axis, that its extent along that axis is kept, and where the
    next child starts. *)
Lemma place_row (al : AutoLayout.t) (g : Geom) (m pos : Qc)
    (child : DesignObject) :
  get_x (fst (place al true g m pos child)) = pos
  /\ get_width (fst (place al true g m pos child)) = get_width child
  /\ snd (place al true g m pos child)
     = pos + (get_width child + AutoLayout.spacing al).
Proof.
  unfold place. cbn [fst snd].
  destruct (AutoLayout.counterAxisAlign al);
    rewrite ?get_x_set_height, ?get_x_set_y, ?get_x_set_x,
      ?get_width_set_height, ?get_width_set_y, ?get_width_set_x;
    repeat split; reflexivity.
Qed.

Lemma place_column (al : AutoLayout.t) (g : Geom) (m pos : Qc)
    (child : DesignObject) :
  get_y (fst (place al false g m pos child)) = pos
  /\ get_height (fst (place al false g m pos child)) = get_height child
  /\ snd (place al false g m pos child)
     = pos + (get_height child + AutoLayout.spacing al).
Proof.
  unfold place. cbn [fst snd].
  destruct (AutoLayout.counterAxisAlign al);
    rewrite ?get_y_set_width, ?get_y_set_x, ?get_y_set_y,
      ?get_height_set_width, ?get_height_set_x, ?get_height_set_y;
    repeat split; reflexivity.
Qed.

Lemma chained_adjacent (pos size : DesignObject -> Qc) (gap : Qc)
    (l : list DesignObject) :
  forall start,
    chained pos size gap start l ->
    forall i a b,
      nth_error l i = Some a -> nth_error l (S i) = Some b ->
      pos b = pos a + (size a + gap).
Proof.
  induction l as [ | c l IH ]; intros start H i a b Ha Hb.
  - destruct i; discriminate.
  - destruct H as [H1 H2]. destruct i as [ | i ].
    + injection Ha as <-. destruct l as [ | d l ]; [ discriminate | ].
      injection Hb as <-. destruct H2 as [H2 _]. rewrite H2, H1. reflexivity.
    + apply (IH _ H2 i a b Ha Hb).
Qed.

Lemma place_all_row (al : AutoLayout.t) (g : Geom) (m : Qc)
    (children : list DesignObject) :
  forall pos,
    chained get_x get_width (AutoLayout.spacing al) pos
      (place_all al true g m pos children)
    /\ List.map get_width (place_all al true g m pos children)
       = List.map get_width children.
Proof.
  induction children as [ | child rest IH ]; intros pos; cbn [place_all].
  - split; [ exact I | reflexivity ].
  - destruct (place_row al g m pos child) as [P1 [P2 P3]].
    destruct (place al true g m pos child) as [child' pos'].
    cbn [fst snd] in *. subst pos'.
    destruct (IH (pos + (get_width child + AutoLayout.spacing al))) as [I1 I2].
    cbn [chained List.map]. rewrite P2, I2. auto.
Qed.

Lemma place_all_column (al : AutoLayout.t) (g : Geom) (m : Qc)
    (children : list DesignObject) :
  forall pos,
    chained get_y get_height (AutoLayout.spacing al) pos
      (place_all al false g m pos children)
    /\ List.map get_height (place_all al false g m pos children)
       = List.map get_height children.
Proof.
  induction children as [ | child rest IH ]; intros pos; cbn [place_all].
  - split; [ exact I | reflexivity ].
  - destruct (place_column al g m pos child) as [P1 [P2 P3]].
    destruct (place al false g m pos child) as [child' pos'].
    cbn [fst snd] in *. subst pos'.
    destruct (IH (pos + (get_height child + AutoLayout.spacing al))) as [I1 I2].
    cbn [chained List.map]. rewrite P2, I2. auto.
Qed.

(** The children that [apply] leaves, for a frame that has some. *)
Lemma apply_layout_children (al : AutoLayout.t) (g : Geom)
    (children : list DesignObject) :
  children <> [] ->
  snd (apply_layout al g children)
  = match AutoLayout.direction al with
    | AutoLayout.horizontal =>
      place_all al true g (snd (measure true children))
        (x g + AutoLayout.paddingLeft al) children
    | AutoLayout.vertical =>
      place_all al false g (snd (measure false children))
        (y g + AutoLayout.paddingTop al) children
    end.
Proof.
  intros Hne. unfold apply_layout.
  destruct children as [ | a l ]; [ contradiction | ].
  destruct (AutoLayout.direction al).
  - destruct (measure true (a :: l)) as [ts mc]. reflexivity.
  - destruct (measure false (a :: l)) as [ts mc]. reflexivity.
Qed.

(** X19. [AutoLayout.apply] lays the children of a frame one after the other
    along the direction of the layout, in their order in the frame: the first
    one starts at the frame's edge plus the padding, each next one starts
    where the one before it ends plus [spacing], and no child changes its
    extent along that direction. [primaryAxisAlign] plays no part. *)
Theorem apply_chains_the_children (al : AutoLayout.t) (g : Geom)
    (children : list DesignObject) :
  children <> [] ->
  let children' := snd (apply_layout al g children) in
  (AutoLayout.direction al = AutoLayout.horizontal ->
     List.map get_width children' = List.map get_width children
     /\ (forall first, nth_error children' 0 = Some first ->
           get_x first = x g + AutoLayout.paddingLeft al)
     /\ forall i a b,
          nth_error children' i = Some a -> nth_error children' (S i) = Some b ->
          get_x b = get_x a + (get_width a + AutoLayout.spacing al))
  /\ (AutoLayout.direction al = AutoLayout.vertical ->
        List.map get_height children' = List.map get_height children
        /\ (forall first, nth_error children' 0 = Some first ->
              get_y first = y g + AutoLayout.paddingTop al)
        /\ forall i a b,
             nth_error children' i = Some a -> nth_error children' (S i) = Some b ->
             get_y b = get_y a + (get_height a + AutoLayout.spacing al)).
Proof.
  intros Hne children'. unfold children'.
  rewrite (apply_layout_children al g children Hne).
  split; intros Hd; rewrite Hd.
  - destruct (place_all_row al g (snd (measure true children)) children
                (x g + AutoLayout.paddingLeft al)) as [C W].
    split; [ exact W | ]. split.
    + intros first Hf.
      destruct (place_all al true g _ _ children) as [ | c l ]; [ discriminate | ].
      injection Hf as <-. exact (proj1 C).
    + exact (chained_adjacent _ _ _ _ _ C).
  - destruct (place_all_column al g (snd (measure false children)) children
                (y g + AutoLayout.paddingTop al)) as [C W].
    split; [ exact W | ]. split.
    + intros first Hf.
      destruct (place_all al false g _ _ children) as [ | c l ]; [ discriminate | ].
      injection Hf as <-. exact (proj1 C).
    + exact (chained_adjacent _ _ _ _ _ C).
Qed.

Lemma apply_chains_the_children_witness :
  let al := Fixtures.hug_row in
  let g := mkGeom (Q2Qc 100) (Q2Qc 50) (Q2Qc 7) (Q2Qc 7) in
  let children := [Fixtures.child_20; Fixtures.child_30; Fixtures.child_40] in
  let children' := snd (apply_layout al g children) in
  (AutoLayout.direction al = AutoLayout.horizontal ->
     List.map get_width children' = List.map get_width children
     /\ (forall first, nth_error children' 0 = Some first ->
           get_x first = x g + AutoLayout.paddingLeft al)
     /\ forall i a b,
          nth_error children' i = Some a -> nth_error children' (S i) = Some b ->
          get_x b = get_x a + (get_width a + AutoLayout.spacing al))
  /\ (AutoLayout.direction al = AutoLayout.vertical ->
        List.map get_height children' = List.map get_height children
        /\ (forall first, nth_error children' 0 = Some first ->
              get_y first = y g + AutoLayout.paddingTop al)
        /\ forall i a b,
             nth_error children' i = Some a -> nth_error children' (S i) = Some b ->
             get_y b = get_y a + (get_height a + AutoLayout.spacing al)).
Proof.
  intros al g children.
  apply (apply_chains_the_children al g children).
  discriminate.
Defined.

End AutoLayoutProps.

(** ** Auto layout: applying the layout again *)

Module AutoLayoutStable.
Import Js Objects NumFacts QcArith LayoutProps AccessorFacts AutoLayoutProps.
Import Predicates.

(** Writing the value that is there changes nothing. *)
Lemma set_x_same (v : Qc) (o : DesignObject) : get_x o = v -> set_x v o = o.
Proof. intros <-. destruct o; destruct g; reflexivity. Qed.

Lemma set_y_same (v : Qc) (o : DesignObject) : get_y o = v -> set_y v o = o.
Proof. intros <-. destruct o; destruct g; reflexivity. Qed.

Lemma set_height_again (v : Qc) (o : DesignObject) :
  set_height v (set_height v o) = set_height v o.
Proof. destruct o; reflexivity. Qed.

Lemma set_width_again (v : Qc) (o : DesignObject) :
  set_width v (set_width v o) = set_width v o.
Proof. destruct o; reflexivity. Qed.

Lemma stretch_height (m : Qc) (o : DesignObject) :
  settled m (get_height o) (get_height (set_height m o)).
Proof.
  rewrite get_height_set_height. split; [ apply Qcle_refl | reflexivity ].
Qed.

Lemma stretch_width (m : Qc) (o : DesignObject) :
  settled m (get_width o) (get_width (set_width m o)).
Proof.
  rewrite get_width_set_width. split; [ apply Qcle_refl | reflexivity ].
Qed.

(** A running maximum. *)
Lemma fold_max_bounds (hs : list Qc) :
  forall init,
    init <= fold_left Js.max hs init
    /\ (forall h, In h hs -> h <= fold_left Js.max hs init)
    /\ (fold_left Js.max hs init = init \/ In (fold_left Js.max hs init) hs).
Proof.
  induction hs as [ | h hs IH ]; intros init; cbn [fold_left].
  - split; [ apply Qcle_refl | ]. split; [ intros h [] | left; reflexivity ].
  - destruct (IH (Js.max init h)) as [I1 [I2 I3]].
    destruct (max_cases init h) as [[E H] | [E H]]; rewrite E in *.
    + split; [ qc_lra | ]. split.
      * intros k [<- | Hk]; [ exact I1 | apply I2, Hk ].
      * right. destruct I3 as [-> | I3]; [ left; reflexivity | right; exact I3 ].
    + split; [ exact I1 | ]. split.
      * intros k [<- | Hk]; [ qc_lra | apply I2, Hk ].
      * destruct I3 as [-> | I3]; [ left; reflexivity | right; right; exact I3 ].
Qed.

Lemma fold_max_le (hs : list Qc) (init bound : Qc) :
  init <= bound -> (forall h, In h hs -> h <= bound) ->
  fold_left Js.max hs init <= bound.
Proof.
  intros Hi Hh.
  destruct (fold_max_bounds hs init) as [_ [_ [-> | H]]];
    [ exact Hi | apply Hh, H ].
Qed.

Lemma settled_all_le (m : Qc) (hs hs' : list Qc) :
  Forall2 (settled m) hs hs' -> forall h', In h' hs' -> h' <= m.
Proof.
  induction 1 as [ | h k hs hs' [R _] F IH ]; intros h' Hh'; [ contradiction | ].
  destruct Hh' as [<- | Hh']; [ exact R | apply IH, Hh' ].
Qed.

Lemma settled_in (m : Qc) (hs hs' : list Qc) :
  Forall2 (settled m) hs hs' -> In m hs -> In m hs'.
Proof.
  induction 1 as [ | h k hs hs' [_ R] F IH ]; intros Hin; [ contradiction | ].
  destruct Hin as [E | Hin].
  - left. apply R. exact E.
  - right. apply IH, Hin.
Qed.

Lemma fold_max_settled (hs hs' : list Qc) (init : Qc) :
  Forall2 (settled (fold_left Js.max hs init)) hs hs' ->
  fold_left Js.max hs' init = fold_left Js.max hs init.
Proof.
  intros F.
  destruct (fold_max_bounds hs init) as [B1 [B2 B3]].
  destruct (fold_max_bounds hs' init) as [C1 [C2 C3]].
  assert (Hle : fold_left Js.max hs' init <= fold_left Js.max hs init).
  { apply fold_max_le; [ exact B1 | ]. exact (settled_all_le _ _ _ F). }
  assert (Hge : fold_left Js.max hs init <= fold_left Js.max hs' init).
  { destruct B3 as [E | Hin]; [ rewrite E; exact C1 | ].
    apply C2. exact (settled_in _ _ _ F Hin). }
  to_Q. lra.
Qed.

(** The two results of the first loop of [apply], read off the extents of
    the children. *)
Lemma measure_row (children : list DesignObject) :
  forall ts mc,
    fold_left
      (fun (acc : Qc * Qc) child =>
         let (totalSize, maxCrossSize) := acc in
         (totalSize + get_width child, Js.max maxCrossSize (get_height child)))
      children (ts, mc)
    = (fold_left Qcplus (List.map get_width children) ts,
       fold_left Js.max (List.map get_height children) mc).
Proof.
  induction children as [ | child rest IH ]; intros ts mc;
    cbn [fold_left List.map].
  - reflexivity.
  - apply IH.
Qed.

Lemma measure_row_eq (children : list DesignObject) :
  measure true children
  = (fold_left Qcplus (List.map get_width children) 0,
     fold_left Js.max (List.map get_height children) 0).
Proof. unfold measure. apply measure_row. Qed.

(** Placing a child that is placed leaves it where it is. *)
Lemma place_again_row (al : AutoLayout.t) (g : Geom) (m pos : Qc)
    (child : DesignObject) :
  place al true g m pos (fst (place al true g m pos child))
  = place al true g m pos child.
Proof.
  unfold place. cbn [fst].
  destruct (AutoLayout.counterAxisAlign al).
  - rewrite (set_x_same pos (set_y _ _))
      by (rewrite get_x_set_y; apply get_x_set_x).
    rewrite (set_y_same _ (set_y _ _)) by apply get_y_set_y.
    rewrite get_width_set_y. reflexivity.
  - rewrite (set_x_same pos (set_y _ _))
      by (rewrite get_x_set_y; apply get_x_set_x).
    rewrite get_height_set_y.
    rewrite (set_y_same _ (set_y _ _)) by apply get_y_set_y.
    rewrite get_width_set_y. reflexivity.
  - rewrite (set_x_same pos (set_y _ _))
      by (rewrite get_x_set_y; apply get_x_set_x).
    rewrite get_height_set_y.
    rewrite (set_y_same _ (set_y _ _)) by apply get_y_set_y.
    rewrite get_width_set_y. reflexivity.
  - rewrite (set_x_same pos (set_height _ _))
      by (rewrite get_x_set_height, get_x_set_y; apply get_x_set_x).
    rewrite (set_y_same _ (set_height _ _))
      by (rewrite get_y_set_height; apply get_y_set_y).
    rewrite set_height_again.
    rewrite get_width_set_height, get_width_set_y. reflexivity.
Qed.

Lemma place_all_again_row (al : AutoLayout.t) (g : Geom) (m : Qc)
    (children : list DesignObject) :
  forall pos,
    place_all al true g m pos (place_all al true g m pos children)
    = place_all al true g m pos children.
Proof.
  induction children as [ | child rest IH ]; intros pos; cbn [place_all].
  - reflexivity.
  - pose proof (place_again_row al g m pos child) as A.
    destruct (place al true g m pos child) as [child' pos'].
    cbn [fst] in A. cbn [place_all]. rewrite A, IH. reflexivity.
Qed.

(** The size across the row, after a child was placed, compared with the
    largest one. *)
Lemma place_settled_row (al : AutoLayout.t) (g : Geom) (m pos : Qc)
    (child : DesignObject) :
  get_height child <= m ->
  settled m (get_height child)
    (get_height (fst (place al true g m pos child))).
Proof.
  intros Hh. unfold place. cbn [fst].
  destruct (AutoLayout.counterAxisAlign al).
  1, 2, 3: rewrite get_height_set_y, get_height_set_x;
    split; [ exact Hh | auto ].
  pose proof (stretch_height m (set_y (y g + AutoLayout.paddingTop al)
                                  (set_x pos child))) as S.
  rewrite get_height_set_y, get_height_set_x in S. exact S.
Qed.

Lemma place_all_settled_row (al : AutoLayout.t) (g : Geom) (m : Qc)
    (children : list DesignObject) :
  (forall c, In c children -> get_height c <= m) ->
  forall pos,
    Forall2 (settled m) (List.map get_height children)
      (List.map get_height (place_all al true g m pos children)).
Proof.
  induction children as [ | child rest IH ]; intros Hall pos;
    cbn [place_all List.map].
  - constructor.
  - pose proof (place_settled_row al g m pos child
                  (Hall child (or_introl eq_refl))) as S.
    destruct (place al true g m pos child) as [child' pos'].
    cbn [fst] in S. cbn [List.map]. constructor; [ exact S | ].
    apply IH. intros c Hc. apply Hall. right. exact Hc.
Qed.

(** The first loop gives the same two results on the placed children. *)
Lemma measure_again_row (al : AutoLayout.t) (g : Geom) (pos : Qc)
    (children : list DesignObject) :
  measure true
    (place_all al true g (snd (measure true children)) pos children)
  = measure true children.
Proof.
  rewrite !measure_row_eq. cbn [snd].
  set (m := fold_left Js.max (List.map get_height children) 0).
  destruct (fold_max_bounds (List.map get_height children) 0) as [_ [B2 _]].
  fold m in B2.
  rewrite (proj2 (place_all_row al g m children pos)).
  f_equal. apply fold_max_settled. fold m.
  apply place_all_settled_row.
  intros c Hc. apply B2. apply in_map. exact Hc.
Qed.

(** [place] reads the position of the frame only. *)
Lemma place_frame_row (al : AutoLayout.t) (g g' : Geom) (m pos : Qc)
    (child : DesignObject) :
  x g' = x g -> y g' = y g ->
  place al true g' m pos child = place al true g m pos child.
Proof. intros Hx Hy. unfold place. rewrite ?Hx, ?Hy. reflexivity. Qed.

Lemma place_all_frame_row (al : AutoLayout.t) (g g' : Geom) (m : Qc)
    (children : list DesignObject) :
  x g' = x g -> y g' = y g ->
  forall pos,
    place_all al true g' m pos children = place_all al true g m pos children.
Proof.
  intros Hx Hy. induction children as [ | child rest IH ]; intros pos;
    cbn [place_all].
  - reflexivity.
  - rewrite (place_frame_row al g g' m pos child Hx Hy).
    destruct (place al true g m pos child) as [child' pos'].
    rewrite IH. reflexivity.
Qed.

Lemma apply_again_row (al : AutoLayout.t) (g : Geom)
    (children : list DesignObject) :
  AutoLayout.direction al = AutoLayout.horizontal ->
  apply_layout al (fst (apply_layout al g children))
    (snd (apply_layout al g children))
  = apply_layout al g children.
Proof.
  intros Hd. destruct children as [ | a l ]; [ reflexivity | ].
  set (children := a :: l).
  pose proof (measure_again_row al g (x g + AutoLayout.paddingLeft al) children)
    as M.
  pose proof (place_all_again_row al g (snd (measure true children)) children
                (x g + AutoLayout.paddingLeft al)) as P.
  assert (Hlen : List.length
                   (place_all al true g (snd (measure true children))
                      (x g + AutoLayout.paddingLeft al) children)
                 = List.length children).
  { rewrite <- (length_map get_width),
      (proj2 (place_all_row al g _ children _)), length_map. reflexivity. }
  unfold apply_layout at 2 3 4. fold children. rewrite Hd.
  destruct (measure true children) as [ts mc] eqn:E. cbn [snd] in *.
  set (placed := place_all al true g mc (x g + AutoLayout.paddingLeft al)
                   children) in *.
  set (g1 := match AutoLayout.primaryAxisSizing al with
             | AutoLayout.fixed => g
             | AutoLayout.hug => _
             end).
  set (g2 := match AutoLayout.counterAxisSizing al with
             | AutoLayout.fixed => g1
             | AutoLayout.hug => _
             end).
  cbn [fst snd children].
  assert (Hx : x g2 = x g /\ y g2 = y g).
  { unfold g2, g1.
    destruct (AutoLayout.primaryAxisSizing al),
      (AutoLayout.counterAxisSizing al); split; reflexivity. }
  destruct Hx as [Hx Hy].
  unfold apply_layout. rewrite Hd.
  destruct placed as [ | p ps ] eqn:Ep; [ discriminate Hlen | ].
  rewrite <- Ep in *. rewrite M, Hlen, ?Hx, ?Hy.
  rewrite (place_all_frame_row al g g2 mc placed Hx Hy), P.
  f_equal. unfold g2, g1.
  destruct (AutoLayout.primaryAxisSizing al),
    (AutoLayout.counterAxisSizing al); destruct g; reflexivity.
Qed.

(** The two results of the first loop of [apply], read off the extents of
    the children. *)
Lemma measure_column (children : list DesignObject) :
  forall ts mc,
    fold_left
      (fun (acc : Qc * Qc) child =>
         let (totalSize, maxCrossSize) := acc in
         (totalSize + get_height child, Js.max maxCrossSize (get_width child)))
      children (ts, mc)
    = (fold_left Qcplus (List.map get_height children) ts,
       fold_left Js.max (List.map get_width children) mc).
Proof.
  induction children as [ | child rest IH ]; intros ts mc;
    cbn [fold_left List.map].
  - reflexivity.
  - apply IH.
Qed.

Lemma measure_column_eq (children : list DesignObject) :
  measure false children
  = (fold_left Qcplus (List.map get_height children) 0,
     fold_left Js.max (List.map get_width children) 0).
Proof. unfold measure. apply measure_column. Qed.

(** Placing a child that is placed leaves it where it is. *)
Lemma place_again_column (al : AutoLayout.t) (g : Geom) (m pos : Qc)
    (child : DesignObject) :
  place al false g m pos (fst (place al false g m pos child))
  = place al false g m pos child.
Proof.
  unfold place. cbn [fst].
  destruct (AutoLayout.counterAxisAlign al).
  - rewrite (set_y_same pos (set_x _ _))
      by (rewrite get_y_set_x; apply get_y_set_y).
    rewrite (set_x_same _ (set_x _ _)) by apply get_x_set_x.
    rewrite get_height_set_x. reflexivity.
  - rewrite (set_y_same pos (set_x _ _))
      by (rewrite get_y_set_x; apply get_y_set_y).
    rewrite get_width_set_x.
    rewrite (set_x_same _ (set_x _ _)) by apply get_x_set_x.
    rewrite get_height_set_x. reflexivity.
  - rewrite (set_y_same pos (set_x _ _))
      by (rewrite get_y_set_x; apply get_y_set_y).
    rewrite get_width_set_x.
    rewrite (set_x_same _ (set_x _ _)) by apply get_x_set_x.
    rewrite get_height_set_x. reflexivity.
  - rewrite (set_y_same pos (set_width _ _))
      by (rewrite get_y_set_width, get_y_set_x; apply get_y_set_y).
    rewrite (set_x_same _ (set_width _ _))
      by (rewrite get_x_set_width; apply get_x_set_x).
    rewrite set_width_again.
    rewrite get_height_set_width, get_height_set_x. reflexivity.
Qed.

Lemma place_all_again_column (al : AutoLayout.t) (g : Geom) (m : Qc)
    (children : list DesignObject) :
  forall pos,
    place_all al false g m pos (place_all al false g m pos children)
    = place_all al false g m pos children.
Proof.
  induction children as [ | child rest IH ]; intros pos; cbn [place_all].
  - reflexivity.
  - pose proof (place_again_column al g m pos child) as A.
    destruct (place al false g m pos child) as [child' pos'].
    cbn [fst] in A. cbn [place_all]. rewrite A, IH. reflexivity.
Qed.

(** The size across the column, after a child was placed, compared with the
    largest one. *)
Lemma place_settled_column (al : AutoLayout.t) (g : Geom) (m pos : Qc)
    (child : DesignObject) :
  get_width child <= m ->
  settled m (get_width child)
    (get_width (fst (place al false g m pos child))).
Proof.
  intros Hh. unfold place. cbn [fst].
  destruct (AutoLayout.counterAxisAlign al).
  1, 2, 3: rewrite get_width_set_x, get_width_set_y;
    split; [ exact Hh | auto ].
  pose proof (stretch_width m (set_x (x g + AutoLayout.paddingLeft al)
                                  (set_y pos child))) as S.
  rewrite get_width_set_x, get_width_set_y in S. exact S.
Qed.

Lemma place_all_settled_column (al : AutoLayout.t) (g : Geom) (m : Qc)
    (children : list DesignObject) :
  (forall c, In c children -> get_width c <= m) ->
  forall pos,
    Forall2 (settled m) (List.map get_width children)
      (List.map get_width (place_all al false g m pos children)).
Proof.
  induction children as [ | child rest IH ]; intros Hall pos;
    cbn [place_all List.map].
  - constructor.
  - pose proof (place_settled_column al g m pos child
                  (Hall child (or_introl eq_refl))) as S.
    destruct (place al false g m pos child) as [child' pos'].
    cbn [fst] in S. cbn [List.map]. constructor; [ exact S | ].
    apply IH. intros c Hc. apply Hall. right. exact Hc.
Qed.

(** The first loop gives the same two results on the placed children. *)
Lemma measure_again_column (al : AutoLayout.t) (g : Geom) (pos : Qc)
    (children : list DesignObject) :
  measure false
    (place_all al false g (snd (measure false children)) pos children)
  = measure false children.
Proof.
  rewrite !measure_column_eq. cbn [snd].
  set (m := fold_left Js.max (List.map get_width children) 0).
  destruct (fold_max_bounds (List.map get_width children) 0) as [_ [B2 _]].
  fold m in B2.
  rewrite (proj2 (place_all_column al g m children pos)).
  f_equal. apply fold_max_settled. fold m.
  apply place_all_settled_column.
  intros c Hc. apply B2. apply in_map. exact Hc.
Qed.

(** [place] reads the position of the frame only. *)
Lemma place_frame_column (al : AutoLayout.t) (g g' : Geom) (m pos : Qc)
    (child : DesignObject) :
  y g' = y g -> x g' = x g ->
  place al false g' m pos child = place al false g m pos child.
Proof. intros Hy Hx. unfold place. rewrite ?Hy, ?Hx. reflexivity. Qed.

Lemma place_all_frame_column (al : AutoLayout.t) (g g' : Geom) (m : Qc)
    (children : list DesignObject) :
  y g' = y g -> x g' = x g ->
  forall pos,
    place_all al false g' m pos children = place_all al false g m pos children.
Proof.
  intros Hy Hx. induction children as [ | child rest IH ]; intros pos;
    cbn [place_all].
  - reflexivity.
  - rewrite (place_frame_column al g g' m pos child Hy Hx).
    destruct (place al false g m pos child) as [child' pos'].
    rewrite IH. reflexivity.
Qed.

Lemma apply_again_column (al : AutoLayout.t) (g : Geom)
    (children : list DesignObject) :
  AutoLayout.direction al = AutoLayout.vertical ->
  apply_layout al (fst (apply_layout al g children))
    (snd (apply_layout al g children))
  = apply_layout al g children.
Proof.
  intros Hd. destruct children as [ | a l ]; [ reflexivity | ].
  set (children := a :: l).
  pose proof (measure_again_column al g (y g + AutoLayout.paddingTop al) children)
    as M.
  pose proof (place_all_again_column al g (snd (measure false children)) children
                (y g + AutoLayout.paddingTop al)) as P.
  assert (Hlen : List.length
                   (place_all al false g (snd (measure false children))
                      (y g + AutoLayout.paddingTop al) children)
                 = List.length children).
  { rewrite <- (length_map get_height),
      (proj2 (place_all_column al g _ children _)), length_map. reflexivity. }
  unfold apply_layout at 2 3 4. fold children. rewrite Hd.
  destruct (measure false children) as [ts mc] eqn:E. cbn [snd] in *.
  set (placed := place_all al false g mc (y g + AutoLayout.paddingTop al)
                   children) in *.
  set (g1 := match AutoLayout.primaryAxisSizing al with
             | AutoLayout.fixed => g
             | AutoLayout.hug => _
             end).
  set (g2 := match AutoLayout.counterAxisSizing al with
             | AutoLayout.fixed => g1
             | AutoLayout.hug => _
             end).
  cbn [fst snd children].
  assert (Hy : y g2 = y g /\ x g2 = x g).
  { unfold g2, g1.
    destruct (AutoLayout.primaryAxisSizing al),
      (AutoLayout.counterAxisSizing al); split; reflexivity. }
  destruct Hy as [Hy Hx].
  unfold apply_layout. rewrite Hd.
  destruct placed as [ | p ps ] eqn:Ep; [ discriminate Hlen | ].
  rewrite <- Ep in *. rewrite M, Hlen, ?Hy, ?Hx.
  rewrite (place_all_frame_column al g g2 mc placed Hy Hx), P.
  f_equal. unfold g2, g1.
  destruct (AutoLayout.primaryAxisSizing al),
    (AutoLayout.counterAxisSizing al); destruct g; reflexivity.
Qed.

(** X20. [AutoLayout.apply] settles in one go: applying the layout to the
    frame and children that an application left gives that frame and those
    children again. This holds for every direction, alignment and sizing. *)
Theorem apply_twice_is_apply_once (al : AutoLayout.t) (g : Geom)
    (children : list DesignObject) :
  apply_layout al (fst (apply_layout al g children))
    (snd (apply_layout al g children))
  = apply_layout al g children.
Proof.
  destruct (AutoLayout.direction al) eqn:Hd.
  - apply apply_again_row. exact Hd.
  - apply apply_again_column. exact Hd.
Qed.

End AutoLayoutStable.

(** ** Auto layout: a frame that hugs its content *)

Module AutoLayoutHug.
Import Js Objects NumFacts QcArith LayoutProps AccessorFacts AutoLayoutProps
  AutoLayoutStable.
Import Predicates.

Lemma num_of_nat_S (n : nat) : num_of_nat (S n) = num_of_nat n + 1.
Proof.
  unfold num_of_nat. apply Qc_is_canon.
  rewrite this_plus, !this_Q2Qc. rewrite Nat2Z.inj_succ.
  unfold Z.succ. rewrite inject_Z_plus. reflexivity.
Qed.

Lemma num_of_nat_nonneg (n : nat) : 0 <= num_of_nat n.
Proof.
  induction n as [ | n IH ].
  - apply Qcle_refl.
  - rewrite num_of_nat_S. qc_lra.
Qed.

Lemma fold_plus_init (l : list Qc) (init : Qc) :
  fold_left Qcplus l init = init + fold_left Qcplus l 0.
Proof.
  revert init. induction l as [ | a l IH ]; intros init; cbn [fold_left].
  - ring.
  - rewrite IH, (IH (0 + a)). ring.
Qed.

Lemma fold_plus_nonneg (l : list Qc) :
  (forall a, In a l -> 0 <= a) -> 0 <= fold_left Qcplus l 0.
Proof.
  induction l as [ | a l IH ]; intros H; cbn [fold_left].
  - apply Qcle_refl.
  - rewrite fold_plus_init.
    assert (Ha : 0 <= a) by (apply H; left; reflexivity).
    assert (Hl : 0 <= fold_left Qcplus l 0)
      by (apply IH; intros b Hb; apply H; right; exact Hb).
    qc_lra.
Qed.

(** Objects laid one after the other, none of a negative extent and the gap
    not negative: each lies between the start and the start plus the sum of
    the extents and of the gaps between them. *)
Lemma chained_span (pos size : DesignObject -> Qc) (gap : Qc)
    (l : list DesignObject) :
  0 <= gap -> (forall o, In o l -> 0 <= size o) ->
  forall start,
    chained pos size gap start l ->
    forall o, In o l ->
      start <= pos o
      /\ pos o + size o
         <= start + (fold_left Qcplus (List.map size l) 0
                     + gap * (num_of_nat (List.length l) - 1)).
Proof.
  intros Hgap. induction l as [ | a l IH ]; intros Hsize start Hc o Ho.
  - contradiction.
  - destruct Hc as [Ha Hc]. cbn [List.map fold_left List.length].
    rewrite fold_plus_init, num_of_nat_S.
    assert (Hsa : 0 <= size a) by (apply Hsize; left; reflexivity).
    assert (Hsl : forall o, In o l -> 0 <= size o)
      by (intros b Hb; apply Hsize; right; exact Hb).
    assert (Hsum : 0 <= fold_left Qcplus (List.map size l) 0).
    { apply fold_plus_nonneg. intros b Hb. apply in_map_iff in Hb.
      destruct Hb as [c [<- Hc']]. apply Hsl, Hc'. }
    pose proof (num_of_nat_nonneg (List.length l)) as Hn.
    assert (Hgn : 0 <= gap * num_of_nat (List.length l)).
    { clear - Hgap Hn. to_Q. apply Qmult_le_0_compat; assumption. }
    destruct Ho as [<- | Ho].
    + rewrite Ha. split; [ apply Qcle_refl | ]. qc_lra.
    + destruct (IH Hsl _ Hc o Ho) as [I1 I2]. split; [ qc_lra | ].
      destruct l as [ | b l' ]; [ contradiction | ].
      revert I2 Hgn. cbn [List.length]. rewrite num_of_nat_S. intros I2 Hgn.
      qc_lra.
Qed.

(** Across the row, a placed child lies between the padded edge and that
    edge plus the largest size. *)
Lemma place_across_row (al : AutoLayout.t) (g : Geom) (m pos : Qc)
    (child : DesignObject) :
  0 <= m -> get_height child <= m ->
  let child' := fst (place al true g m pos child) in
  y g + AutoLayout.paddingTop al <= get_y child'
  /\ get_y child' + get_height child' <= y g + AutoLayout.paddingTop al + m.
Proof.
  intros Hm Hh child'. unfold child', place. cbn [fst].
  destruct (AutoLayout.counterAxisAlign al).
  1, 2, 3: rewrite get_y_set_y, !get_height_set_y, !get_height_set_x;
    split; qc_lra.
  rewrite get_y_set_height, get_y_set_y, get_height_set_height.
  split; qc_lra.
Qed.

Lemma place_all_across_row (al : AutoLayout.t) (g : Geom) (m : Qc)
    (children : list DesignObject) :
  0 <= m -> (forall c, In c children -> get_height c <= m) ->
  forall pos o,
    In o (place_all al true g m pos children) ->
    y g + AutoLayout.paddingTop al <= get_y o
    /\ get_y o + get_height o <= y g + AutoLayout.paddingTop al + m.
Proof.
  intros Hm. induction children as [ | child rest IH ]; intros Hall pos o Ho;
    cbn [place_all] in Ho.
  - contradiction.
  - pose proof (place_across_row al g m pos child Hm
                  (Hall child (or_introl eq_refl))) as A.
    destruct (place al true g m pos child) as [child' pos'].
    cbn [fst] in A. destruct Ho as [<- | Ho].
    + exact A.
    + apply (IH (fun c Hc => Hall c (or_intror Hc)) pos' o Ho).
Qed.

Lemma hug_holds_row (al : AutoLayout.t) (g : Geom)
    (children : list DesignObject) :
  children <> [] ->
  AutoLayout.direction al = AutoLayout.horizontal ->
  AutoLayout.primaryAxisSizing al = AutoLayout.hug ->
  AutoLayout.counterAxisSizing al = AutoLayout.hug ->
  0 <= AutoLayout.spacing al ->
  0 <= AutoLayout.paddingLeft al -> 0 <= AutoLayout.paddingRight al ->
  0 <= AutoLayout.paddingTop al -> 0 <= AutoLayout.paddingBottom al ->
  (forall c, In c children -> 0 <= get_width c) ->
  forall o, In o (snd (apply_layout al g children)) ->
    let g' := fst (apply_layout al g children) in
    x g' <= get_x o /\ get_x o + get_width o <= x g' + width g'
    /\ y g' <= get_y o /\ get_y o + get_height o <= y g' + height g'.
Proof.
  intros Hne Hd Hp Hc Hs Hl Hr Ht Hb Hw o Ho.
  rewrite (apply_layout_children al g children Hne), Hd in Ho.
  unfold apply_layout. destruct children as [ | a l ]; [ contradiction | ].
  set (children := a :: l) in *. rewrite Hd, Hp, Hc.
  rewrite measure_row_eq in *. cbn [snd fst] in *.
  set (m := fold_left Js.max (List.map get_height children) 0) in *.
  set (ts := fold_left Qcplus (List.map get_width children) 0) in *.
  destruct (fold_max_bounds (List.map get_height children) 0) as [B1 [B2 _]].
  fold m in B1, B2.
  cbn [geom_set_width geom_set_height x y width height].
  destruct (place_all_row al g m children (x g + AutoLayout.paddingLeft al))
    as [C W].
  set (placed := place_all al true g m (x g + AutoLayout.paddingLeft al)
                   children) in *.
  assert (Hw' : forall c, In c placed -> 0 <= get_width c).
  { intros c Hin. apply (in_map get_width) in Hin. rewrite W in Hin.
    apply in_map_iff in Hin. destruct Hin as [d [<- Hd']]. apply Hw, Hd'. }
  destruct (chained_span get_x get_width (AutoLayout.spacing al) placed Hs Hw'
              _ C o Ho) as [S1 S2].
  rewrite W in S2. fold ts in S2.
  assert (Hlen : List.length placed = List.length children).
  { rewrite <- (length_map get_width), W, length_map. reflexivity. }
  rewrite Hlen in S2.
  destruct (place_all_across_row al g m children B1
              (fun c Hin => B2 _ (in_map get_height _ _ Hin)) _ o Ho)
    as [A1 A2].
  repeat split; qc_lra.
Qed.

(** Across the column, a placed child lies between the padded edge and that
    edge plus the largest size. *)
Lemma place_across_column (al : AutoLayout.t) (g : Geom) (m pos : Qc)
    (child : DesignObject) :
  0 <= m -> get_width child <= m ->
  let child' := fst (place al false g m pos child) in
  x g + AutoLayout.paddingLeft al <= get_x child'
  /\ get_x child' + get_width child' <= x g + AutoLayout.paddingLeft al + m.
Proof.
  intros Hm Hh child'. unfold child', place. cbn [fst].
  destruct (AutoLayout.counterAxisAlign al).
  1, 2, 3: rewrite get_x_set_x, !get_width_set_x, !get_width_set_y;
    split; qc_lra.
  rewrite get_x_set_width, get_x_set_x, get_width_set_width.
  split; qc_lra.
Qed.

Lemma place_all_across_column (al : AutoLayout.t) (g : Geom) (m : Qc)
    (children : list DesignObject) :
  0 <= m -> (forall c, In c children -> get_width c <= m) ->
  forall pos o,
    In o (place_all al false g m pos children) ->
    x g + AutoLayout.paddingLeft al <= get_x o
    /\ get_x o + get_width o <= x g + AutoLayout.paddingLeft al + m.
Proof.
  intros Hm. induction children as [ | child rest IH ]; intros Hall pos o Ho;
    cbn [place_all] in Ho.
  - contradiction.
  - pose proof (place_across_column al g m pos child Hm
                  (Hall child (or_introl eq_refl))) as A.
    destruct (place al false g m pos child) as [child' pos'].
    cbn [fst] in A. destruct Ho as [<- | Ho].
    + exact A.
    + apply (IH (fun c Hc => Hall c (or_intror Hc)) pos' o Ho).
Qed.

Lemma hug_holds_column (al : AutoLayout.t) (g : Geom)
    (children : list DesignObject) :
  children <> [] ->
  AutoLayout.direction al = AutoLayout.vertical ->
  AutoLayout.primaryAxisSizing al = AutoLayout.hug ->
  AutoLayout.counterAxisSizing al = AutoLayout.hug ->
  0 <= AutoLayout.spacing al ->
  0 <= AutoLayout.paddingTop al -> 0 <= AutoLayout.paddingBottom al ->
  0 <= AutoLayout.paddingLeft al -> 0 <= AutoLayout.paddingRight al ->
  (forall c, In c children -> 0 <= get_height c) ->
  forall o, In o (snd (apply_layout al g children)) ->
    let g' := fst (apply_layout al g children) in
    y g' <= get_y o /\ get_y o + get_height o <= y g' + height g'
    /\ x g' <= get_x o /\ get_x o + get_width o <= x g' + width g'.
Proof.
  intros Hne Hd Hp Hc Hs Ht Hb Hl Hr Hw o Ho.
  rewrite (apply_layout_children al g children Hne), Hd in Ho.
  unfold apply_layout. destruct children as [ | a l ]; [ contradiction | ].
  set (children := a :: l) in *. rewrite Hd, Hp, Hc.
  rewrite measure_column_eq in *. cbn [snd fst] in *.
  set (m := fold_left Js.max (List.map get_width children) 0) in *.
  set (ts := fold_left Qcplus (List.map get_height children) 0) in *.
  destruct (fold_max_bounds (List.map get_width children) 0) as [B1 [B2 _]].
  fold m in B1, B2.
  cbn [geom_set_height geom_set_width y x height width].
  destruct (place_all_column al g m children (y g + AutoLayout.paddingTop al))
    as [C W].
  set (placed := place_all al false g m (y g + AutoLayout.paddingTop al)
                   children) in *.
  assert (Hw' : forall c, In c placed -> 0 <= get_height c).
  { intros c Hin. apply (in_map get_height) in Hin. rewrite W in Hin.
    apply in_map_iff in Hin. destruct Hin as [d [<- Hd']]. apply Hw, Hd'. }
  destruct (chained_span get_y get_height (AutoLayout.spacing al) placed Hs Hw'
              _ C o Ho) as [S1 S2].
  rewrite W in S2. fold ts in S2.
  assert (Hlen : List.length placed = List.length children).
  { rewrite <- (length_map get_height), W, length_map. reflexivity. }
  rewrite Hlen in S2.
  destruct (place_all_across_column al g m children B1
              (fun c Hin => B2 _ (in_map get_width _ _ Hin)) _ o Ho)
    as [A1 A2].
  repeat split; qc_lra.
Qed.

(** X21. A frame whose layout hugs its content along both axes holds its
    children after [apply]: with a spacing and paddings that are not negative
    and children of no negative width or height, every child lies, by its
    [x], [y], [width] and [height], inside the frame's. This holds for both
    directions, every alignment across, and children of every class. *)
Theorem hug_frame_holds_its_children (al : AutoLayout.t) (g : Geom)
    (children : list DesignObject) :
  children <> [] ->
  AutoLayout.primaryAxisSizing al = AutoLayout.hug ->
  AutoLayout.counterAxisSizing al = AutoLayout.hug ->
  0 <= AutoLayout.spacing al ->
  0 <= AutoLayout.paddingLeft al -> 0 <= AutoLayout.paddingRight al ->
  0 <= AutoLayout.paddingTop al -> 0 <= AutoLayout.paddingBottom al ->
  (forall c, In c children -> 0 <= get_width c /\ 0 <= get_height c) ->
  forall o, In o (snd (apply_layout al g children)) ->
    let g' := fst (apply_layout al g children) in
    x g' <= get_x o /\ get_x o + get_width o <= x g' + width g'
    /\ y g' <= get_y o /\ get_y o + get_height o <= y g' + height g'.
Proof.
  intros Hne Hp Hc Hs Hl Hr Ht Hb Hsize o Ho g'.
  destruct (AutoLayout.direction al) eqn:Hd.
  - apply (hug_holds_row al g children); try assumption.
    intros c Hin. apply Hsize, Hin.
  - destruct (hug_holds_column al g children) with (o := o)
      as [H1 [H2 [H3 H4]]]; try assumption.
    + intros c Hin. apply Hsize, Hin.
    + fold g' in H1, H2, H3, H4. auto.
Qed.

Lemma hug_frame_holds_its_children_witness :
  let al := AutoLayout.mk AutoLayout.horizontal AutoLayout.pstart
              AutoLayout.stretch (Q2Qc 10) (Q2Qc 4) (Q2Qc 4) (Q2Qc 4) (Q2Qc 4)
              AutoLayout.hug AutoLayout.hug in
  let g := mkGeom (Q2Qc 100) (Q2Qc 50) (Q2Qc 7) (Q2Qc 7) in
  let children := [Fixtures.child_20; Fixtures.child_30; Fixtures.child_40] in
  let o := nth 2 (snd (apply_layout al g children)) Fixtures.child_40 in
  let g' := fst (apply_layout al g children) in
  x g' <= get_x o /\ get_x o + get_width o <= x g' + width g'
  /\ y g' <= get_y o /\ get_y o + get_height o <= y g' + height g'.
Proof.
  intros al g children o.
  apply (hug_frame_holds_its_children al g children);
    try reflexivity; try discriminate.
  - intros c [<- | [<- | [<- | []]]]; split; vm_compute; discriminate.
  - right. right. left. reflexivity.
Defined.

End AutoLayoutHug.

(** ** Resizing and drawing with the mouse *)

Module DrawingToolProps.
Import Js Objects NumFacts QcArith AccessorFacts DrawingTools.

(** The position and size of an object after the four writes that end a
    resize or a drag. *)
Lemma box_written (o : DesignObject) (vx vy vw vh : Qc) :
  let o' := set_height vh (set_width vw (set_y vy (set_x vx o))) in
  get_x o' = vx /\ get_y o' = vy /\ get_width o' = vw /\ get_height o' = vh.
Proof. destruct o; repeat split. Qed.

(** X22. A resize never leaves an object narrower or lower than one unit. Without
    the proportion constraint, the handles of the west side keep the right
    edge where the drag began and those of the north side keep the bottom
    edge; the handles of the east side keep the left edge only while the
    width stays at least one, otherwise the object is one unit wide at its
    old right edge. *)
Theorem resize_keeps_a_minimum_size_and_the_opposite_edge
    (tool : ResizeState) (pos : Point) (constrain fromCenter : bool)
    (obj : DesignObject) (handle : HandleType) (initial : Rect)
    (start : Point) :
  resizeObject tool = Some obj ->
  resizeHandle tool = Some handle ->
  initialBounds tool = Some initial ->
  startPos tool = Some start ->
  (constrain = true -> rwidth initial <> 0 /\ rheight initial <> 0) ->
  exists obj',
    resizeObject (handleResize tool pos constrain fromCenter) = Some obj'
    /\ 1 <= get_width obj' /\ 1 <= get_height obj'
    /\ (constrain = false ->
        handle = handle_nw \/ handle = handle_w \/ handle = handle_sw ->
        get_x obj' + get_width obj' = rx initial + rwidth initial)
    /\ (constrain = false ->
        handle = handle_nw \/ handle = handle_n \/ handle = handle_ne ->
        get_y obj' + get_height obj' = ry initial + rheight initial)
    /\ (constrain = false ->
        handle = handle_ne \/ handle = handle_e \/ handle = handle_se ->
        let dx := px pos - px start in
        (1 <= rwidth initial + dx -> get_x obj' = get_x obj)
        /\ (rwidth initial + dx < 1 ->
            get_x obj' + 1 = rx initial + rwidth initial)).
Proof.
  intros Ho Hh Hi Hs _.
  unfold handleResize. rewrite Ho, Hh, Hi, Hs.
  destruct constrain.
  - destruct handle; cbv iota beta;
      repeat match goal with
      | |- context [if ltb ?a ?b then _ else _] =>
        destruct (ltb a b) eqn:?; cbv iota beta
      end;
      eexists; (split; [ reflexivity | ]);
      match goal with
      | |- context [set_height ?h (set_width ?w (set_y ?vy (set_x ?vx obj)))] =>
        destruct (box_written obj vx vy w h) as (Ex & Ey & Ew & Eh)
      end;
      rewrite ?Ex, ?Ey, ?Ew, ?Eh; unbool;
      (split; [ first [ apply Qcle_refl | assumption ] | ]);
      (split; [ first [ apply Qcle_refl | assumption ] | ]);
      repeat split; intros; discriminate.
  - destruct handle; cbv iota beta;
      repeat match goal with
      | |- context [if ltb ?a ?b then _ else _] =>
        destruct (ltb a b) eqn:?; cbv iota beta
      end;
      eexists; (split; [ reflexivity | ]);
      match goal with
      | |- context [set_height ?h (set_width ?w (set_y ?vy (set_x ?vx obj)))] =>
        destruct (box_written obj vx vy w h) as (Ex & Ey & Ew & Eh)
      end;
      rewrite ?Ex, ?Ey, ?Ew, ?Eh; unbool;
      (split; [ first [ apply Qcle_refl | assumption ] | ]);
      (split; [ first [ apply Qcle_refl | assumption ] | ]);
      (split; [ intros _ [E | [E | E]]; try discriminate E; qc_lra | ]);
      (split; [ intros _ [E | [E | E]]; try discriminate E; qc_lra | ]);
      intros _ [E | [E | E]]; try discriminate E;
      cbv zeta; split; intros; try reflexivity; qc_lra.
Qed.

Lemma resize_keeps_a_minimum_size_and_the_opposite_edge_witness :
  let obj :=
    Rectangle (Fixtures.test_common "r")
      (mkGeom (Q2Qc 10) (Q2Qc 10) (Q2Qc 40) (Q2Qc 20)) 0 in
  let initial := mkRect (Q2Qc 10) (Q2Qc 10) (Q2Qc 40) (Q2Qc 20) in
  let start := mkPoint (Q2Qc 10) (Q2Qc 20) in
  let tool := mkResizeState (Some obj) (Some handle_w) (Some initial)
                (Some start) in
  (exists obj',
     resizeObject (handleResize tool (mkPoint (Q2Qc 70) (Q2Qc 20)) false false)
     = Some obj'
     /\ get_width obj' = 1 /\ get_x obj' = Q2Qc 49)
  /\ (exists obj',
        resizeObject
          (handleResize tool (mkPoint (Q2Qc 30) (Q2Qc 20)) true false)
        = Some obj'
        /\ get_width obj' = Q2Qc 20 /\ get_height obj' = Q2Qc 10).
Proof.
  intros obj initial start tool. split.
  - destruct (resize_keeps_a_minimum_size_and_the_opposite_edge
                tool (mkPoint (Q2Qc 70) (Q2Qc 20)) false false obj handle_w
                initial start eq_refl eq_refl eq_refl eq_refl)
      as (obj' & E & _).
    + intros E. discriminate E.
    + exists obj'. split; [ exact E | ].
      vm_compute in E. injection E as <-. split; reflexivity.
  - destruct (resize_keeps_a_minimum_size_and_the_opposite_edge
                tool (mkPoint (Q2Qc 30) (Q2Qc 20)) true false obj handle_w
                initial start eq_refl eq_refl eq_refl eq_refl)
      as (obj' & E & _).
    + intros _. split; intros E; discriminate E.
    + exists obj'. split; [ exact E | ].
      vm_compute in E. injection E as <-.
      split; apply Qc_is_canon; reflexivity.
Defined.

Lemma abs_nonneg (a : Qc) : 0 <= abs a.
Proof. unfold abs. split_tests; unbool; qc_lra. Qed.

(** Along one axis, the smaller end and the distance give the larger end. *)
Lemma span_axis (s p : Qc) : Js.min s p + abs (p - s) = Js.max s p.
Proof. unfold Js.min, Js.max, abs. split_tests; unbool; qc_lra. Qed.

(** Along one axis, a side of length [size] that is laid towards the mouse
    has the starting point as one end. *)
Lemma corner_axis (s p size : Qc) :
  let v := if ltb p s then s - size else Js.min s p in
  v = s \/ v + size = s.
Proof.
  cbv zeta. unfold Js.min. destruct (ltb p s) eqn:E.
  - right. ring.
  - left. reflexivity.
Qed.

(** X23. While a rectangle is drawn, its box follows the mouse: without
    modifier keys it spans exactly the point where the drag began and the
    mouse position; with Shift it is a square whose side is the longer of
    the two distances and that has the starting point as a corner; with Alt
    the starting point is its centre. The size is never negative. *)
Theorem drawn_rectangle_follows_the_mouse
    (tool : RectangleTool) (pos : Point) (shiftKey altKey : bool)
    (start : Point) (c : Common) (g : Geom) (cornerRadius : Qc) :
  isDrawing tool = true ->
  drawStart tool = Some start ->
  currentRect tool = Some (Rectangle c g cornerRadius) ->
  exists g',
    currentRect (RectangleTool_onMouseMove tool pos shiftKey altKey)
    = Some (Rectangle c g' cornerRadius)
    /\ 0 <= width g' /\ 0 <= height g'
    /\ (shiftKey = false -> altKey = false ->
        x g' = Js.min (px start) (px pos)
        /\ x g' + width g' = Js.max (px start) (px pos)
        /\ y g' = Js.min (py start) (py pos)
        /\ y g' + height g' = Js.max (py start) (py pos))
    /\ (shiftKey = true -> width g' = height g')
    /\ (shiftKey = true -> altKey = false ->
        width g'
        = Js.max (abs (px pos - px start)) (abs (py pos - py start))
        /\ (x g' = px start \/ x g' + width g' = px start)
        /\ (y g' = py start \/ y g' + height g' = py start))
    /\ (altKey = true ->
        x g' + width g' / Q2Qc 2 = px start
        /\ y g' + height g' / Q2Qc 2 = py start).
Proof.
  intros Hd Hs Hr.
  unfold RectangleTool_onMouseMove. rewrite Hd, Hs, Hr.
  pose proof (abs_nonneg (px pos - px start)) as Hw.
  pose proof (abs_nonneg (py pos - py start)) as Hh.
  pose proof (span_axis (px start) (px pos)) as Hx.
  pose proof (span_axis (py start) (py pos)) as Hy.
  pose proof (corner_axis (px start) (px pos)
                (Js.max (abs (px pos - px start)) (abs (py pos - py start))))
    as Cx.
  pose proof (corner_axis (py start) (py pos)
                (Js.max (abs (px pos - px start)) (abs (py pos - py start))))
    as Cy.
  destruct (max_cases (abs (px pos - px start)) (abs (py pos - py start)))
    as [[Em Hm] | [Em Hm]];
    destruct shiftKey, altKey; cbv iota beta zeta;
    eexists; (split; [ cbn [currentRect set_x set_y set_width set_height];
                       reflexivity | ]);
    cbn [x y width height geom_set_x geom_set_y geom_set_width
         geom_set_height];
    (split; [ rewrite ?Em; qc_lra | ]);
    (split; [ rewrite ?Em; qc_lra | ]);
    (split; [ intros; try discriminate; auto | ]);
    (split; [ intros; try discriminate; reflexivity | ]);
    (split; [ intros; try discriminate; auto | ]);
    intros; try discriminate; split; rewrite ?Em; qc_lra.
Qed.

Lemma drawn_rectangle_follows_the_mouse_witness :
  let start := mkPoint (Q2Qc 10) (Q2Qc 10) in
  let rect := Rectangle (Fixtures.test_common "r")
                (mkGeom (Q2Qc 10) (Q2Qc 10) 0 0) 0 in
  let tool := mkRectangleTool true (Some start) (Some rect) in
  currentRect
    (RectangleTool_onMouseMove tool (mkPoint (Q2Qc 4) (Q2Qc 30)) true false)
  = Some (Rectangle (Fixtures.test_common "r")
            (mkGeom (Q2Qc (-10)) (Q2Qc 10) (Q2Qc 20) (Q2Qc 20)) 0).
Proof.
  intros start rect tool.
  destruct (drawn_rectangle_follows_the_mouse tool
              (mkPoint (Q2Qc 4) (Q2Qc 30)) true false start
              (Fixtures.test_common "r") (mkGeom (Q2Qc 10) (Q2Qc 10) 0 0) 0
              eq_refl eq_refl eq_refl) as (g' & E & _).
  rewrite E. vm_compute in E. injection E as <-.
  reflexivity.
Defined.

End DrawingToolProps.

(** ** The application: selection, order in the document, zoom *)

Module FigmaAppProps.
Import Js Objects NumFacts QcArith FigmaApp.

(** What [indexOf] finds is the first occurrence, and [splice] takes it
    out. *)
Lemma indexOf_spec (l : list ref) (r : ref) :
  match indexOf l r with
  | Some index =>
    exists l1 l2, l = l1 ++ r :: l2 /\ ~ In r l1
                  /\ splice1 index l = l1 ++ l2
  | None => ~ In r l
  end.
Proof.
  induction l as [ | a l IH ]; cbn [indexOf].
  - intros [].
  - destruct (Nat.eqb_spec a r) as [E | E].
    + subst a. exists [], l. repeat split. intros [].
    + destruct (indexOf l r) as [i | ]; cbn [option_map].
      * destruct IH as (l1 & l2 & E1 & N1 & S1).
        exists (a :: l1), l2. split; [ rewrite E1; reflexivity | ].
        split.
        -- intros [H | H]; [ exact (E H) | exact (N1 H) ].
        -- unfold splice1 in *. cbn [firstn skipn app]. rewrite <- S1.
           reflexivity.
      * intros [H | H]; [ exact (E H) | exact (IH H) ].
Qed.

Lemma includes_ref_In (l : list ref) (r : ref) : includes l r = true <-> In r l.
Proof.
  unfold includes. pose proof (indexOf_spec l r) as H.
  destruct (indexOf l r) as [i | ].
  - destruct H as (l1 & l2 & E & _). split; [ intros _ | reflexivity ].
    rewrite E. apply in_elt.
  - split; [ discriminate | intros Hin; contradiction ].
Qed.

Lemma includes_not_In (l : list ref) (r : ref) :
  includes l r = false <-> ~ In r l.
Proof.
  pose proof (includes_ref_In l r) as H. destruct (includes l r).
  - split; [ discriminate | intros N; exfalso; apply N, H; reflexivity ].
  - split; [ intros _ Hin; apply H in Hin; discriminate | reflexivity ].
Qed.

Lemma includes_same (l l' : list ref) (r : ref) :
  (In r l <-> In r l') -> includes l r = includes l' r.
Proof.
  intros H. destruct (includes l' r) eqn:E.
  - apply includes_ref_In, H, includes_ref_In, E.
  - apply includes_not_In. intros Hin. apply includes_not_In in E.
    apply E, H, Hin.
Qed.

Lemma filter_all {A : Type} (p : A -> bool) (l : list A) :
  (forall a, In a l -> p a = true) -> filter p l = l.
Proof.
  induction l as [ | a l IH ]; intros H; cbn [filter].
  - reflexivity.
  - rewrite (H a (or_introl eq_refl)). f_equal. apply IH.
    intros b Hb. apply H. right. exact Hb.
Qed.

(** In an array without duplicates, taking out the first occurrence takes
    out the object. *)
Lemma splice_filter (l : list ref) (r : ref) (index : nat) :
  NoDup l -> indexOf l r = Some index ->
  splice1 index l = filter (fun a => negb (Nat.eqb a r)) l
  /\ In r l.
Proof.
  intros Hn Hi. pose proof (indexOf_spec l r) as H. rewrite Hi in H.
  destruct H as (l1 & l2 & E & N1 & S1). rewrite S1. subst l.
  split; [ | apply in_elt ].
  pose proof (NoDup_remove_2 _ _ _ Hn) as N2.
  rewrite filter_app. cbn [filter]. rewrite Nat.eqb_refl. cbn [negb].
  rewrite !filter_all; [ reflexivity | | ].
  - intros a Ha. destruct (Nat.eqb_spec a r) as [-> | ]; [ | reflexivity ].
    exfalso. apply N2. apply in_or_app. right. exact Ha.
  - intros a Ha. destruct (Nat.eqb_spec a r) as [-> | ]; [ | reflexivity ].
    contradiction.
Qed.

Lemma in_without (l : list ref) (r a : ref) :
  In a (filter (fun b => negb (Nat.eqb b r)) l) <-> In a l /\ a <> r.
Proof.
  rewrite filter_In. destruct (Nat.eqb_spec a r); cbn [negb]; split;
    intros [H1 H2]; split; auto; discriminate.
Qed.

Lemma includes_cons (l : list ref) (r a : ref) :
  includes (r :: l) a = Nat.eqb r a || includes l a.
Proof.
  unfold includes. cbn [indexOf].
  destruct (Nat.eqb r a); [ reflexivity | ].
  destruct (indexOf l a); reflexivity.
Qed.

Lemma unselected_without (sel objs : list ref) (r : ref) :
  filter (fun a => negb (includes sel a))
    (filter (fun a => negb (Nat.eqb a r)) objs)
  = filter (fun a => negb (includes (r :: sel) a)) objs.
Proof.
  induction objs as [ | a objs IH ]; cbn [filter].
  - reflexivity.
  - rewrite includes_cons, (Nat.eqb_sym r a).
    destruct (Nat.eqb a r); cbn [negb orb filter]; rewrite IH; reflexivity.
Qed.

Lemma unselected_absent (sel objs : list ref) (r : ref) :
  ~ In r objs ->
  filter (fun a => negb (includes (r :: sel) a)) objs
  = filter (fun a => negb (includes sel a)) objs.
Proof.
  intros H. apply filter_ext_in. intros a Ha. rewrite includes_cons.
  destruct (Nat.eqb_spec r a) as [-> | ]; [ contradiction | reflexivity ].
Qed.

Lemma NoDup_snoc (l : list ref) (r : ref) :
  NoDup l -> ~ In r l -> NoDup (l ++ [r]).
Proof.
  intros Hn Hr. apply (Permutation_NoDup (l := r :: l)).
  - apply Permutation_cons_append.
  - constructor; assumption.
Qed.

(** The order of the document after the loop of [bringToFront], for a
    document and a selection without duplicates. *)
Lemma front_loop (sel : list ref) :
  forall objs,
    NoDup objs -> NoDup sel ->
    fold_left
      (fun objs obj =>
         match indexOf objs obj with
         | Some index => splice1 index objs ++ [obj]
         | None => objs
         end) sel objs
    = filter (fun r => negb (includes sel r)) objs
      ++ filter (includes objs) sel.
Proof.
  induction sel as [ | r sel IH ]; intros objs Ho Hs; cbn [fold_left].
  - cbn [filter]. rewrite app_nil_r. symmetry. apply filter_all.
    intros a _. reflexivity.
  - inversion Hs as [ | ? ? Hr Hs' ]; subst.
    destruct (indexOf objs r) as [index | ] eqn:Ei.
    + destruct (splice_filter objs r index Ho Ei) as [-> Hin].
      rewrite IH; [ | | exact Hs' ].
      * rewrite filter_app, unselected_without. cbn [filter].
        apply includes_not_In in Hr. rewrite Hr. cbn [negb].
        apply includes_ref_In in Hin. rewrite Hin.
        rewrite <- app_assoc. cbn [app]. do 2 f_equal.
        apply filter_ext_in. intros a Ha. apply includes_same.
        rewrite in_app_iff, in_without. cbn [In].
        apply includes_not_In in Hr.
        assert (a <> r) by (intros ->; contradiction).
        split; [ intros [[H1 _] | [H1 | []]]; congruence | auto ].
      * apply NoDup_snoc; [ apply NoDup_filter; exact Ho | ].
        rewrite in_without. intros [_ H]. apply H. reflexivity.
    + rewrite IH by assumption.
      pose proof (indexOf_spec objs r) as Hn. rewrite Ei in Hn.
      rewrite (unselected_absent sel objs r Hn). cbn [filter].
      apply includes_not_In in Hn. rewrite Hn. reflexivity.
Qed.

(** The same for [sendToBack]. *)
Lemma back_loop (sel : list ref) :
  forall objs,
    NoDup objs -> NoDup sel ->
    fold_left
      (fun objs obj =>
         match indexOf objs obj with
         | Some index => obj :: splice1 index objs
         | None => objs
         end) sel objs
    = rev (filter (includes objs) sel)
      ++ filter (fun r => negb (includes sel r)) objs.
Proof.
  induction sel as [ | r sel IH ]; intros objs Ho Hs; cbn [fold_left].
  - cbn [filter rev app]. symmetry. apply filter_all.
    intros a _. reflexivity.
  - inversion Hs as [ | ? ? Hr Hs' ]; subst.
    destruct (indexOf objs r) as [index | ] eqn:Ei.
    + destruct (splice_filter objs r index Ho Ei) as [-> Hin].
      rewrite IH; [ | | exact Hs' ].
      * cbn [filter]. rewrite unselected_without.
        apply includes_not_In in Hr. rewrite Hr. cbn [negb].
        apply includes_ref_In in Hin. rewrite Hin. cbn [rev].
        rewrite <- app_assoc. cbn [app]. do 2 f_equal.
        apply filter_ext_in. intros a Ha. apply includes_same.
        cbn [In]. rewrite in_without.
        apply includes_not_In in Hr.
        assert (a <> r) by (intros ->; contradiction).
        split; [ intros [H1 | [H1 _]]; congruence | auto ].
      * constructor; [ | apply NoDup_filter; exact Ho ].
        rewrite in_without. intros [_ H]. apply H. reflexivity.
    + rewrite IH by assumption.
      pose proof (indexOf_spec objs r) as Hn. rewrite Ei in Hn.
      rewrite (unselected_absent sel objs r Hn). cbn [filter].
      apply includes_not_In in Hn. rewrite Hn. reflexivity.
Qed.

Lemma objects_of_loop (move : nat -> list ref -> ref -> list ref)
    (sel : list ref) :
  forall app,
    objects
      (fold_left
         (fun app obj =>
            match indexOf (objects app) obj with
            | Some index => with_objects (move index (objects app) obj) app
            | None => app
            end) sel app)
    = fold_left
        (fun objs obj =>
           match indexOf objs obj with
           | Some index => move index objs obj
           | None => objs
           end) sel (objects app).
Proof.
  induction sel as [ | r sel IH ]; intros app; cbn [fold_left].
  - reflexivity.
  - rewrite IH. destruct (indexOf (objects app) r); reflexivity.
Qed.

(** X24. [bringToFront] puts the selected objects of the document on top, in
    the order of the selection, and [sendToBack] puts them at the bottom, in
    the reverse order of the selection; the other objects keep their order.
    This holds when neither the document nor the selection holds an object
    twice. *)
Theorem selection_moves_to_the_front_or_the_back (plain : Data -> JsVal)
    (app : t) :
  NoDup (objects app) ->
  NoDup (selectedObjects app) ->
  let moved := filter (includes (objects app)) (selectedObjects app) in
  let others :=
    filter (fun r => negb (includes (selectedObjects app) r)) (objects app) in
  objects (bringToFront plain app) = others ++ moved
  /\ objects (sendToBack plain app) = rev moved ++ others.
Proof.
  intros Ho Hs moved others. unfold bringToFront, sendToBack.
  destruct (List.length (selectedObjects app) =? 0)%nat eqn:El.
  - apply Nat.eqb_eq, length_zero_iff_nil in El.
    unfold moved, others. rewrite El. cbn [filter rev List.app].
    rewrite app_nil_r. rewrite filter_all; [ split; reflexivity | ].
    intros a _. reflexivity.
  - cbv zeta.
    change (selectedObjects (saveState plain app)) with (selectedObjects app).
    split.
    + etransitivity;
        [ exact (objects_of_loop
                   (fun index objs obj => splice1 index objs ++ [obj])
                   (selectedObjects app) (saveState plain app)) | ].
      exact (front_loop (selectedObjects app) (objects app) Ho Hs).
    + etransitivity;
        [ exact (objects_of_loop
                   (fun index objs obj => obj :: splice1 index objs)
                   (selectedObjects app) (saveState plain app)) | ].
      exact (back_loop (selectedObjects app) (objects app) Ho Hs).
Qed.

Lemma selection_moves_to_the_front_or_the_back_witness :
  let plain := fun _ : Data => JNull in
  let app :=
    FigmaApp.mk (fun _ => Fixtures.test_rectangle) [1; 2; 3; 4]%nat
      [3; 1; 7]%nat (History.new None)
      (Geometry.mkViewport 0 0 1) in
  objects (bringToFront plain app) = [2; 4; 3; 1]%nat
  /\ objects (sendToBack plain app) = [1; 3; 2; 4]%nat.
Proof.
  intros plain app.
  apply (selection_moves_to_the_front_or_the_back plain app);
    repeat (constructor; [ cbn; intuition discriminate | ]); constructor.
Defined.

(** The loop of [addToSelection]. *)
Lemma add_loop (objs : list ref) :
  forall app,
    NoDup (selectedObjects app) ->
    let app' := addToSelection app objs in
    NoDup (selectedObjects app')
    /\ (exists added, selectedObjects app' = selectedObjects app ++ added)
    /\ (forall r, In r (selectedObjects app')
                  <-> In r (selectedObjects app) \/ In r objs).
Proof.
  unfold addToSelection.
  induction objs as [ | o objs IH ]; intros app Hn; cbn [fold_left].
  - split; [ exact Hn | ]. split; [ exists []; symmetry; apply app_nil_r | ].
    intros r. cbn [In]. tauto.
  - destruct (includes (selectedObjects app) o) eqn:E; cbn [negb].
    + destruct (IH app Hn) as (N & [added A] & I).
      split; [ exact N | ]. split; [ exists added; exact A | ].
      intros r. rewrite I. cbn [In]. apply includes_ref_In in E.
      split; [ tauto | intros [H | [<- | H]]; tauto ].
    + apply includes_not_In in E.
      destruct (IH (with_selection (selectedObjects app ++ [o]) app))
        as (N & [added A] & I).
      { cbn [selectedObjects with_selection]. apply NoDup_snoc; assumption. }
      cbn [selectedObjects with_selection] in A, I.
      split; [ exact N | ].
      split; [ exists (o :: added); rewrite A, <- app_assoc; reflexivity | ].
      intros r. rewrite I, in_app_iff. cbn [In]. tauto.
Qed.

(** X25. The selection never comes to hold an object twice through
    [addToSelection] or [toggleSelection]: [addToSelection] appends the
    objects that are not selected yet, once each, behind the objects
    selected before; [toggleSelection] selects the object if it was not
    selected and takes it out if it was, and leaves the other objects as
    they were. *)
Theorem selection_holds_no_object_twice (app : t) (objs : list ref)
    (object : ref) :
  NoDup (selectedObjects app) ->
  let added := addToSelection app objs in
  let toggled := toggleSelection app object in
  (NoDup (selectedObjects added)
   /\ (exists rest, selectedObjects added = selectedObjects app ++ rest)
   /\ (forall r, In r (selectedObjects added)
                 <-> In r (selectedObjects app) \/ In r objs))
  /\ (NoDup (selectedObjects toggled)
      /\ (In object (selectedObjects toggled)
          <-> ~ In object (selectedObjects app))
      /\ (forall r, r <> object ->
            (In r (selectedObjects toggled) <-> In r (selectedObjects app)))).
Proof.
  intros Hn added toggled. split; [ exact (add_loop objs app Hn) | ].
  unfold toggled, toggleSelection.
  pose proof (indexOf_spec (selectedObjects app) object) as H.
  destruct (indexOf (selectedObjects app) object) as [index | ];
    cbn [selectedObjects with_selection].
  - destruct H as (l1 & l2 & E & N1 & ->). rewrite E in *.
    split; [ exact (NoDup_remove_1 _ _ _ Hn) | ].
    pose proof (NoDup_remove_2 _ _ _ Hn) as N2.
    split.
    + split; [ intros Hin; contradiction | ].
      intros Hno. exfalso. apply Hno, in_elt.
    + intros r Hr. rewrite !in_app_iff. cbn [In].
      split; [ tauto | intros [Hl | [Hl | Hl]]; [ tauto | congruence | tauto ] ].
  - split; [ apply NoDup_snoc; assumption | ]. split.
    + split; [ intros _; exact H | intros _ ].
      apply in_or_app. right. left. reflexivity.
    + intros r Hr. rewrite in_app_iff. cbn [In].
      split; [ intros [Hl | [Hl | []]]; [ exact Hl | congruence ] | tauto ].
Qed.

Lemma selection_holds_no_object_twice_witness :
  let app :=
    FigmaApp.mk (fun _ => Fixtures.test_rectangle) [1; 2; 3; 4]%nat
      [3; 1]%nat (History.new None) (Geometry.mkViewport 0 0 1) in
  selectedObjects (addToSelection app [1; 4; 4; 2]%nat) = [3; 1; 4; 2]%nat
  /\ selectedObjects (toggleSelection app 3%nat) = [1]%nat
  /\ NoDup (selectedObjects (toggleSelection app 2%nat)).
Proof.
  intros app.
  destruct (selection_holds_no_object_twice app [1; 4; 4; 2]%nat 2%nat)
    as [_ [N _]].
  - repeat (constructor; [ cbn; intuition discriminate | ]); constructor.
  - split; [ reflexivity | ]. split; [ reflexivity | exact N ].
Defined.

(** X26. [zoomAtPoint] keeps the zoom between 0.1 and 10 and keeps under the
    cursor the point of the canvas that was under it; every other point of
    the canvas moves away from the cursor, or towards it, in the proportion
    of the new zoom to the old one. The old zoom must not be [0]. *)
Theorem zoomAtPoint_keeps_the_point_under_the_cursor (app : t)
    (screenX screenY delta : Qc) :
  Geometry.zoom (viewport app) <> 0 ->
  let old := viewport app in
  let new := viewport (zoomAtPoint app screenX screenY delta) in
  Q2Qc (1 # 10) <= Geometry.zoom new /\ Geometry.zoom new <= Q2Qc 10
  /\ screenToWorld new screenX screenY = screenToWorld old screenX screenY
  /\ forall x y,
       (px (worldToScreen new x y) - screenX) * Geometry.zoom old
       = (px (worldToScreen old x y) - screenX) * Geometry.zoom new
       /\ (py (worldToScreen new x y) - screenY) * Geometry.zoom old
          = (py (worldToScreen old x y) - screenY) * Geometry.zoom new.
Proof.
  intros Hz old new. unfold new, zoomAtPoint. cbv zeta.
  cbn [viewport setViewport defined_or Geometry.zoom Geometry.offsetX
       Geometry.offsetY].
  fold old.
  set (newZoom := Geometry.clamp _ _ _).
  assert (B : Q2Qc (1 # 10) <= newZoom /\ newZoom <= Q2Qc 10).
  { unfold newZoom, Geometry.clamp.
    destruct (max_cases (Geometry.zoom old * (1 + delta)) (Q2Qc (1 # 10)))
      as [[-> H] | [-> H]];
      match goal with
      | |- context [Js.min ?a ?b] =>
        destruct (min_cases a b) as [[-> H'] | [-> H']]
      end; split; qc_lra. }
  destruct B as [B1 B2].
  assert (Hn : newZoom <> 0) by (intros E; rewrite E in B1; qc_lra).
  split; [ exact B1 | ]. split; [ exact B2 | ]. split.
  - unfold screenToWorld, setViewport.
    cbn [Geometry.zoom Geometry.offsetX Geometry.offsetY defined_or].
    f_equal; field; split; assumption.
  - intros x y. unfold worldToScreen, setViewport.
    cbn [px py Geometry.zoom Geometry.offsetX Geometry.offsetY defined_or].
    split; field; assumption.
Qed.

Lemma zoomAtPoint_keeps_the_point_under_the_cursor_witness :
  let app :=
    FigmaApp.mk (fun _ => Fixtures.test_rectangle) [] [] (History.new None)
      (Geometry.mkViewport (Q2Qc 30) (Q2Qc 40) (Q2Qc 2)) in
  let new := viewport (zoomAtPoint app (Q2Qc 100) (Q2Qc 60) (Q2Qc 9)) in
  Geometry.zoom new <= Q2Qc 10
  /\ screenToWorld new (Q2Qc 100) (Q2Qc 60)
     = screenToWorld (viewport app) (Q2Qc 100) (Q2Qc 60).
Proof.
  intros app new.
  destruct (zoomAtPoint_keeps_the_point_under_the_cursor app (Q2Qc 100)
              (Q2Qc 60) (Q2Qc 9)) as (_ & B & E & _).
  - intros H. discriminate H.
  - split; [ exact B | exact E ].
Defined.

End FigmaAppProps.

(** ** The application: aligning and distributing the selection *)

Module SelectionLayoutProps.
Import Js Objects NumFacts QcArith LayoutProps AccessorFacts ObjectMethodProps.
Import AutoLayoutProps AutoLayoutHug FigmaApp SelectionPredicates.
Import Predicates.

(** A running minimum and a running maximum end at values that the loop
    has seen, or where they began. *)
Lemma running_box_attained {A : Type} (lo hi : A -> Qc) (l : list A) :
  forall (mn mx : option Qc),
    let '(mn', mx') :=
      fold_left (fun (acc : option Qc * option Qc) a =>
                   (min_from (fst acc) (lo a), max_from (snd acc) (hi a)))
        l (mn, mx) in
    (mn' = mn \/ exists a, In a l /\ mn' = Some (lo a))
    /\ (mx' = mx \/ exists a, In a l /\ mx' = Some (hi a)).
Proof.
  induction l as [ | a l IH ]; intros mn mx; cbn [fold_left fst snd].
  - split; left; reflexivity.
  - specialize (IH (min_from mn (lo a)) (max_from mx (hi a))).
    destruct (fold_left _ l _) as [mn' mx'].
    destruct IH as [I1 I2]. split.
    + destruct I1 as [-> | (b & Hb & I1)].
      * destruct mn as [m0 | ]; cbn [min_from].
        -- destruct (min_cases m0 (lo a)) as [[-> _] | [-> _]].
           ++ left. reflexivity.
           ++ right. exists a. split; [ left | ]; reflexivity.
        -- right. exists a. split; [ left | ]; reflexivity.
      * right. exists b. split; [ right; exact Hb | exact I1 ].
    + destruct I2 as [-> | (b & Hb & I2)].
      * destruct mx as [m0 | ]; cbn [max_from].
        -- destruct (max_cases m0 (hi a)) as [[-> _] | [-> _]].
           ++ right. exists a. split; [ left | ]; reflexivity.
           ++ left. reflexivity.
        -- right. exists a. split; [ left | ]; reflexivity.
      * right. exists b. split; [ right; exact Hb | exact I2 ].
Qed.

(** The box that the loop over four running values computes over a sequence
    that is not empty holds every element, and every side of it is the side
    of an element. *)
Lemma box_is_tight {A : Type} (lox hix loy hiy : A -> Qc) (l : list A) :
  l <> [] ->
  exists minX minY maxX maxY,
    fold_left
      (fun (acc : option Qc * option Qc * option Qc * option Qc) p =>
         let '(minX, minY, maxX, maxY) := acc in
         (min_from minX (lox p), min_from minY (loy p),
          max_from maxX (hix p), max_from maxY (hiy p)))
      l (None, None, None, None)
    = (Some minX, Some minY, Some maxX, Some maxY)
    /\ (forall p, In p l ->
          minX <= lox p /\ hix p <= maxX /\ minY <= loy p /\ hiy p <= maxY)
    /\ (exists p, In p l /\ lox p = minX)
    /\ (exists p, In p l /\ hix p = maxX)
    /\ (exists p, In p l /\ loy p = minY)
    /\ (exists p, In p l /\ hiy p = maxY).
Proof.
  intros Hne.
  destruct (box_holds_all lox hix loy hiy l Hne)
    as (minX & minY & maxX & maxY & E & Hb).
  exists minX, minY, maxX, maxY.
  split; [ exact E | ]. split; [ exact Hb | ].
  rewrite box_fold in E.
  pose proof (running_box_attained lox hix l None None) as X.
  pose proof (running_box_attained loy hiy l None None) as Y.
  destruct (fold_left _ l (None, None)) as [mnx mxx].
  destruct (fold_left _ l (None, None)) as [mny mxy].
  cbn [fst snd] in E. injection E as -> -> -> ->.
  destruct X as [[X1 | (a & Ha & X1)] [X2 | (b & Hb' & X2)]];
    try discriminate.
  destruct Y as [[Y1 | (c & Hc & Y1)] [Y2 | (d & Hd & Y2)]];
    try discriminate.
  injection X1 as ->. injection X2 as ->.
  injection Y1 as ->. injection Y2 as ->.
  split; [ exists a; split; [ exact Ha | reflexivity ] | ].
  split; [ exists b; split; [ exact Hb' | reflexivity ] | ].
  split; [ exists c; split; [ exact Hc | reflexivity ] | ].
  exists d; split; [ exact Hd | reflexivity ].
Qed.

(** One turn of the second loop of [alignSelection] on an object that has
    the size and the cross position of [before]. *)
Lemma align_one (direction : AlignDirection) (minX minY maxX maxY : Qc)
    (before o : DesignObject) :
  keeps direction before o ->
  let o' :=
    match direction with
    | left => set_x minX o
    | right => set_x (maxX - get_width o) o
    | centerH =>
      set_x ((minX + maxX) / Q2Qc 2 - get_width o / Q2Qc 2) o
    | top => set_y minY o
    | bottom => set_y (maxY - get_height o) o
    | centerV =>
      set_y ((minY + maxY) / Q2Qc 2 - get_height o / Q2Qc 2) o
    end in
  keeps direction before o'
  /\ lined_up direction minX minY maxX maxY o'.
Proof.
  intros (Hw & Hh & Hc). unfold keeps, lined_up, cross_position in *.
  destruct direction; cbv zeta;
    rewrite ?get_x_set_x, ?get_y_set_y, ?get_width_set_x, ?get_width_set_y,
      ?get_height_set_x, ?get_height_set_y, ?get_y_set_x, ?get_x_set_y;
    (split; [ split; [ exact Hw | split; [ exact Hh | exact Hc ] ] | ]);
    try reflexivity; ring.
Qed.

(** The second loop of [alignSelection]. *)
Lemma align_loop (direction : AlignDirection) (minX minY maxX maxY : Qc)
    (sel : list ref) :
  forall app,
    let app' :=
      fold_left
        (fun app r =>
           let obj := store app r in
           match direction with
           | left => modify r (set_x minX) app
           | right => modify r (set_x (maxX - get_width obj)) app
           | centerH =>
             modify r
               (set_x ((minX + maxX) / Q2Qc 2 - get_width obj / Q2Qc 2)) app
           | top => modify r (set_y minY) app
           | bottom => modify r (set_y (maxY - get_height obj)) app
           | centerV =>
             modify r
               (set_y ((minY + maxY) / Q2Qc 2 - get_height obj / Q2Qc 2)) app
           end)
        sel app in
    (forall r, ~ In r sel -> store app' r = store app r)
    /\ (forall r before,
          In r sel -> keeps direction before (store app r) ->
          keeps direction before (store app' r)
          /\ lined_up direction minX minY maxX maxY (store app' r)).
Proof.
  induction sel as [ | r1 sel IH ]; intros app; cbn [fold_left].
  - split; [ reflexivity | intros r before [] ].
  - match goal with
    | |- context [fold_left _ sel ?a] => set (app1 := a)
    end.
    assert (S1 : forall r, r <> r1 -> store app1 r = store app r).
    { intros r Hr. unfold app1. apply Nat.eqb_neq in Hr.
      destruct direction; cbn [store modify]; rewrite Hr; reflexivity. }
    assert (S2 : forall before,
               keeps direction before (store app r1) ->
               keeps direction before (store app1 r1)
               /\ lined_up direction minX minY maxX maxY (store app1 r1)).
    { intros before Hk.
      pose proof (align_one direction minX minY maxX maxY before
                    (store app r1) Hk) as H.
      unfold app1.
      destruct direction; cbn [store modify]; rewrite Nat.eqb_refl;
        exact H. }
    destruct (IH app1) as [I1 I2]. cbv zeta. split.
    + intros r Hr. rewrite I1 by (intros H; apply Hr; right; exact H).
      apply S1. intros ->. apply Hr. left. reflexivity.
    + intros r before Hr Hk.
      destruct (in_dec Nat.eq_dec r sel) as [Hin | Hout].
      * apply I2; [ exact Hin | ].
        destruct (Nat.eq_dec r r1) as [-> | Hne].
        -- apply S2. exact Hk.
        -- rewrite S1 by exact Hne. exact Hk.
      * rewrite I1 by exact Hout.
        destruct Hr as [<- | Hr]; [ | contradiction ].
        apply S2. exact Hk.
Qed.

(** X27. [alignSelection], on a selection of two objects or more, moves every
    selected object to the side that the direction names of the box around
    the selection as it was, or centres it about the middle of that box; it
    moves the objects along one axis only and keeps their sizes, and it
    leaves every other object as it was. *)
Theorem alignSelection_lines_up_the_selection (plain : Data -> JsVal)
    (app : t) (direction : AlignDirection) :
  (2 <= List.length (selectedObjects app))%nat ->
  let before := store app in
  let after := store (alignSelection plain app direction) in
  exists minX minY maxX maxY,
    (forall r, In r (selectedObjects app) ->
       minX <= get_x (before r)
       /\ get_x (before r) + get_width (before r) <= maxX
       /\ minY <= get_y (before r)
       /\ get_y (before r) + get_height (before r) <= maxY)
    /\ (exists r, In r (selectedObjects app) /\ get_x (before r) = minX)
    /\ (exists r, In r (selectedObjects app)
                  /\ get_x (before r) + get_width (before r) = maxX)
    /\ (exists r, In r (selectedObjects app) /\ get_y (before r) = minY)
    /\ (exists r, In r (selectedObjects app)
                  /\ get_y (before r) + get_height (before r) = maxY)
    /\ (forall r, In r (selectedObjects app) ->
          keeps direction (before r) (after r)
          /\ lined_up direction minX minY maxX maxY (after r))
    /\ (forall r, ~ In r (selectedObjects app) -> after r = before r).
Proof.
  intros Hlen before after. unfold after, alignSelection.
  destruct (Nat.ltb_spec (List.length (selectedObjects app)) 2) as [H | _];
    [ lia | ].
  cbv zeta.
  change (selectedObjects (saveState plain app)) with (selectedObjects app).
  change (store (saveState plain app)) with before.
  assert (Hne : selectedObjects app <> [])
    by (intros E; rewrite E in Hlen; cbn in Hlen; lia).
  destruct (box_is_tight
              (fun r => get_x (before r))
              (fun r => get_x (before r) + get_width (before r))
              (fun r => get_y (before r))
              (fun r => get_y (before r) + get_height (before r))
              (selectedObjects app) Hne)
    as (minX & minY & maxX & maxY & E & Hb & A1 & A2 & A3 & A4).
  cbv beta in E, Hb, A1, A2, A3, A4.
  exists minX, minY, maxX, maxY.
  split; [ exact Hb | ]. split; [ exact A1 | ]. split; [ exact A2 | ].
  split; [ exact A3 | ]. split; [ exact A4 | ].
  match goal with
  | |- context [match ?f with _ => _ end] =>
    replace f with (Some minX, Some minY, Some maxX, Some maxY)
      by (symmetry; exact E)
  end.
  destruct (align_loop direction minX minY maxX maxY (selectedObjects app)
              (saveState plain app)) as [L1 L2].
  split.
  - intros r Hr. apply L2; [ exact Hr | ].
    repeat split.
  - exact L1.
Qed.

Lemma alignSelection_lines_up_the_selection_witness :
  let plain := fun _ : Data => JNull in
  let app :=
    FigmaApp.mk
      (fun r => match r with
                | O => Fixtures.child_20
                | S O => Fixtures.sample_line
                | _ => Fixtures.child_40
                end)
      [0; 1; 2]%nat [0; 1]%nat (History.new None)
      (Geometry.mkViewport 0 0 1) in
  keeps right (store app 1%nat)
    (store (alignSelection plain app right) 1%nat)
  /\ store (alignSelection plain app right) 2%nat = store app 2%nat.
Proof.
  intros plain app.
  destruct (alignSelection_lines_up_the_selection plain app right)
    as (minX & minY & maxX & maxY & _ & _ & _ & _ & _ & H & U).
  - cbn. lia.
  - split.
    + apply H. right. left. reflexivity.
    + apply U. cbn. intuition discriminate.
Defined.

(** Insertion by a numeric key keeps a sequence in the order of the key. *)
Lemma insert_by_key_sorted {A : Type} (key : A -> Qc) (a : A) (l : list A) :
  StronglySorted (fun a b => key a <= key b) l ->
  StronglySorted (fun a b => key a <= key b)
    (BooleanOperations.insert_sorted (fun a b => key a - key b) a l).
Proof.
  induction 1 as [ | b l Hs IH Hb ]; cbn [BooleanOperations.insert_sorted].
  - constructor; [ constructor | constructor ].
  - destruct (ltb (key a - key b) 0) eqn:E; unbool.
    + constructor; [ constructor; assumption | ].
      constructor; [ qc_lra | ].
      eapply Forall_impl; [ | exact Hb ].
      cbv beta. intros c Hc. qc_lra.
    + constructor; [ exact IH | ].
      apply (Permutation_Forall
               (Permutation_sym (insert_sorted_perm _ a l))).
      constructor; [ qc_lra | exact Hb ].
Qed.

Lemma sort_by_key_sorted {A : Type} (key : A -> Qc) (l : list A) :
  StronglySorted (fun a b => key a <= key b)
    (BooleanOperations.sort (fun a b => key a - key b) l).
Proof.
  unfold BooleanOperations.sort.
  assert (G : forall acc,
            StronglySorted (fun a b => key a <= key b) acc ->
            StronglySorted (fun a b => key a <= key b)
              (fold_left
                 (fun sorted a =>
                    BooleanOperations.insert_sorted
                      (fun a b => key a - key b) a sorted) l acc)).
  { induction l as [ | a l IH ]; intros acc Hacc; cbn [fold_left].
    - exact Hacc.
    - apply IH, insert_by_key_sorted, Hacc. }
  apply G. constructor.
Qed.

(** The sequence ends where its start, the extents and the gaps put it. *)
Lemma chained_end (pos size : DesignObject -> Qc) (gap : Qc)
    (l : list DesignObject) :
  forall start last,
    chained pos size gap start l ->
    nth_error l (List.length l - 1) = Some last ->
    pos last + size last
    = start + (fold_left Qcplus (List.map size l) 0
               + gap * (num_of_nat (List.length l) - 1)).
Proof.
  induction l as [ | a l IH ]; intros start last Hc Hl.
  - discriminate.
  - destruct Hc as [Ha Hc]. destruct l as [ | b l ].
    + cbn in Hl. injection Hl as <-. rewrite Ha.
      cbn [List.map fold_left List.length]. rewrite num_of_nat_S.
      change (num_of_nat 0) with 0. ring.
    + cbn [List.length] in Hl. rewrite Nat.sub_succ, Nat.sub_0_r in Hl.
      cbn [nth_error] in Hl.
      assert (Hl' : nth_error (b :: l) (List.length (b :: l) - 1)
                    = Some last).
      { cbn [List.length]. rewrite Nat.sub_succ, Nat.sub_0_r. exact Hl. }
      rewrite (IH _ _ Hc Hl').
      cbn [List.map fold_left List.length].
      rewrite (fold_plus_init _ (0 + size a + size b)),
        (fold_plus_init _ (0 + size b)), !num_of_nat_S.
      ring.
Qed.

Lemma sum_of_map {A : Type} (f : A -> Qc) (l : list A) :
  forall init,
    fold_left (fun sum a => sum + f a) l init
    = fold_left Qcplus (List.map f l) init.
Proof.
  induction l as [ | a l IH ]; intros init; cbn [fold_left List.map].
  - reflexivity.
  - apply IH.
Qed.

(** The loop of [distributeSelection] along one axis, over references
    that are all different. *)
Lemma spread_loop (pos size : DesignObject -> Qc)
    (set : Qc -> DesignObject -> DesignObject) (spacing : Qc) :
  (forall v o, pos (set v o) = v) ->
  (forall v o, size (set v o) = size o) ->
  forall l app start,
    NoDup l ->
    let app' :=
      fst (fold_left
             (fun (acc : t * Qc) obj =>
                let (app, current) := acc in
                let app := modify obj (set current) app in
                (app, current + (size (store app obj) + spacing)))
             l (app, start)) in
    (forall r, ~ In r l -> store app' r = store app r)
    /\ (forall r, In r l -> exists v, store app' r = set v (store app r))
    /\ chained pos size spacing start (List.map (store app') l).
Proof.
  intros Hpos Hsize.
  induction l as [ | r1 l IH ]; intros app start Hn; cbn [fold_left].
  - cbv zeta. cbn [fst List.map chained].
    split; [ reflexivity | ]. split; [ intros r [] | exact I ].
  - inversion Hn as [ | ? ? Hr1 Hn' ]; subst.
    cbv beta iota zeta.
    set (app1 := modify r1 (set start) app).
    assert (S1 : forall r, r <> r1 -> store app1 r = store app r).
    { intros r Hr. unfold app1. cbn [store modify].
      apply Nat.eqb_neq in Hr. rewrite Hr. reflexivity. }
    assert (S2 : store app1 r1 = set start (store app r1)).
    { unfold app1. cbn [store modify]. rewrite Nat.eqb_refl. reflexivity. }
    destruct (IH app1 (start + (size (store app1 r1) + spacing)) Hn')
      as (I1 & I2 & I3).
    cbv beta iota zeta in I1, I2, I3.
    set (final := fst (fold_left _ l _)) in *.
    split; [ | split ].
    + intros r Hr. rewrite I1 by (intros H; apply Hr; right; exact H).
      apply S1. intros ->. apply Hr. left. reflexivity.
    + intros r [<- | Hr].
      * exists start. rewrite I1 by exact Hr1. exact S2.
      * destruct (I2 r Hr) as [v Ev]. exists v. rewrite Ev.
        rewrite S1; [ reflexivity | ]. intros ->. contradiction.
    + cbn [List.map chained]. split.
      * rewrite I1 by exact Hr1. rewrite S2. apply Hpos.
      * rewrite (I1 r1 Hr1). exact I3.
Qed.

Lemma count_minus_one (n : nat) : (2 <= n)%nat -> num_of_nat n - 1 <> 0.
Proof.
  intros H. destruct n as [ | [ | n ] ]; try lia.
  rewrite !num_of_nat_S. pose proof (num_of_nat_nonneg n) as Hn.
  intros E. qc_lra.
Qed.

(** [distributeSelection] along one axis, from the sorted selection on. *)
Lemma spread_axis (pos size : DesignObject -> Qc)
    (set : Qc -> DesignObject -> DesignObject)
    (sorted : list ref) (app : t) (first last : ref) :
  (forall v o, pos (set v o) = v) ->
  (forall v o, size (set v o) = size o) ->
  NoDup sorted ->
  (2 <= List.length sorted)%nat ->
  nth_error sorted 0 = Some first ->
  nth_error sorted (List.length sorted - 1) = Some last ->
  let total :=
    fold_left (fun sum obj => sum + size (store app obj)) sorted 0 in
  let lo := pos (store app first) in
  let hi := pos (store app last) + size (store app last) in
  let spacing := (hi - lo - total) / (num_of_nat (List.length sorted) - 1) in
  let app' :=
    fst (fold_left
           (fun (acc : t * Qc) obj =>
              let (app, current) := acc in
              let app := modify obj (set current) app in
              (app, current + (size (store app obj) + spacing)))
           sorted (app, lo)) in
  pos (store app' first) = lo
  /\ pos (store app' last) + size (store app' last) = hi
  /\ (forall i a b,
        nth_error sorted i = Some a -> nth_error sorted (S i) = Some b ->
        pos (store app' b)
        = pos (store app' a) + (size (store app' a) + spacing))
  /\ (forall r, In r sorted -> exists v, store app' r = set v (store app r))
  /\ (forall r, ~ In r sorted -> store app' r = store app r).
Proof.
  intros Hpos Hsize Hn Hlen Hf Hl total lo hi spacing app'.
  destruct (spread_loop pos size set spacing Hpos Hsize sorted app lo Hn)
    as (L1 & L2 & L3).
  fold app' in L1, L2, L3.
  assert (Hsizes : List.map size (List.map (store app') sorted)
                   = List.map (fun r => size (store app r)) sorted).
  { rewrite List.map_map. apply List.map_ext_in. intros r Hr.
    destruct (L2 r Hr) as [v ->]. apply Hsize. }
  split; [ | split; [ | split; [ | split ] ] ].
  - destruct sorted as [ | r l ]; [ discriminate | ].
    injection Hf as <-. exact (proj1 L3).
  - assert (Hl' : nth_error (List.map (store app') sorted)
                    (List.length (List.map (store app') sorted) - 1)
                  = Some (store app' last)).
    { rewrite List.length_map. apply List.map_nth_error. exact Hl. }
    rewrite (chained_end pos size spacing _ lo _ L3 Hl').
    rewrite Hsizes, List.length_map, <- sum_of_map. fold total.
    unfold spacing.
    pose proof (count_minus_one _ Hlen) as Hc.
    field. exact Hc.
  - intros i a b Ha Hb.
    apply (chained_adjacent pos size spacing _ lo L3 i);
      apply List.map_nth_error; assumption.
  - exact L2.
  - exact L1.
Qed.

(** X28. [distributeSelection], on a selection of three different objects or
    more, spreads them along the axis in the order of their positions: the
    first keeps its near edge, the last keeps its far edge, and the gap
    between every two neighbours is the same. It keeps the sizes and the
    positions across the axis, and leaves every other object as it was. *)
Theorem distributeSelection_spreads_the_selection (plain : Data -> JsVal)
    (app : t) (direction : DistributeDirection) :
  (3 <= List.length (selectedObjects app))%nat ->
  NoDup (selectedObjects app) ->
  let before := store app in
  let after := store (distributeSelection plain app direction) in
  let pos :=
    match direction with horizontal => get_x | vertical => get_y end in
  let size :=
    match direction with horizontal => get_width | vertical => get_height end
  in
  let across :=
    match direction with horizontal => get_y | vertical => get_x end in
  exists sorted spacing,
    Permutation sorted (selectedObjects app)
    /\ StronglySorted (fun a b => pos (before a) <= pos (before b)) sorted
    /\ (forall first, nth_error sorted 0 = Some first ->
          pos (after first) = pos (before first))
    /\ (forall last, nth_error sorted (List.length sorted - 1) = Some last ->
          pos (after last) + size (after last)
          = pos (before last) + size (before last))
    /\ (forall i a b,
          nth_error sorted i = Some a -> nth_error sorted (S i) = Some b ->
          pos (after b) = pos (after a) + (size (after a) + spacing))
    /\ (forall r, In r (selectedObjects app) ->
          get_width (after r) = get_width (before r)
          /\ get_height (after r) = get_height (before r)
          /\ across (after r) = across (before r))
    /\ (forall r, ~ In r (selectedObjects app) -> after r = before r).
Proof.
  intros Hlen Hn before after pos size across.
  unfold after, distributeSelection.
  destruct (Nat.ltb_spec (List.length (selectedObjects app)) 3) as [H | _];
    [ lia | ].
  cbv zeta.
  change (selectedObjects (saveState plain app)) with (selectedObjects app).
  change (store (saveState plain app)) with before.
  set (app0 := saveState plain app).
  set (sorted := BooleanOperations.sort _ (selectedObjects app)).
  assert (Hp : Permutation sorted (selectedObjects app))
    by apply sort_perm.
  assert (Hlen' : List.length sorted = List.length (selectedObjects app))
    by (apply Permutation_length; exact Hp).
  assert (Hn' : NoDup sorted)
    by (apply (Permutation_NoDup (Permutation_sym Hp)); exact Hn).
  assert (Hs : StronglySorted (fun a b => pos (before a) <= pos (before b))
                 sorted).
  { unfold sorted, pos. destruct direction;
      apply (sort_by_key_sorted (fun r => _ (before r))). }
  destruct (nth_error sorted 0) as [first | ] eqn:Ef;
    [ | apply nth_error_None in Ef; lia ].
  destruct (nth_error sorted (List.length sorted - 1)) as [last | ] eqn:El;
    [ | apply nth_error_None in El; lia ].
  assert (Hin : forall r, In r sorted <-> In r (selectedObjects app)).
  { intros r. split; apply Permutation_in;
      [ exact Hp | apply Permutation_sym; exact Hp ]. }
  destruct direction.
  - destruct (spread_axis get_x get_width set_x sorted app0 first last
                get_x_set_x get_width_set_x Hn' ltac:(lia) Ef El)
      as (A1 & A2 & A3 & A4 & A5).
    eexists sorted, _.
    split; [ exact Hp | ]. split; [ exact Hs | ].
    split; [ intros f Hf; rewrite Ef in Hf; injection Hf as <-; exact A1 | ].
    split; [ intros l Hl; rewrite El in Hl; injection Hl as <-; exact A2 | ].
    split; [ exact A3 | ]. split.
    + intros r Hr. apply Hin in Hr. destruct (A4 r Hr) as [v Ev].
      assert (K : forall o o', o' = set_x v o ->
                    get_width o' = get_width o
                    /\ get_height o' = get_height o /\ get_y o' = get_y o).
      { intros o o' ->.
        rewrite get_width_set_x, get_height_set_x, get_y_set_x.
        repeat split. }
      exact (K _ _ Ev).
    + intros r Hr. apply A5. rewrite Hin. exact Hr.
  - destruct (spread_axis get_y get_height set_y sorted app0 first last
                get_y_set_y get_height_set_y Hn' ltac:(lia) Ef El)
      as (A1 & A2 & A3 & A4 & A5).
    eexists sorted, _.
    split; [ exact Hp | ]. split; [ exact Hs | ].
    split; [ intros f Hf; rewrite Ef in Hf; injection Hf as <-; exact A1 | ].
    split; [ intros l Hl; rewrite El in Hl; injection Hl as <-; exact A2 | ].
    split; [ exact A3 | ]. split.
    + intros r Hr. apply Hin in Hr. destruct (A4 r Hr) as [v Ev].
      assert (K : forall o o', o' = set_y v o ->
                    get_width o' = get_width o
                    /\ get_height o' = get_height o /\ get_x o' = get_x o).
      { intros o o' ->.
        rewrite get_width_set_y, get_height_set_y, get_x_set_y.
        repeat split. }
      exact (K _ _ Ev).
    + intros r Hr. apply A5. rewrite Hin. exact Hr.
Qed.

Lemma distributeSelection_spreads_the_selection_witness :
  let plain := fun _ : Data => JNull in
  let app :=
    FigmaApp.mk
      (fun r => match r with
                | O => Fixtures.child_20
                | S O => Fixtures.sample_line
                | _ => Fixtures.child_40
                end)
      [0; 1; 2; 3]%nat [2; 0; 1]%nat (History.new None)
      (Geometry.mkViewport 0 0 1) in
  get_width (store (distributeSelection plain app horizontal) 1%nat)
  = get_width (store app 1%nat)
  /\ store (distributeSelection plain app horizontal) 3%nat = store app 3%nat.
Proof.
  intros plain app.
  assert (Hlen : (3 <= List.length (selectedObjects app))%nat)
    by (unfold app; cbn [selectedObjects List.length]; lia).
  assert (Hn : NoDup (selectedObjects app)).
  { unfold app. cbn [selectedObjects].
    repeat (constructor; [ cbn [In]; intuition discriminate | ]).
    constructor. }
  assert (H1 : In 1%nat (selectedObjects app))
    by (unfold app; cbn [selectedObjects In]; auto).
  assert (H3 : ~ In 3%nat (selectedObjects app))
    by (unfold app; cbn [selectedObjects In]; intuition discriminate).
  destruct (distributeSelection_spreads_the_selection plain app horizontal
              Hlen Hn)
    as (sorted & spacing & _ & _ & _ & _ & _ & H & U).
  split; [ exact (proj1 (H 1%nat H1)) | exact (U 3%nat H3) ].
Defined.

End SelectionLayoutProps.
